(** * Enhanced Color Scale Generator: a shallow embedding and its properties

    The development embeds the colour-mathematics core of the generator
    (js/color-utils.js with its LAB-aware successor, js/scale-generator.js,
    js/accessibility.js, js/dark-mode-generator.js and the search helpers of
    js/ui-controller.js) and proves or refutes the properties stated for it.

    Numbers.  A JavaScript number is an IEEE-754 binary64.  Two readings are
    used, each where it is the right tool:

    - [Q] (exact rationals) for everything that is proved for _all_ inputs.
      The arithmetic of the embedded functions is [+ - * /], comparisons,
      [Math.max], [Math.min], [Math.abs], [Math.round] and [%], all of which
      are exact on [Q]; NaN and the infinities are not values of the model
      (the one place the source stores [Infinity], a "best distance so far",
      is an [option]).  [Math.pow] with a fractional exponent is
      implementation-approximated in ECMAScript; the model truncates the
      exact power to [pow_scale] decimal places.
    - primitive floats (module [Binary64]) for the RGB <-> HSL pair, where
      the property of interest ranges over the 2^24 integer RGB triples and
      is decided by running the conversions bit for bit.

    The two readings differ where binary64 rounds: at exact ties of
    [Math.round] in the two conversions, and in [+], [-] and [*] on numbers
    that are not integers (the hue of [clampHSL], the polynomial of
    [bezierEasing]).  What is proved on [Q] is therefore a range, an order
    or a structural fact, which does not depend on such a difference, or it
    carries the hypothesis (integer components, few fractional digits) under
    which the binary64 arithmetic is exact.

    The CIEDE2000 distance is built from [Math.sqrt], [Math.atan2],
    [Math.sin], [Math.cos] and [Math.exp].  It is read on the real numbers
    (module [CIEDE2000]) for its algebraic laws, and on binary64 with the
    functions that ECMAScript leaves implementation-approximated as
    parameters (module [CIEDE2000_binary64]) for what underflow does to
    them. *)

From Stdlib Require Import ZArith QArith Qround Qabs Qpower Lqa Lia.
From Stdlib Require Import List Bool String Ascii.
From Stdlib Require Import Floats.
From Stdlib Require Import Sorted.
From Stdlib Require Reals Lra.
Import ListNotations.

Local Open Scope Q_scope.

(* ================================================================== *)
(** * JavaScript numbers and the [Math] builtins, on [Q] *)
(* ================================================================== *)

Module JS.

(** [a < b], [a <= b] and [a === b] on numbers. *)
Definition ltb (a b : Q) : bool :=
  match a ?= b with Lt => true | _ => false end.
Definition leb (a b : Q) : bool :=
  match a ?= b with Gt => false | _ => true end.
Definition eqb (a b : Q) : bool :=
  match a ?= b with Eq => true | _ => false end.

Definition Math_max (a b : Q) : Q := if ltb a b then b else a.
Definition Math_min (a b : Q) : Q := if ltb b a then b else a.
Definition Math_abs (a : Q) : Q := if ltb a 0 then - a else a.

(** [Math.round]: the nearest integer, ties towards +infinity. *)
Definition Math_round (x : Q) : Z := Qfloor (x + (1 # 2)).

(** [Math.floor]. *)
Definition Math_floor (x : Q) : Z := Qfloor x.

(** Truncation towards zero, and the remainder [a % n], which keeps the
    sign of the dividend. *)
Definition trunc (x : Q) : Z := if ltb x 0 then Qceiling x else Qfloor x.
Definition rem (a n : Q) : Q := a - n * inject_Z (trunc (a / n)).

(** Integer [q]-th root by bisection: the largest [r] in [lo, hi) with
    [r ^ q <= n], given [lo ^ q <= n < hi ^ q]. *)
Fixpoint iroot_bisect (fuel : nat) (q : positive) (n lo hi : Z) : Z :=
  match fuel with
  | O => lo
  | S fuel' =>
      if (hi - lo <=? 1)%Z then lo
      else
        let mid := ((lo + hi) / 2)%Z in
        if (mid ^ Zpos q <=? n)%Z
        then iroot_bisect fuel' q n mid hi
        else iroot_bisect fuel' q n lo mid
  end.

Definition iroot (q : positive) (n : Z) : Z :=
  if (n <=? 0)%Z then 0%Z
  else
    let bits := Z.log2_up (n + 1) in
    let hi := (2 ^ (bits / Zpos q + 1))%Z in
    iroot_bisect (S (Z.to_nat (Z.log2_up hi))) q n 0 hi.

(** Number of decimal places kept by [Math_pow] for a fractional exponent. *)
Definition pow_scale : Z := 10 ^ 12.

(** [Math.pow x y] for [y = p / q] in lowest terms.  An integer exponent
    is exact.  For a fractional exponent and [x > 0] the result is
    [floor (x ^ (p/q) * pow_scale) / pow_scale]; [x = 0] gives [0].  A
    negative base with a fractional exponent is NaN in JavaScript and is
    outside the model (the embedded code never does it). *)
Definition Math_pow (x y : Q) : Q :=
  let y' := Qred y in
  let p := Qnum y' in
  let q := Qden y' in
  match q with
  | 1%positive => Qpower x p
  | _ =>
      if leb x 0 then 0
      else
        let x' := Qred x in
        let xp := Qpower x' (Z.abs p) in
        let n := Qfloor (xp * inject_Z (pow_scale ^ Zpos q)) in
        let r := inject_Z (iroot q n) / inject_Z pow_scale in
        if (p <? 0)%Z then 1 / r else r
  end.

End JS.

Import JS.

Declare Scope js_scope.
Delimit Scope js_scope with js.
Infix "<?" := ltb (at level 70, no associativity) : js_scope.
Infix "<=?" := leb (at level 70, no associativity) : js_scope.
Infix "=?" := eqb (at level 70, no associativity) : js_scope.
Infix "%%" := rem (at level 40, left associativity) : js_scope.
Local Open Scope js_scope.

(** Colours as the source has them: three-element arrays.  HSL components
    are numbers; RGB channels are the integers produced by [Math.round]. *)
Definition HSL : Type := Q * Q * Q.
Definition RGB : Type := Z * Z * Z.

(* ================================================================== *)
(** * Colour utilities (color-utils) *)
(* ================================================================== *)

Module ColorUtils.

(** [rgbToHSL]. *)
Definition rgbToHSL (rgb : RGB) : HSL :=
  let '(r0, g0, b0) := rgb in
  let r := inject_Z r0 / 255 in
  let g := inject_Z g0 / 255 in
  let b := inject_Z b0 / 255 in
  let max := Math_max (Math_max r g) b in
  let min := Math_min (Math_min r g) b in
  let diff := max - min in
  let l := (max + min) / 2 in
  if diff =? 0 then
    (inject_Z (Math_round (0 * 360)),
     inject_Z (Math_round (0 * 100)),
     inject_Z (Math_round (l * 100)))
  else
    let s := if 0.5 <? l then diff / (2 - max - min) else diff / (max + min) in
    let h :=
      if max =? r then (g - b) / diff + (if g <? b then 6 else 0)
      else if max =? g then (b - r) / diff + 2
      else (r - g) / diff + 4 in
    let h := h / 6 in
    (inject_Z (Math_round (h * 360)),
     inject_Z (Math_round (s * 100)),
     inject_Z (Math_round (l * 100))).

(** The local helper [hue2rgb] of [hslToRgb]. *)
Definition hue2rgb (p q t : Q) : Q :=
  let t := if t <? 0 then t + 1 else t in
  let t := if 1 <? t then t - 1 else t in
  if t <? 1 / 6 then p + (q - p) * 6 * t
  else if t <? 1 / 2 then q
  else if t <? 2 / 3 then p + (q - p) * (2 / 3 - t) * 6
  else p.

(** [hslToRgb]. *)
Definition hslToRgb (hsl : HSL) : RGB :=
  let '(h0, s0, l0) := hsl in
  let h := h0 / 360 in
  let s := s0 / 100 in
  let l := l0 / 100 in
  if s =? 0 then
    let gray := Math_round (l * 255) in (gray, gray, gray)
  else
    let q := if l <? 0.5 then l * (1 + s) else l + s - l * s in
    let p := 2 * l - q in
    let r := hue2rgb p q (h + 1 / 3) in
    let g := hue2rgb p q h in
    let b := hue2rgb p q (h - 1 / 3) in
    (Math_round (r * 255), Math_round (g * 255), Math_round (b * 255)).

(** [n.toString(16)] for [0 <= n <= 255], padded to two digits. *)
Definition hexDigit (d : Z) : ascii :=
  nth (Z.to_nat d)
      ["0"; "1"; "2"; "3"; "4"; "5"; "6"; "7";
       "8"; "9"; "a"; "b"; "c"; "d"; "e"; "f"]%char "0"%char.

Definition toHex (n : Z) : string :=
  let c := Z.max 0 (Z.min 255 n) in
  String (hexDigit (c / 16)) (String (hexDigit (c mod 16)) EmptyString).

(** [rgbToHex] and [hslToHex]. *)
Definition rgbToHex (rgb : RGB) : string :=
  let '(r, g, b) := rgb in
  ("#" ++ toHex r ++ toHex g ++ toHex b)%string.

Definition hslToHex (hsl : HSL) : string := rgbToHex (hslToRgb hsl).

(** [calculateLuminance]. *)
Definition linearize (v : Z) : Q :=
  let val := inject_Z v / 255 in
  if val <=? 0.03928 then val / 12.92
  else Math_pow ((val + 0.055) / 1.055) 2.4.

Definition calculateLuminance (rgb : RGB) : Q :=
  let '(r0, g0, b0) := rgb in
  let r := linearize r0 in
  let g := linearize g0 in
  let b := linearize b0 in
  0.2126 * r + 0.7152 * g + 0.0722 * b.

(** [isNeutralColor], as updated ("Updated threshold from 10% to 15%"). *)
Definition isNeutralColor (hsl : HSL) : bool :=
  let '(_, s, _) := hsl in s <? 15.

(** [clampHSL]. *)
Definition clampHSL (hsl : HSL) : HSL :=
  let '(h, s, l) := hsl in
  (((h %% 360) + 360) %% 360,
   Math_max 0 (Math_min 100 s),
   Math_max 0 (Math_min 100 l)).

End ColorUtils.

(** The earlier copy of the utilities (js/color-utils.js) still carries the
    10% neutrality threshold; it has no LAB/LCH conversions, which
    js/scale-generator.js calls, so the updated module above is the one the
    generator runs against. *)
Module ColorUtilsLegacy.

Definition isNeutralColor (hsl : HSL) : bool :=
  let '(_, s, _) := hsl in s <? 10.

End ColorUtilsLegacy.

Import ColorUtils.

(** Exceptions: a function that may [throw] returns a [result]. *)
Inductive result (A : Type) : Type :=
| Ok (a : A)
| Throw (message : string).
Arguments Ok {A} a.
Arguments Throw {A} message.

(** Stable insertion sort by a numeric key: [xs.sort((a, b) => key(a) - key(b))]
    ([Array.prototype.sort] is stable). *)
Section SortBy.
Context {A : Type} (key : A -> Q).

Fixpoint insert_by (x : A) (xs : list A) : list A :=
  match xs with
  | [] => [x]
  | y :: ys => if key x <? key y then x :: y :: ys else y :: insert_by x ys
  end.

Definition sort_by (xs : list A) : list A :=
  fold_left (fun acc x => insert_by x acc) xs [].
End SortBy.

(* ================================================================== *)
(** * Contrast (accessibility.js, first part) *)
(* ================================================================== *)

Module Contrast.

(** [getContrastRatio]. *)
Definition getContrastRatio (rgb1 rgb2 : RGB) : Q :=
  let l1 := calculateLuminance rgb1 in
  let l2 := calculateLuminance rgb2 in
  let lighter := Math_max l1 l2 in
  let darker := Math_min l1 l2 in
  inject_Z (Math_round (((lighter + 0.05) / (darker + 0.05)) * 100)) / 100.

Record ContrastSide : Type := mkSide {
  ratio : Q;
  passesNormal : bool;
  passesLarge : bool;
  passesAAA : bool
}.

Record ContrastInfo : Type := mkInfo {
  black : ContrastSide;
  white : ContrastSide;
  preferredText : string
}.

Definition blackRgb : RGB := (0, 0, 0)%Z.
Definition whiteRgb : RGB := (255, 255, 255)%Z.

(** [getContrastInfo]. *)
Definition getContrastInfo (rgb : RGB) : ContrastInfo :=
  let blackRatio := getContrastRatio rgb blackRgb in
  let whiteRatio := getContrastRatio rgb whiteRgb in
  {| black := {| ratio := blackRatio;
                 passesNormal := 4.5 <=? blackRatio;
                 passesLarge := 3.0 <=? blackRatio;
                 passesAAA := 7.0 <=? blackRatio |};
     white := {| ratio := whiteRatio;
                 passesNormal := 4.5 <=? whiteRatio;
                 passesLarge := 3.0 <=? whiteRatio;
                 passesAAA := 7.0 <=? whiteRatio |};
     preferredText :=
       if whiteRatio <? blackRatio then "#000000" else "#ffffff" |}.

End Contrast.

Import Contrast.

(* ================================================================== *)
(** * Scale generation (js/scale-generator.js) *)
(* ================================================================== *)

(** One level of a scale: the object literal built by [createColorScale]. *)
Record ColorObject : Type := mkColor {
  level : Z;
  hsl : HSL;
  rgb : RGB;
  hex : string;
  blackPassesNormal : bool;
  blackPassesLarge : bool;
  blackRatio : Q;
  whitePassesNormal : bool;
  whitePassesLarge : bool;
  whiteRatio : Q;
  preferredTextColor : string;
  name : string;
  isBase : bool
}.

Module ScaleGenerator.

Record ScaleConfiguration : Type := mkConfig {
  config_name : string;
  levels : list Z;
  description : string
}.

(** [SCALE_CONFIGURATIONS]: the registry, keyed by configuration name. *)
Definition SCALE_CONFIGURATIONS : list (string * ScaleConfiguration) :=
  [ ("triad",
     {| config_name := "Triad (3 levels)";
        levels := [300; 400; 600]%Z;
        description := "Light, base, and dark" |});
    ("pentatonic",
     {| config_name := "Pentatonic (5 levels)";
        levels := [200; 300; 400; 500; 600]%Z;
        description := "Well-balanced range for most projects" |});
    ("diatonic",
     {| config_name := "Diatonic (7 levels)";
        levels := [100; 200; 300; 400; 500; 600; 700]%Z;
        description := "Complete musical scale range" |});
    ("chromatic",
     {| config_name := "Chromatic (9 levels)";
        levels := [50; 100; 200; 300; 400; 500; 600; 700; 800]%Z;
        description := "Full chromatic range for complex design systems" |}) ]%string.

(** [SCALE_CONFIGURATIONS[configuration]]. *)
Fixpoint lookup_configuration (table : list (string * ScaleConfiguration))
         (configuration : string) : option ScaleConfiguration :=
  match table with
  | [] => None
  | (k, c) :: rest =>
      if String.eqb k configuration then Some c
      else lookup_configuration rest configuration
  end.

(** [getBaseLevelForConfiguration]; [None] is [undefined] (an empty list). *)
Definition getBaseLevelForConfiguration (levels : list Z) : option Z :=
  if existsb (Z.eqb 400) levels then Some 400%Z
  else
    let sortedLevels := sort_by inject_Z levels in
    let middleIndex := Nat.div (List.length sortedLevels) 2 in
    nth_error sortedLevels middleIndex.

Record Boundaries : Type := mkBoundaries {
  lightestL : Q;
  lightestS : Q;
  darkestL : Q;
  darkestS : Q;
  lightHueShift : Q;
  darkHueShift : Q
}.

(** [calculateDynamicBoundaries]. *)
Definition calculateDynamicBoundaries (hsl400 : HSL) : Boundaries :=
  let '(baseH, baseS, baseL) := hsl400 in
  let lightestL := Math_min 94 (baseL + 44) in
  let lightestS := Math_max 0 (baseS - 1) in
  let darkestL := Math_max 24 (baseL - 26) in
  let darkestS := Math_min 100 (baseS + 28) in
  let '(lightestL, darkestL) :=
    if 80 <? baseL then (Math_min 96 (baseL + 16), Math_max 20 (baseL - 35))
    else if baseL <? 30 then (Math_min 92 (baseL + 55), Math_max 15 (baseL - 15))
    else (lightestL, darkestL) in
  let '(lightestS, darkestS) :=
    if 80 <? baseS then (Math_max 0 (baseS - 15), Math_min 100 (baseS + 10))
    else if baseS <? 30 then (Math_max 0 (baseS - 5), Math_min 100 (baseS + 35))
    else (lightestS, darkestS) in
  {| lightestL := lightestL; lightestS := lightestS;
     darkestL := darkestL; darkestS := darkestS;
     lightHueShift := 0; darkHueShift := 0 |}.

Record Adjustments : Type := mkAdjustments {
  lightnessAdjustment : Q;
  saturationAdjustment : Q
}.

(** [getLevelAdjustments]. *)
Definition getLevelAdjustments (level : Z) : Adjustments :=
  match level with
  | 50%Z => {| lightnessAdjustment := 2; saturationAdjustment := 0 |}
  | 100%Z => {| lightnessAdjustment := 1; saturationAdjustment := 0 |}
  | 200%Z => {| lightnessAdjustment := 0; saturationAdjustment := -1 |}
  | 600%Z => {| lightnessAdjustment := 0; saturationAdjustment := 2 |}
  | 700%Z => {| lightnessAdjustment := 0; saturationAdjustment := 3 |}
  | 800%Z => {| lightnessAdjustment := -2; saturationAdjustment := 5 |}
  | _ => {| lightnessAdjustment := 0; saturationAdjustment := 0 |}
  end.

(** [calculateNeutralHSL]. *)
Definition calculateNeutralHSL (hsl400 : HSL) (level : Z) : HSL :=
  let '(baseH, baseS, baseL) := hsl400 in
  let lightestL := 95 in
  let darkestL := 28 in
  let targetL :=
    if (level <? 400)%Z then
      let factor := inject_Z (400 - level) / 350 in
      baseL + (lightestL - baseL) * factor
    else
      let factor := inject_Z (level - 400) / 400 in
      baseL - (baseL - darkestL) * factor in
  let targetL := Math_max darkestL (Math_min lightestL targetL) in
  let targetS :=
    if ((level <=? 100) || (700 <=? level))%Z then Math_max 0 (baseS - 2)
    else baseS in
  (baseH, targetS, inject_Z (Math_round targetL)).

(** [calculateNonNeutralHSL]. *)
Definition calculateNonNeutralHSL (hsl400 : HSL) (level : Z) : HSL :=
  let '(baseH, baseS, baseL) := hsl400 in
  let boundaries := calculateDynamicBoundaries hsl400 in
  let '(targetH, targetS, targetL) :=
    if (level <? 400)%Z then
      let factor := inject_Z (400 - level) / 350 in
      let targetL := baseL + (lightestL boundaries - baseL) * factor in
      let targetS := baseS + (lightestS boundaries - baseS) * factor in
      let targetH :=
        if (level <=? 100)%Z
        then (baseH + lightHueShift boundaries) %% 360 else baseH in
      (targetH, targetS, targetL)
    else
      let factor := inject_Z (level - 400) / 400 in
      let targetL := baseL + (darkestL boundaries - baseL) * factor in
      let targetS := baseS + (darkestS boundaries - baseS) * factor in
      let targetH :=
        if (700 <=? level)%Z
        then (baseH + darkHueShift boundaries) %% 360 else baseH in
      (targetH, targetS, targetL) in
  let adjustments := getLevelAdjustments level in
  let targetL := targetL + lightnessAdjustment adjustments in
  let targetS := targetS + saturationAdjustment adjustments in
  clampHSL (targetH, targetS, targetL).

(** [calculateHSL]. *)
Definition calculateHSL (hsl400 : HSL) (level : Z) : HSL :=
  if (level =? 400)%Z then hsl400
  else if isNeutralColor hsl400 then calculateNeutralHSL hsl400 level
  else calculateNonNeutralHSL hsl400 level.

(** The body of the [levels.forEach] callback of [createColorScale]. *)
Definition colorObjectFor (clampedBaseHSL : HSL) (baseLevelForConfig : option Z)
           (level : Z) : ColorObject :=
  let isBaseLevel :=
    match baseLevelForConfig with
    | Some b => (level =? b)%Z
    | None => false
    end in
  let hsl := if isBaseLevel then clampedBaseHSL
             else calculateHSL clampedBaseHSL level in
  let rgb := hslToRgb hsl in
  let hex := hslToHex hsl in
  let contrastInfo := getContrastInfo rgb in
  {| level := level;
     hsl := hsl;
     rgb := rgb;
     hex := hex;
     blackPassesNormal := passesNormal (black contrastInfo);
     blackPassesLarge := passesLarge (black contrastInfo);
     blackRatio := ratio (black contrastInfo);
     whitePassesNormal := passesNormal (white contrastInfo);
     whitePassesLarge := passesLarge (white contrastInfo);
     whiteRatio := ratio (white contrastInfo);
     preferredTextColor := preferredText contrastInfo;
     name := "";
     isBase := isBaseLevel |}.

(** [createColorScale]. *)
Definition createColorScale (baseHSL : HSL) (configuration : string)
  : result (list ColorObject) :=
  match lookup_configuration SCALE_CONFIGURATIONS configuration with
  | None => Throw ("Unknown scale configuration: " ++ configuration)
  | Some config =>
      let levels := levels config in
      let clampedBaseHSL := clampHSL baseHSL in
      let baseLevelForConfig := getBaseLevelForConfiguration levels in
      Ok (map (colorObjectFor clampedBaseHSL baseLevelForConfig) levels)
  end.

End ScaleGenerator.

Import ScaleGenerator.

(** Counted loops.  [for_up start limit step] lists the successive values of
    [i] in [for (let i = start; i <= limit; i += step)], and [for_down] those
    of [for (let i = start; i >= limit; i -= step)], for a positive [step]
    (with a non-positive [step] the JavaScript loop either does not run or
    does not terminate; the model lists no value).  The fuel is the exact
    iteration count, see [for_up_last]. *)
Fixpoint for_up_fuel (fuel : nat) (i limit step : Q) : list Q :=
  match fuel with
  | O => []
  | S fuel' =>
      if i <=? limit then i :: for_up_fuel fuel' (i + step) limit step else []
  end.

Definition for_up (start limit step : Q) : list Q :=
  if 0 <? step
  then for_up_fuel (Z.to_nat (Qfloor ((limit - start) / step) + 1)) start limit step
  else [].

Definition for_down (start limit step : Q) : list Q :=
  map Qopp (for_up (- start) (- limit) step).

(** [[...new Set(range)]]: drop repeated numbers, keeping first occurrences. *)
Fixpoint dedupe_fuel (fuel : nat) (xs : list Q) : list Q :=
  match fuel, xs with
  | S fuel', x :: rest =>
      x :: dedupe_fuel fuel' (filter (fun y => negb (y =? x)) rest)
  | _, _ => []
  end.
Definition dedupe (xs : list Q) : list Q := dedupe_fuel (List.length xs) xs.

(** [range.includes(x)]. *)
Definition includes (xs : list Q) (x : Q) : bool := existsb (fun y => y =? x) xs.

(* ================================================================== *)
(** * Accessible-colour search (js/accessibility.js) *)
(* ================================================================== *)

Module Accessibility.

(** The options object of [findAccessibleColor], with its defaults. *)
Record Options : Type := mkOptions {
  targetRatio : Q;
  maxIterations : Q;
  preserveHue : bool;
  allowSaturationChange : bool;
  textColor : string;
  huePreservationWeight : Q
}.

Definition defaultOptions : Options :=
  {| targetRatio := 4.5;
     maxIterations := 150;
     preserveHue := true;
     allowSaturationChange := true;
     textColor := "both";
     huePreservationWeight := 0.8 |}.

(** [calculateAccessibilityScore]. *)
Definition calculateAccessibilityScore (hsl : HSL) (textColor : string) : Q :=
  let rgb := hslToRgb hsl in
  if String.eqb textColor "black" then getContrastRatio rgb blackRgb
  else if String.eqb textColor "white" then getContrastRatio rgb whiteRgb
  else
    let blackRatio := getContrastRatio rgb blackRgb in
    let whiteRatio := getContrastRatio rgb whiteRgb in
    Math_max blackRatio whiteRatio.

(** [calculateColorDistance] (the accessibility.js definition). *)
Definition calculateColorDistance (hsl1 hsl2 : HSL) : Q :=
  let '(h1, s1, l1) := hsl1 in
  let '(h2, s2, l2) := hsl2 in
  let hueDiff := Math_abs (h1 - h2) in
  let hueDiff := if 180 <? hueDiff then 360 - hueDiff else hueDiff in
  let hueWeight := 0.6 in
  let satWeight := 0.25 in
  let lightWeight := 0.15 in
  (hueDiff / 180) * hueWeight * 100 +
  (Math_abs (s1 - s2) / 100) * satWeight * 100 +
  (Math_abs (l1 - l2) / 100) * lightWeight * 100.

(** [calculateEnhancedColorDistance]. *)
Definition calculateEnhancedColorDistance (hsl1 hsl2 : HSL)
           (huePreservationWeight : Q) : Q :=
  let '(h1, s1, l1) := hsl1 in
  let '(h2, s2, l2) := hsl2 in
  let hueDiff := Math_abs (h1 - h2) in
  let hueDiff := if 180 <? hueDiff then 360 - hueDiff else hueDiff in
  let hueWeight := 0.4 + huePreservationWeight * 0.4 in
  let satWeight := 0.3 - huePreservationWeight * 0.1 in
  let lightWeight := 0.3 - huePreservationWeight * 0.1 in
  let hueDistancePenalty :=
    if 0.5 <? huePreservationWeight
    then Math_pow (hueDiff / 180) 1.5 else hueDiff / 180 in
  hueDistancePenalty * hueWeight * 100 +
  (Math_abs (s1 - s2) / 100) * satWeight * 100 +
  (Math_abs (l1 - l2) / 100) * lightWeight * 100.

(** [generateHueRange]. *)
Definition generateHueRange (centerHue tolerance : Q) : list Q :=
  if tolerance =? 0 then [centerHue]
  else
    let step := Math_min 15 (tolerance / 3) in
    centerHue ::
    flat_map (fun i => [(centerHue + i) %% 360; (centerHue - i + 360) %% 360])
             (for_up step tolerance step).

(** [generateSmartSaturationRange]. *)
Definition generateSmartSaturationRange (originalS originalL : Q) : list Q :=
  let range := [originalS] in
  let range :=
    if (80 <? originalL) || (originalL <? 20) then
      range ++ flat_map (fun step =>
                           if 0 <=? originalS - step then [originalS - step] else [])
                        [10; 20; 30]
    else range in
  let range :=
    if originalS <? 70 then
      range ++ flat_map (fun step =>
                           if originalS + step <=? 100 then [originalS + step] else [])
                        [15; 30]
    else range in
  let range :=
    if 20 <? originalS then range ++ [Math_max 0 (originalS - 40)] else range in
  let range :=
    if originalS <? 80 then range ++ [Math_min 100 (originalS + 40)] else range in
  sort_by (fun a => Math_abs (a - originalS)) (dedupe range).

(** [generateSmartLightnessRange]. *)
Definition generateSmartLightnessRange (originalL targetRatio : Q) : list Q :=
  let range := [originalL] in
  let darkTarget := if 7.0 <=? targetRatio then 25 else 35 in
  let lightTarget := if 7.0 <=? targetRatio then 75 else 65 in
  let darker := for_down (originalL - 10) darkTarget 10 in
  let lighter := for_up (originalL + 10) lightTarget 10 in
  let range :=
    if 50 <? originalL then range ++ darker ++ lighter
    else range ++ lighter ++ darker in
  let range := range ++ [5; 15; 25; 75; 85; 95] in
  sort_by (fun a => Math_abs (a - originalL)) (dedupe range).

(** [generateSearchRange] (the accessibility.js definition). *)
Definition generateSearchRange (center min max step : Q) : list Q :=
  let range :=
    center ::
    flat_map (fun i =>
                (if min <=? center - i then [center - i] else []) ++
                (if center + i <=? max then [center + i] else []))
             (for_up step (Math_max (center - min) (max - center)) step) in
  let range := if includes range min then range else range ++ [min] in
  let range := if includes range max then range else range ++ [max] in
  sort_by (fun a => Math_abs (a - center)) range.

(** A distance that may still be [Infinity] ([None]). *)
Definition dist_ltb (d : Q) (best : option Q) : bool :=
  match best with
  | None => true
  | Some b => d <? b
  end.

(** [evaluateColorCandidate]; the three colour arguments and the weight
    are not read by the source either. *)
Definition evaluateColorCandidate (candidate current original : HSL)
           (candidateScore currentScore candidateDistance : Q)
           (currentDistance : option Q)
           (targetRatio huePreservationWeight : Q) : bool :=
  let candidateAccessible := targetRatio <=? candidateScore in
  let currentAccessible := targetRatio <=? currentScore in
  if candidateAccessible && negb currentAccessible then true
  else if currentAccessible && negb candidateAccessible then false
  else if candidateAccessible && currentAccessible then
    let candidateWeightedScore := candidateDistance + (1 / candidateScore) * 10 in
    dist_ltb candidateWeightedScore
             (option_map (fun d => d + (1 / currentScore) * 10) currentDistance)
  else
    if Math_abs (candidateScore - currentScore) <? 0.1
    then dist_ltb candidateDistance currentDistance
    else currentScore <? candidateScore.

(** [generateHuePreservingFallbacks]. *)
Definition generateHuePreservingFallbacks (originalH originalS : Q) : list HSL :=
  [ (originalH, Math_max 0 (originalS - 20), 25);
    (originalH, Math_max 0 (originalS - 20), 75);
    (originalH, Math_min 100 (originalS + 20), 35);
    (originalH, Math_min 100 (originalS + 20), 65);
    (originalH, 60, 30);
    (originalH, 60, 70);
    ((originalH + 15) %% 360, Math_max 20 (originalS - 10), 40);
    ((originalH - 15 + 360) %% 360, Math_max 20 (originalS - 10), 60) ].

(** [getHueFamily]. *)
Definition getHueFamily (hue : Q) : string :=
  if (0 <=? hue) && (hue <? 30) then "red"
  else if (30 <=? hue) && (hue <? 60) then "orange"
  else if (60 <=? hue) && (hue <? 90) then "yellow"
  else if (90 <=? hue) && (hue <? 150) then "green"
  else if (150 <=? hue) && (hue <? 210) then "cyan"
  else if (210 <=? hue) && (hue <? 270) then "blue"
  else if (270 <=? hue) && (hue <? 330) then "purple"
  else "red".

(** [getAccessibleColorForHueFamily]. *)
Definition accessibleColors : list (string * HSL) :=
  [ ("red", (0, 60, 45));
    ("orange", (30, 70, 40));
    ("yellow", (50, 80, 35));
    ("green", (120, 60, 35));
    ("cyan", (180, 60, 40));
    ("blue", (210, 65, 45));
    ("purple", (270, 60, 40)) ]%string.

Fixpoint lookup_family (table : list (string * HSL)) (k : string) : option HSL :=
  match table with
  | [] => None
  | (k', v) :: rest => if String.eqb k' k then Some v else lookup_family rest k
  end.

Definition getAccessibleColorForHueFamily (hueFamily : string) : HSL :=
  match lookup_family accessibleColors hueFamily with
  | Some c => c
  | None => (210, 60, 45)
  end.

(** The mutable locals of [findAccessibleColor]. *)
Record SearchState : Type := mkState {
  bestColor : HSL;
  bestScore : Q;
  bestDistance : option Q;
  iterations : Q;
  foundAccessible : bool
}.

Record Stage : Type := mkStage {
  hueRange : list Q;
  saturationRange : list Q;
  lightnessRange : list Q;
  priority : string
}.

(** [foundAccessible && bestDistance < 20]. *)
Definition closeMatch (st : SearchState) : bool :=
  foundAccessible st &&
  match bestDistance st with Some d => d <? 20 | None => false end.

Section Search.
Variable originalHSL : HSL.
Variable options : Options.

(** The innermost loop, over saturations; it stops at either [break]. *)
Fixpoint saturationLoop (h l : Q) (ss : list Q) (st : SearchState)
  : SearchState :=
  match ss with
  | [] => st
  | s :: rest =>
      let before := iterations st in
      let st := {| bestColor := bestColor st; bestScore := bestScore st;
                   bestDistance := bestDistance st;
                   iterations := before + 1;
                   foundAccessible := foundAccessible st |} in
      if maxIterations options <? before then st
      else
        let candidateHSL := (h, s, l) in
        let score := calculateAccessibilityScore candidateHSL (textColor options) in
        let distance :=
          calculateEnhancedColorDistance originalHSL candidateHSL
                                         (huePreservationWeight options) in
        let isAccessible := targetRatio options <=? score in
        let isBetter :=
          evaluateColorCandidate candidateHSL (bestColor st) originalHSL
                                 score (bestScore st) distance (bestDistance st)
                                 (targetRatio options)
                                 (huePreservationWeight options) in
        if isBetter then
          let st' := {| bestColor := candidateHSL; bestScore := score;
                        bestDistance := Some distance;
                        iterations := iterations st;
                        foundAccessible :=
                          if isAccessible then true else foundAccessible st |} in
          if isAccessible && (distance <? 20) then st'
          else saturationLoop h l rest st'
        else saturationLoop h l rest st
  end.

Fixpoint lightnessLoop (h : Q) (ss ls : list Q) (st : SearchState)
  : SearchState :=
  match ls with
  | [] => st
  | l :: rest =>
      let st' := saturationLoop h l ss st in
      if closeMatch st' then st' else lightnessLoop h ss rest st'
  end.

Fixpoint hueLoop (ss ls hs : list Q) (st : SearchState) : SearchState :=
  match hs with
  | [] => st
  | h :: rest =>
      let st' := lightnessLoop h ss ls st in
      if closeMatch st' then st' else hueLoop ss ls rest st'
  end.

Fixpoint stageLoop (stages : list Stage) (st : SearchState) : SearchState :=
  match stages with
  | [] => st
  | stage :: rest =>
      if foundAccessible st then st
      else stageLoop rest
             (hueLoop (saturationRange stage) (lightnessRange stage)
                      (hueRange stage) st)
  end.

(** The loop over the hue-preserving fallbacks. *)
Fixpoint fallbackLoop (fallbacks : list HSL) (st : SearchState) : SearchState :=
  match fallbacks with
  | [] => st
  | fallback :: rest =>
      let score := calculateAccessibilityScore fallback (textColor options) in
      let distance :=
        calculateEnhancedColorDistance originalHSL fallback
                                       (huePreservationWeight options) in
      if (targetRatio options <=? score) && dist_ltb distance (bestDistance st)
      then {| bestColor := fallback; bestScore := score;
              bestDistance := Some distance;
              iterations := iterations st;
              foundAccessible := true |}
      else fallbackLoop rest st
  end.

Definition searchStages : list Stage :=
  let '(originalH, originalS, originalL) := originalHSL in
  [ {| hueRange := if preserveHue options then [originalH]
                   else generateHueRange originalH 15;
       saturationRange :=
         if allowSaturationChange options
         then generateSmartSaturationRange originalS originalL
         else [originalS];
       lightnessRange :=
         generateSmartLightnessRange originalL (targetRatio options);
       priority := "accessibility" |};
    {| hueRange := if preserveHue options then generateHueRange originalH 30
                   else generateHueRange originalH 45;
       saturationRange :=
         if allowSaturationChange options
         then generateSearchRange originalS 0 100 15
         else [originalS];
       lightnessRange := generateSearchRange originalL 0 100 5;
       priority := "balanced" |};
    {| hueRange := if preserveHue options then generateHueRange originalH 60
                   else generateSearchRange originalH 0 360 30;
       saturationRange :=
         if allowSaturationChange options
         then generateSearchRange originalS 0 100 20
         else [originalS];
       lightnessRange := generateSearchRange originalL 0 100 10;
       priority := "accessibility" |} ].

Definition initialState : SearchState :=
  {| bestColor := originalHSL;
     bestScore := calculateAccessibilityScore originalHSL (textColor options);
     bestDistance := None;
     iterations := 0;
     foundAccessible := false |}.

(** The state after the staged search. *)
Definition afterStages : SearchState := stageLoop searchStages initialState.

(** The state after the hue-preserving fallbacks, tried only when the
    staged search left [bestScore < targetRatio]. *)
Definition afterFallbacks : SearchState :=
  let st := afterStages in
  if bestScore st <? targetRatio options then
    let '(originalH, originalS, _) := originalHSL in
    fallbackLoop (generateHuePreservingFallbacks originalH originalS) st
  else st.

(** [findAccessibleColor]. *)
Definition findAccessibleColor : HSL :=
  if targetRatio options <=? bestScore initialState then originalHSL
  else
    let st := afterFallbacks in
    let bestColor :=
      if bestScore st <? targetRatio options then
        let '(originalH, _, _) := originalHSL in
        getAccessibleColorForHueFamily (getHueFamily originalH)
      else bestColor st in
    clampHSL bestColor.
End Search.

End Accessibility.

(* ================================================================== *)
(** * Dark-mode scale (js/dark-mode-generator.js) *)
(* ================================================================== *)

(** The object literal built by [generateDarkModeScale]: a colour object
    with the source level of the mirror and the dark-mode flag. *)
Record DarkColorObject : Type := mkDark {
  color : ColorObject;
  originalLevel : option Z;
  isDarkMode : bool
}.

Module DarkModeGenerator.

Record Options : Type := mkOptions {
  useAccessibleBase : bool;
  accessibleBaseHSL : option HSL;
  saturationBoost : Q;
  contrastAdjustment : Q
}.

Definition defaultOptions : Options :=
  {| useAccessibleBase := false;
     accessibleBaseHSL := None;
     saturationBoost := 5;
     contrastAdjustment := 0.1 |}.

(** A level-to-level object, kept in ascending key order (the order in
    which JavaScript enumerates integer keys). *)
Definition LevelMapping : Type := list (Z * Z).

(** [mapping[key] = value]. *)
Fixpoint mapping_set (mapping : LevelMapping) (key value : Z) : LevelMapping :=
  match mapping with
  | [] => [(key, value)]
  | (k, v) :: rest =>
      if (key =? k)%Z then (k, value) :: rest
      else if (key <? k)%Z then (key, value) :: (k, v) :: rest
      else (k, v) :: mapping_set rest key value
  end.

(** [mapping[key]]; [None] is [undefined]. *)
Fixpoint mapping_get (mapping : LevelMapping) (key : Z) : option Z :=
  match mapping with
  | [] => None
  | (k, v) :: rest => if (key =? k)%Z then Some v else mapping_get rest key
  end.

(** [levels.indexOf(x)]; [None] is [-1]. *)
Fixpoint indexOf (levels : list Z) (x : Z) : option nat :=
  match levels with
  | [] => None
  | y :: rest =>
      if (y =? x)%Z then Some O
      else option_map S (indexOf rest x)
  end.

(** [levels.forEach((level, index) => ...)] over an accumulator. *)
Fixpoint forEach_indexed {A : Type} (f : A -> Z -> nat -> A)
         (levels : list Z) (index : nat) (acc : A) : A :=
  match levels with
  | [] => acc
  | level :: rest => forEach_indexed f rest (S index) (f acc level index)
  end.

(** [createDarkModeLevelMapping]. *)
Definition createDarkModeLevelMapping (lightModeScale : list ColorObject)
  : LevelMapping :=
  let levels := sort_by inject_Z (map level lightModeScale) in
  let len := List.length levels in
  match indexOf levels 400%Z with
  | None =>
      forEach_indexed
        (fun mapping level index =>
           let reversedIndex := (len - 1 - index)%nat in
           mapping_set mapping level (nth reversedIndex levels 0%Z))
        levels O []
  | Some centerIndex =>
      forEach_indexed
        (fun mapping level index =>
           if (level =? 400)%Z then mapping_set mapping level 400%Z
           else if (index <? centerIndex)%nat then
             let distanceFromCenter := (centerIndex - index)%nat in
             let targetIndex :=
               Nat.min (len - 1) (centerIndex + distanceFromCenter) in
             mapping_set mapping level (nth targetIndex levels 0%Z)
           else
             let distanceFromCenter := (index - centerIndex)%nat in
             let targetIndex := (centerIndex - distanceFromCenter)%nat in
             mapping_set mapping level (nth targetIndex levels 0%Z))
        levels O []
  end.

(** [applyDarkModeAdjustments]. *)
Definition applyDarkModeAdjustments (hsl : HSL) (level : Z)
           (saturationBoost contrastAdjustment : Q) : HSL :=
  let '(h, s, l) := hsl in
  let s := if negb (isNeutralColor hsl)
           then Math_min 100 (s + saturationBoost) else s in
  let l := if (level <? 400)%Z then Math_max l 65
           else if (400 <? level)%Z then Math_min l 35
           else l in
  let contrastFactor := 1 + contrastAdjustment in
  let l := if 50 <? l then Math_min 100 (l * contrastFactor)
           else Math_max 0 (l / contrastFactor) in
  clampHSL (h, s, l).

(** [applyLevelSpecificDarkModeAdjustments]. *)
Definition applyLevelSpecificDarkModeAdjustments (hsl : HSL)
           (targetLevel originalLevel : Z) : HSL :=
  let '(h, s, l) := hsl in
  let '(s, l) :=
    if ((originalLevel <=? 200) && (600 <=? targetLevel))%Z
    then (Math_min 100 (s + 8), Math_min l 30)
    else if ((600 <=? originalLevel) && (targetLevel <=? 200))%Z
    then (Math_max 0 (s - 3), Math_max l 70)
    else (s, l) in
  let '(s, l) :=
    if (targetLevel =? 50)%Z then (s, Math_max l 85)
    else if (targetLevel =? 800)%Z then (Math_min 100 (s + 10), Math_min l 25)
    else (s, l) in
  clampHSL (h, s, l).

(** [calculateDarkModeHSL]. *)
Definition calculateDarkModeHSL (baseHSL : HSL) (targetLevel originalLevel : Z)
  : HSL :=
  let darkHSL := calculateHSL baseHSL targetLevel in
  applyLevelSpecificDarkModeAdjustments darkHSL targetLevel originalLevel.

(** What stands for the all-NaN triple the source would compute from an
    [undefined] target level.  It is never produced: the mapping is built
    from the very scale it is read with, so every level has an entry
    ([mapping_get_defined]). *)
Definition undefinedLevelHSL : HSL := (0, 0, 0).

(** The callback of [lightModeScale.map] in [generateDarkModeScale]. *)
Definition darkColorFor (lightModeScale : list ColorObject)
           (darkModeBaseHSL : HSL) (levelMapping : LevelMapping)
           (options : Options) (lightColor : ColorObject) : DarkColorObject :=
  let targetLevel := mapping_get levelMapping (level lightColor) in
  let darkHSL :=
    if (level lightColor =? 400)%Z then darkModeBaseHSL
    else
      match targetLevel with
      | Some target =>
          match find (fun c => (level c =? target)%Z) lightModeScale with
          | Some targetLightColor => hsl targetLightColor
          | None => calculateDarkModeHSL darkModeBaseHSL target (level lightColor)
          end
      | None => undefinedLevelHSL
      end in
  let darkHSL :=
    if negb (level lightColor =? 400)%Z
    then applyDarkModeAdjustments darkHSL (level lightColor)
                                  (saturationBoost options)
                                  (contrastAdjustment options)
    else darkHSL in
  let rgb := hslToRgb darkHSL in
  let hex := hslToHex darkHSL in
  let contrastInfo := getContrastInfo rgb in
  {| color :=
       {| level := level lightColor;
          hsl := darkHSL;
          rgb := rgb;
          hex := hex;
          blackPassesNormal := passesNormal (black contrastInfo);
          blackPassesLarge := passesLarge (black contrastInfo);
          blackRatio := ratio (black contrastInfo);
          whitePassesNormal := passesNormal (white contrastInfo);
          whitePassesLarge := passesLarge (white contrastInfo);
          whiteRatio := ratio (white contrastInfo);
          preferredTextColor := preferredText contrastInfo;
          name := name lightColor;
          isBase := (level lightColor =? 400)%Z |};
     originalLevel := targetLevel;
     isDarkMode := true |}.

(** [generateDarkModeScale]. *)
Definition generateDarkModeScale (lightModeScale : list ColorObject)
           (baseHSL : HSL) (options : Options) : list DarkColorObject :=
  let darkModeBaseHSL :=
    match accessibleBaseHSL options with
    | Some accessible => if useAccessibleBase options then accessible else baseHSL
    | None => baseHSL
    end in
  let levelMapping := createDarkModeLevelMapping lightModeScale in
  map (darkColorFor lightModeScale darkModeBaseHSL levelMapping options)
      lightModeScale.

End DarkModeGenerator.

(* ================================================================== *)
(** * Mode-aware search (js/ui-controller.js) *)
(* ================================================================== *)

Module UIController.

(** The four pass flags [isColorAccessibleByMode] reads. *)
Record ColorData : Type := mkData {
  cd_blackPassesNormal : bool;
  cd_blackPassesLarge : bool;
  cd_whitePassesNormal : bool;
  cd_whitePassesLarge : bool
}.

(** [isColorAccessibleByMode]. *)
Definition isColorAccessibleByMode (colorInfo : ColorData)
           (accessibilityMode : string) : bool :=
  if String.eqb accessibilityMode "full" then
    cd_blackPassesNormal colorInfo && cd_blackPassesLarge colorInfo &&
    cd_whitePassesNormal colorInfo && cd_whitePassesLarge colorInfo
  else if String.eqb accessibilityMode "black-only" then
    cd_blackPassesNormal colorInfo && cd_blackPassesLarge colorInfo
  else if String.eqb accessibilityMode "white-only" then
    cd_whitePassesNormal colorInfo && cd_whitePassesLarge colorInfo
  else false.

(** The flags of a colour, as [findFullyAccessibleColor] collects them. *)
Definition colorDataOf (rgb : RGB) : ColorData :=
  let contrastInfo := getContrastInfo rgb in
  {| cd_blackPassesNormal := passesNormal (black contrastInfo);
     cd_blackPassesLarge := passesLarge (black contrastInfo);
     cd_whitePassesNormal := passesNormal (white contrastInfo);
     cd_whitePassesLarge := passesLarge (white contrastInfo) |}.

(** [generateSearchRange] (the ui-controller.js definition). *)
Definition generateSearchRange (center min max step : Q) : list Q :=
  let range :=
    Math_max min (Math_min max center) ::
    flat_map (fun i =>
                (if min <=? center - i then [center - i] else []) ++
                (if center + i <=? max then [center + i] else []))
             (for_up step (Math_max (center - min) (max - center)) step) in
  sort_by (fun a => Math_abs (a - center)) range.

Record SearchRanges : Type := mkRanges {
  lightness : list Q;
  saturation : list Q;
  hue : list Q
}.

(** [searchRanges[mode]]; [None] is [undefined]. *)
Definition searchRanges (originalHSL : HSL) (mode : string) : option SearchRanges :=
  let '(originalH, originalS, originalL) := originalHSL in
  if String.eqb mode "light" then
    Some {| lightness := [25; 30; 35; 40; 45; 50];
            saturation := generateSearchRange originalS 20 90 10;
            hue := generateSearchRange originalH 0 360 15 |}
  else if String.eqb mode "dark" then
    Some {| lightness := [60; 65; 70; 75; 80];
            saturation := generateSearchRange originalS 30 80 10;
            hue := generateSearchRange originalH 0 360 15 |}
  else None.

(** [bestColor] with [minDistance]; [None] is [null] with [Infinity]. *)
Definition Best : Type := option (HSL * Q).

(** [bestColor && minDistance < 30]. *)
Definition closeEnough (best : Best) : bool :=
  match best with
  | Some (_, minDistance) => minDistance <? 30
  | None => false
  end.

Section Search.
Variable originalHSL : HSL.
Variable accessibilityMode : string.

Fixpoint saturationLoop (h l : Q) (ss : list Q) (best : Best) : Best :=
  match ss with
  | [] => best
  | s :: rest =>
      let candidateHSL := (h, s, l) in
      let rgb := hslToRgb candidateHSL in
      let fullyAccessible :=
        isColorAccessibleByMode (colorDataOf rgb) accessibilityMode in
      if fullyAccessible then
        let distance :=
          Accessibility.calculateColorDistance originalHSL candidateHSL in
        if Accessibility.dist_ltb distance (option_map snd best) then
          let best' := Some (candidateHSL, distance) in
          if distance <? 30 then best'
          else saturationLoop h l rest best'
        else saturationLoop h l rest best
      else saturationLoop h l rest best
  end.

Fixpoint lightnessLoop (h : Q) (ss ls : list Q) (best : Best) : Best :=
  match ls with
  | [] => best
  | l :: rest =>
      let best' := saturationLoop h l ss best in
      if closeEnough best' then best' else lightnessLoop h ss rest best'
  end.

Fixpoint hueLoop (ss ls hs : list Q) (best : Best) : Best :=
  match hs with
  | [] => best
  | h :: rest =>
      let best' := lightnessLoop h ss ls best in
      if closeEnough best' then best' else hueLoop ss ls rest best'
  end.

(** [findFullyAccessibleColor]; reading a range of an unknown [mode]
    is a [TypeError]. *)
Definition findFullyAccessibleColor (mode : string) : result (option HSL) :=
  match searchRanges originalHSL mode with
  | None => Throw "TypeError: ranges is undefined"
  | Some ranges =>
      Ok (option_map fst
            (hueLoop (firstn 6 (saturation ranges)) (lightness ranges)
                     (firstn 8 (hue ranges)) None))
  end.
End Search.

End UIController.

(* ================================================================== *)
(** * The RGB <-> HSL pair on binary64 *)
(* ================================================================== *)

(** [rgbToHSL] and [hslToRgb] again, this time on IEEE-754 binary64 numbers,
    so that they round exactly as the JavaScript functions do: [/], [*], [+]
    and [-] are the primitive float operations, [1/3], [2/3] and [1/6] are
    computed as the source computes them, and [Math.round] is exact. *)
Module Binary64.

Local Open Scope float_scope.

Definition RGB : Type := float * float * float.
Definition HSL : Type := float * float * float.

Definition two52 : float := 4503599627370496.

(** [Math.floor], for finite arguments: below 2^52 in magnitude, adding and
    subtracting 2^52 (with the sign of [x]) rounds [x] to an integer, which
    is then corrected downwards; larger values are integers already. *)
Definition Math_floor (x : float) : float :=
  if two52 <=? abs x then x
  else
    let r := if x <? 0 then (x - two52) + two52 else (x + two52) - two52 in
    if x <? r then r - 1 else r.

(** [Math.round]: the nearest integer, ties towards +infinity. *)
Definition Math_round (x : float) : float :=
  let f := Math_floor x in
  if 0.5 <=? x - f then f + 1 else f.

Definition Math_max (a b : float) : float := if a <? b then b else a.
Definition Math_min (a b : float) : float := if b <? a then b else a.

Definition rgbToHSL (rgb : RGB) : HSL :=
  let '(r0, g0, b0) := rgb in
  let r := r0 / 255 in
  let g := g0 / 255 in
  let b := b0 / 255 in
  let max := Math_max (Math_max r g) b in
  let min := Math_min (Math_min r g) b in
  let diff := max - min in
  let l := (max + min) / 2 in
  if diff =? 0 then
    (Math_round (0 * 360), Math_round (0 * 100), Math_round (l * 100))
  else
    let s := if 0.5 <? l then diff / (2 - max - min) else diff / (max + min) in
    let h :=
      if max =? r then (g - b) / diff + (if g <? b then 6 else 0)
      else if max =? g then (b - r) / diff + 2
      else (r - g) / diff + 4 in
    let h := h / 6 in
    (Math_round (h * 360), Math_round (s * 100), Math_round (l * 100)).

Definition hue2rgb (p q t : float) : float :=
  let t := if t <? 0 then t + 1 else t in
  let t := if 1 <? t then t - 1 else t in
  if t <? 1 / 6 then p + (q - p) * 6 * t
  else if t <? 1 / 2 then q
  else if t <? 2 / 3 then p + (q - p) * (2 / 3 - t) * 6
  else p.

Definition hslToRgb (hsl : HSL) : RGB :=
  let '(h0, s0, l0) := hsl in
  let h := h0 / 360 in
  let s := s0 / 100 in
  let l := l0 / 100 in
  if s =? 0 then
    let gray := Math_round (l * 255) in (gray, gray, gray)
  else
    let q := if l <? 0.5 then l * (1 + s) else l + s - l * s in
    let p := 2 * l - q in
    let r := hue2rgb p q (h + 1 / 3) in
    let g := hue2rgb p q h in
    let b := hue2rgb p q (h - 1 / 3) in
    (Math_round (r * 255), Math_round (g * 255), Math_round (b * 255)).

(** An integer channel value as a number. *)
Definition channel (n : Z) : float := PrimFloat.of_uint63 (Uint63.of_Z n).

(** [Math.abs(a - b) <= k] on all three channels. *)
Definition within (k : float) (a b : RGB) : bool :=
  let '(ar, ag, ab) := a in
  let '(br, bg, bb) := b in
  (abs (ar - br) <=? k) && (abs (ag - bg) <=? k) && (abs (ab - bb) <=? k).

(** The round trip of one triple stays within [k] per channel. *)
Definition roundTripWithin (k : float) (r g b : Z) : bool :=
  let rgb := (channel r, channel g, channel b) in
  within k (hslToRgb (rgbToHSL rgb)) rgb.

(** The 256 channel values. *)
Definition channels : list Z := map Z.of_nat (seq 0 256).

Definition allRoundTripsWithin (k : float) : bool :=
  forallb (fun r =>
    forallb (fun g =>
      forallb (fun b => roundTripWithin k r g b) channels) channels) channels.

(** The 256 channel values as numbers, written out. *)
Definition channelFloats : list float :=
  Eval vm_compute in map channel channels.

(** The round-trip test over the numbers of [channelFloats]. *)
Definition allWithin (k : float) : bool :=
  forallb (fun r =>
    forallb (fun g =>
      forallb (fun b => within k (hslToRgb (rgbToHSL (r, g, b))) (r, g, b))
              channelFloats) channelFloats) channelFloats.

End Binary64.

(* ================================================================== *)
(** * The CIEDE2000 distance on exact real numbers *)
(* ================================================================== *)

(** [calculateDeltaE] of the LAB-aware colour utilities, read on real
    numbers: [Math.sqrt], [Math.sin], [Math.cos], [Math.exp] and [Math.PI]
    are the functions and the constant of analysis, [Math.pow] with an
    integer exponent is the power, and [Math.atan2] is the angle of a point,
    in (-PI, PI], with the value 0 at the origin. *)
Module CIEDE2000.

Import Reals.
Local Open Scope R_scope.

Definition LAB : Type := (R * R * R)%type.

Definition Math_atan2 (y x : R) : R :=
  if Rlt_dec 0 x then atan (y / x)
  else if Rlt_dec x 0 then
    if Rle_dec 0 y then atan (y / x) + PI else atan (y / x) - PI
  else if Rlt_dec 0 y then PI / 2
  else if Rlt_dec y 0 then - (PI / 2)
  else 0.

(** The values the source computes before the final formula. *)
Record Terms : Type := mkTerms {
  deltaLp : R;
  deltaCp : R;
  deltaHp : R;
  SL : R;
  SC : R;
  SH : R;
  RT : R
}.

Definition terms (lab1 lab2 : LAB) : Terms :=
  let '(L1, a1, b1) := lab1 in
  let '(L2, a2, b2) := lab2 in
  let C1 := sqrt (a1 * a1 + b1 * b1) in
  let C2 := sqrt (a2 * a2 + b2 * b2) in
  let meanC := (C1 + C2) / 2 in
  let G := 0.5 * (1 - sqrt (meanC ^ 7 / (meanC ^ 7 + 25 ^ 7))) in
  let a1p := a1 * (1 + G) in
  let a2p := a2 * (1 + G) in
  let C1p := sqrt (a1p * a1p + b1 * b1) in
  let C2p := sqrt (a2p * a2p + b2 * b2) in
  let h1p := Math_atan2 b1 a1p * 180 / PI in
  let h2p := Math_atan2 b2 a2p * 180 / PI in
  let h1p := if Rlt_dec h1p 0 then h1p + 360 else h1p in
  let h2p := if Rlt_dec h2p 0 then h2p + 360 else h2p in
  let deltaLp := L2 - L1 in
  let deltaCp := C2p - C1p in
  let deltahp := h2p - h1p in
  let deltahp :=
    if Rlt_dec 180 (Rabs deltahp) then
      if Rlt_dec h1p h2p then deltahp - 360 else deltahp + 360
    else deltahp in
  let deltaHp := 2 * sqrt (C1p * C2p) * sin (deltahp * PI / 360) in
  let meanLp := (L1 + L2) / 2 in
  let meanCp := (C1p + C2p) / 2 in
  let meanHp := (h1p + h2p) / 2 in
  let meanHp :=
    if Rlt_dec 180 (Rabs (h1p - h2p)) then
      let meanHp := meanHp + 180 in
      if Rle_dec 360 meanHp then meanHp - 360 else meanHp
    else meanHp in
  let T := 1 - 0.17 * cos ((meanHp - 30) * PI / 180) +
           0.24 * cos (2 * meanHp * PI / 180) +
           0.32 * cos ((3 * meanHp + 6) * PI / 180) -
           0.20 * cos ((4 * meanHp - 63) * PI / 180) in
  let SL := 1 + (0.015 * (meanLp - 50) ^ 2) / sqrt (20 + (meanLp - 50) ^ 2) in
  let SC := 1 + 0.045 * meanCp in
  let SH := 1 + 0.015 * meanCp * T in
  let RT := -2 * sqrt (meanCp ^ 7 / (meanCp ^ 7 + 25 ^ 7)) *
            sin (60 * exp (- ((meanHp - 275) / 25) ^ 2) * PI / 180) in
  {| deltaLp := deltaLp; deltaCp := deltaCp; deltaHp := deltaHp;
     SL := SL; SC := SC; SH := SH; RT := RT |}.

(** The number under the last square root. *)
Definition radicand (lab1 lab2 : LAB) : R :=
  let t := terms lab1 lab2 in
  (deltaLp t / SL t) ^ 2 +
  (deltaCp t / SC t) ^ 2 +
  (deltaHp t / SH t) ^ 2 +
  RT t * (deltaCp t / SC t) * (deltaHp t / SH t).

Definition calculateDeltaE (lab1 lab2 : LAB) : R := sqrt (radicand lab1 lab2).

End CIEDE2000.

(* ================================================================== *)
(** * The CIEDE2000 distance on binary64 *)
(* ================================================================== *)

(** [calculateDeltaE] again, on IEEE-754 binary64 numbers.  The arithmetic,
    the comparisons, [Math.abs] and [Math.sqrt] are the primitive
    operations.  ECMAScript leaves [Math.pow], [Math.atan2], [Math.sin],
    [Math.cos] and [Math.exp] implementation-approximated and fixes only
    their special cases, so they are parameters: a [MathLibrary]. *)
Module CIEDE2000_binary64.

Local Open Scope float_scope.
Local Set Warnings "-inexact-float".

Definition LAB : Type := (float * float * float)%type.

Record MathLibrary : Type := mkMath {
  Math_pow : float -> float -> float;
  Math_atan2 : float -> float -> float;
  Math_sin : float -> float;
  Math_cos : float -> float;
  Math_exp : float -> float
}.

(** [Math.PI]. *)
Definition Math_PI : float := 0x1.921fb54442d18p+1.

Definition calculateDeltaE (M : MathLibrary) (lab1 lab2 : LAB) : float :=
  let '(L1, a1, b1) := lab1 in
  let '(L2, a2, b2) := lab2 in
  let C1 := sqrt (a1 * a1 + b1 * b1) in
  let C2 := sqrt (a2 * a2 + b2 * b2) in
  let meanC := (C1 + C2) / 2 in
  let G := 0.5 * (1 - sqrt (Math_pow M meanC 7 /
                            (Math_pow M meanC 7 + Math_pow M 25 7))) in
  let a1p := a1 * (1 + G) in
  let a2p := a2 * (1 + G) in
  let C1p := sqrt (a1p * a1p + b1 * b1) in
  let C2p := sqrt (a2p * a2p + b2 * b2) in
  let h1p := Math_atan2 M b1 a1p * 180 / Math_PI in
  let h2p := Math_atan2 M b2 a2p * 180 / Math_PI in
  let h1p := if h1p <? 0 then h1p + 360 else h1p in
  let h2p := if h2p <? 0 then h2p + 360 else h2p in
  let deltaLp := L2 - L1 in
  let deltaCp := C2p - C1p in
  let deltahp := h2p - h1p in
  let deltahp :=
    if 180 <? abs deltahp then
      if h1p <? h2p then deltahp - 360 else deltahp + 360
    else deltahp in
  let deltaHp := 2 * sqrt (C1p * C2p) * Math_sin M (deltahp * Math_PI / 360) in
  let meanLp := (L1 + L2) / 2 in
  let meanCp := (C1p + C2p) / 2 in
  let meanHp := (h1p + h2p) / 2 in
  let meanHp :=
    if 180 <? abs (h1p - h2p) then
      let meanHp := meanHp + 180 in
      if 360 <=? meanHp then meanHp - 360 else meanHp
    else meanHp in
  let T := 1 - 0.17 * Math_cos M ((meanHp - 30) * Math_PI / 180) +
           0.24 * Math_cos M (2 * meanHp * Math_PI / 180) +
           0.32 * Math_cos M ((3 * meanHp + 6) * Math_PI / 180) -
           0.20 * Math_cos M ((4 * meanHp - 63) * Math_PI / 180) in
  let SL := 1 + (0.015 * Math_pow M (meanLp - 50) 2) /
                sqrt (20 + Math_pow M (meanLp - 50) 2) in
  let SC := 1 + 0.045 * meanCp in
  let SH := 1 + 0.015 * meanCp * T in
  let RT := -2 * sqrt (Math_pow M meanCp 7 /
                       (Math_pow M meanCp 7 + Math_pow M 25 7)) *
            Math_sin M (60 * Math_exp M (- Math_pow M ((meanHp - 275) / 25) 2)
                        * Math_PI / 180) in
  sqrt (Math_pow M (deltaLp / SL) 2 +
        Math_pow M (deltaCp / SC) 2 +
        Math_pow M (deltaHp / SH) 2 +
        RT * (deltaCp / SC) * (deltaHp / SH)).


End CIEDE2000_binary64.

(* ================================================================== *)
(** * HEX strings and colour mixing (color-utils) *)
(* ================================================================== *)

(** Strings are sequences of 8-bit characters; the functions below are read
    on ASCII text, which is what a HEX colour code is made of. *)
Module Hex.

Definition code (c : ascii) : N := N_of_ascii c.

(** The character classes [0-9], [A-F] and [a-f]. *)
Definition isDigit (c : ascii) : bool :=
  ((48 <=? code c) && (code c <=? 57))%N.
Definition isUpperHex (c : ascii) : bool :=
  ((65 <=? code c) && (code c <=? 70))%N.
Definition isLowerHex (c : ascii) : bool :=
  ((97 <=? code c) && (code c <=? 102))%N.

(** [[A-Fa-f0-9]], which is also [[a-f\d]] under the [i] flag. *)
Definition isHexChar (c : ascii) : bool :=
  isDigit c || isUpperHex c || isLowerHex c.

(** [toUpperCase], one character and a string. *)
Definition toUpperChar (c : ascii) : ascii :=
  if ((97 <=? code c) && (code c <=? 122))%N
  then ascii_of_N (code c - 32) else c.

Fixpoint toUpperCase (s : string) : string :=
  match s with
  | EmptyString => EmptyString
  | String c rest => String (toUpperChar c) (toUpperCase rest)
  end.

(** [hex.replace('#', '')]: the first [#] is removed. *)
Fixpoint removeFirstHash (s : string) : string :=
  match s with
  | EmptyString => EmptyString
  | String c rest =>
      if Ascii.eqb c "#" then rest else String c (removeFirstHash rest)
  end.

(** [hex.split('').map(char => char + char).join('')]. *)
Fixpoint doubleChars (s : string) : string :=
  match s with
  | EmptyString => EmptyString
  | String c rest => String c (String c (doubleChars rest))
  end.

(** [normalizeHex]; the empty string is falsy. *)
Definition normalizeHex (hex : string) : string :=
  match hex with
  | EmptyString => EmptyString
  | _ =>
      let hex := removeFirstHash hex in
      let hex := if Nat.eqb (String.length hex) 3 then doubleChars hex else hex in
      String "#" (toUpperCase hex)
  end.

Fixpoint allHex (s : string) : bool :=
  match s with
  | EmptyString => true
  | String c rest => isHexChar c && allHex rest
  end.

(** What is left of a string after an optional leading [#]. *)
Definition afterHash (s : string) : string :=
  match s with
  | String c rest => if Ascii.eqb c "#" then rest else s
  | EmptyString => s
  end.

(** [isValidHex]: the test of [/^#?([A-Fa-f0-9]{6}|[A-Fa-f0-9]{3})$/]. *)
Definition isValidHex (hex : string) : bool :=
  match hex with
  | EmptyString => false
  | _ =>
      let body := afterHash hex in
      allHex body &&
      (Nat.eqb (String.length body) 6 || Nat.eqb (String.length body) 3)
  end.

(** The value of a hexadecimal digit, and [parseInt(pair, 16)] for a pair
    of them. *)
Definition hexValue (c : ascii) : Z :=
  if isDigit c then Z.of_N (code c) - 48
  else if isUpperHex c then Z.of_N (code c) - 55
  else Z.of_N (code c) - 87.

Definition parseHexPair (a b : ascii) : Z := 16 * hexValue a + hexValue b.

(** [hexToRgb]; [None] is [null].  The second pattern,
    [/^#?([a-f\d]{2})([a-f\d]{2})([a-f\d]{2})$/i], takes six digits only. *)
Definition hexToRgb (hex : string) : option RGB :=
  let normalizedHex := normalizeHex hex in
  if negb (isValidHex normalizedHex) then None
  else
    match afterHash normalizedHex with
    | String r1 (String r2 (String g1 (String g2
        (String b1 (String b2 EmptyString))))) =>
        if isHexChar r1 && isHexChar r2 && isHexChar g1 &&
           isHexChar g2 && isHexChar b1 && isHexChar b2
        then Some (parseHexPair r1 r2, parseHexPair g1 g2, parseHexPair b1 b2)
        else None
    | _ => None
    end.

(** [hexToHSL]. *)
Definition hexToHSL (hex : string) : option HSL :=
  match hexToRgb hex with
  | None => None
  | Some rgb => Some (rgbToHSL rgb)
  end.

(** [getContrastingTextColor]. *)
Definition getContrastingTextColor (hex : string) : string :=
  match hexToRgb hex with
  | None => "#000000"
  | Some rgb =>
      let luminance := calculateLuminance rgb in
      if 0.5 <? luminance then "#000000" else "#ffffff"
  end.

End Hex.

(** [mixHSLColors]. *)
Definition mixHSLColors (hsl1 hsl2 : HSL) (ratio : Q) : HSL :=
  let '(h1, s1, l1) := hsl1 in
  let '(h2, s2, l2) := hsl2 in
  let hueDiff := Math_abs (h2 - h1) in
  let h :=
    if 180 <? hueDiff then
      let h := if h2 <? h1 then h1 + (360 - h1 + h2) * ratio
               else h1 - (h1 + 360 - h2) * ratio in
      let h := h %% 360 in
      if h <? 0 then h + 360 else h
    else h1 + (h2 - h1) * ratio in
  let s := s1 + (s2 - s1) * ratio in
  let l := l1 + (l2 - l1) * ratio in
  (inject_Z (Math_round h),
   inject_Z (Math_round (Math_max 0 (Math_min 100 s))),
   inject_Z (Math_round (Math_max 0 (Math_min 100 l)))).

(* ================================================================== *)
(** * Contrast checks and scale validation (js/accessibility.js) *)
(* ================================================================== *)

Module ContrastChecks.

(** [passesContrastCheck] (WCAG AA) and [passesContrastCheckAAA]. *)
Definition passesContrastCheck (bgRgb textRgb : RGB) (isLargeText : bool) : bool :=
  let ratio := getContrastRatio bgRgb textRgb in
  let minimumRatio := if isLargeText then 3.0 else 4.5 in
  minimumRatio <=? ratio.

Definition passesContrastCheckAAA (bgRgb textRgb : RGB) (isLargeText : bool)
  : bool :=
  let ratio := getContrastRatio bgRgb textRgb in
  let minimumRatio := if isLargeText then 4.5 else 7.0 in
  minimumRatio <=? ratio.

(** [getAccessibilityLevel]. *)
Record AccessibilityLevel : Type := mkLevel {
  al_level : string;
  al_description : string;
  al_color : string
}.

Definition getAccessibilityLevel (ratio : Q) : AccessibilityLevel :=
  if 7.0 <=? ratio then
    {| al_level := "AAA"; al_description := "Enhanced contrast";
       al_color := "success" |}
  else if 4.5 <=? ratio then
    {| al_level := "AA"; al_description := "Standard contrast";
       al_color := "success" |}
  else if 3.0 <=? ratio then
    {| al_level := "AA Large"; al_description := "Large text only";
       al_color := "warning" |}
  else
    {| al_level := "Fail"; al_description := "Insufficient contrast";
       al_color := "error" |}.

(** [calculateAPCAContrast].  With [lighter = 0] the quotient is [0/0] or
    a division of a non-zero number by zero, and the function returns [NaN]
    or an infinity: [None]. *)
Definition calculateAPCAContrast (bgRgb textRgb : RGB) : option Z :=
  let bgLum := calculateLuminance bgRgb in
  let textLum := calculateLuminance textRgb in
  let lighter := Math_max bgLum textLum in
  let darker := Math_min bgLum textLum in
  if lighter =? 0 then None
  else
    let contrast := (lighter - darker) / lighter in
    Some (Math_round (contrast * 100)).

(** [validateColorScaleAccessibility]. *)
Record ProblematicColor : Type := mkProblem {
  pc_level : Z;
  pc_hex : string;
  pc_blackRatio : Q;
  pc_whiteRatio : Q
}.

Record AccessibilityValidation : Type := mkValidation {
  overallAccessible : bool;
  problematicColors : list ProblematicColor;
  recommendations : list string
}.

Definition validateColorScaleAccessibility (colorScale : list ColorObject)
  : AccessibilityValidation :=
  let results :=
    fold_left
      (fun results color =>
         let contrastInfo := getContrastInfo (rgb color) in
         if negb (passesNormal (black contrastInfo)) &&
            negb (passesNormal (white contrastInfo))
         then
           {| overallAccessible := false;
              problematicColors :=
                problematicColors results ++
                [ {| pc_level := level color;
                     pc_hex := hex color;
                     pc_blackRatio := ratio (black contrastInfo);
                     pc_whiteRatio := ratio (white contrastInfo) |} ];
              recommendations := recommendations results |}
         else results)
      colorScale
      {| overallAccessible := true;
         problematicColors := [];
         recommendations := [] |} in
  if negb (overallAccessible results) then
    {| overallAccessible := overallAccessible results;
       problematicColors := problematicColors results;
       recommendations :=
         recommendations results ++
         [ "Consider using the accessible alternative scale";
           "Adjust lightness values to improve contrast";
           "Test with users who have visual impairments" ]%string |}
  else results.

End ContrastChecks.

(* ================================================================== *)
(** * Easing (js/scale-generator.js) *)
(* ================================================================== *)

(** [bezierEasing]. *)
Definition bezierEasing (t : Q) : Q := t * t * (3 - 2 * t).

(* ================================================================== *)
(** * Dark-mode helpers (js/dark-mode-generator.js) *)
(* ================================================================== *)

Module DarkModeSearch.

(** [calculateSimpleColorDistance]. *)
Definition calculateSimpleColorDistance (hsl1 hsl2 : HSL) : Q :=
  let '(h1, s1, l1) := hsl1 in
  let '(h2, s2, l2) := hsl2 in
  let hueDiff := Math_abs (h1 - h2) in
  let hueDiff := if 180 <? hueDiff then 360 - hueDiff else hueDiff in
  let hueWeight := 0.6 in
  let satWeight := 0.25 in
  let lightWeight := 0.15 in
  (hueDiff / 180) * hueWeight * 100 +
  (Math_abs (s1 - s2) / 100) * satWeight * 100 +
  (Math_abs (l1 - l2) / 100) * lightWeight * 100.

(** [generateSearchRange] (the dark-mode-generator.js definition). *)
Definition generateSearchRange (center min max step : Q) : list Q :=
  let range :=
    Math_max min (Math_min max center) ::
    flat_map (fun i =>
                (if min <=? center - i then [center - i] else []) ++
                (if center + i <=? max then [center + i] else []))
             (for_up step (Math_max (center - min) (max - center)) step) in
  sort_by (fun a => Math_abs (a - center)) range.

(** [bestColor] with [minDistance]; [None] is [null] with [Infinity]. *)
Definition Best : Type := option (HSL * Q).

(** [bestColor && minDistance < 25]. *)
Definition closeEnough (best : Best) : bool :=
  match best with
  | Some (_, minDistance) => minDistance <? 25
  | None => false
  end.

Section Search.
Variable originalHSL : HSL.

Fixpoint saturationLoop (h l : Q) (ss : list Q) (best : Best) : Best :=
  match ss with
  | [] => best
  | s :: rest =>
      let candidateHSL := (h, s, l) in
      let rgb := hslToRgb candidateHSL in
      let contrastInfo := getContrastInfo rgb in
      let fullyAccessible :=
        passesNormal (black contrastInfo) && passesLarge (black contrastInfo) &&
        passesNormal (white contrastInfo) && passesLarge (white contrastInfo) in
      if fullyAccessible then
        let distance := calculateSimpleColorDistance originalHSL candidateHSL in
        if Accessibility.dist_ltb distance (option_map snd best) then
          let best' := Some (candidateHSL, distance) in
          if distance <? 25 then best'
          else saturationLoop h l rest best'
        else saturationLoop h l rest best
      else saturationLoop h l rest best
  end.

Fixpoint lightnessLoop (h : Q) (ss ls : list Q) (best : Best) : Best :=
  match ls with
  | [] => best
  | l :: rest =>
      let best' := saturationLoop h l ss best in
      if closeEnough best' then best' else lightnessLoop h ss rest best'
  end.

Fixpoint hueLoop (ss ls hs : list Q) (best : Best) : Best :=
  match hs with
  | [] => best
  | h :: rest =>
      let best' := lightnessLoop h ss ls best in
      if closeEnough best' then best' else hueLoop ss ls rest best'
  end.

(** [findFullyAccessibleColorForDarkMode]; [None] is [null]. *)
Definition findFullyAccessibleColorForDarkMode : option HSL :=
  let '(originalH, originalS, originalL) := originalHSL in
  let lightness := [35; 40; 45; 50; 55; 60] in
  let saturation := generateSearchRange originalS 30 85 10 in
  let hue := generateSearchRange originalH 0 360 15 in
  option_map fst (hueLoop (firstn 6 saturation) lightness (firstn 8 hue) None).
End Search.

(** [generateOptimalDarkModeBase]. *)
Definition generateOptimalDarkModeBase (lightBaseHSL : HSL) : HSL :=
  let '(h, s, l) := lightBaseHSL in
  let darkS := if negb (isNeutralColor lightBaseHSL)
               then Math_min 100 (s + 8) else s in
  let darkL :=
    if 70 <? l then Math_max 35 (l - 35)
    else if l <? 30 then Math_min 65 (l + 35)
    else if 50 <? l then Math_max 40 (l - 15) else Math_min 60 (l + 15) in
  clampHSL (h, darkS, darkL).

(** The objects [interpolateScales] returns: the light colour object with
    its colour fields replaced and the progress added. *)
Record InterpolatedColor : Type := mkInterpolated {
  ic_color : ColorObject;
  transitionProgress : Q
}.

(** [interpolateScales].  [darkScale[index]] is [undefined] past the end of
    the dark scale, and reading its [hsl] is a [TypeError]. *)
Fixpoint interpolateLoop (clampedProgress : Q) (lightScale : list ColorObject)
         (darkScale : list DarkColorObject)
  : result (list InterpolatedColor) :=
  match lightScale with
  | [] => Ok []
  | lightColor :: lightRest =>
      match darkScale with
      | [] => Throw "TypeError: darkColor is undefined"
      | darkColor :: darkRest =>
          let '(_, lightS, lightL) := hsl lightColor in
          let '(_, darkS, darkL) := hsl (color darkColor) in
          let '(mixedH, _, _) :=
            mixHSLColors (hsl lightColor) (hsl (color darkColor))
                         clampedProgress in
          let interpolatedHSL :=
            (mixedH,
             lightS + (darkS - lightS) * clampedProgress,
             lightL + (darkL - lightL) * clampedProgress) in
          let rgb := hslToRgb interpolatedHSL in
          let hex := hslToHex interpolatedHSL in
          let contrastInfo := getContrastInfo rgb in
          let item :=
            {| ic_color :=
                 {| level := level lightColor;
                    hsl := interpolatedHSL;
                    rgb := rgb;
                    hex := hex;
                    blackPassesNormal := passesNormal (black contrastInfo);
                    blackPassesLarge := passesLarge (black contrastInfo);
                    blackRatio := ratio (black contrastInfo);
                    whitePassesNormal := passesNormal (white contrastInfo);
                    whitePassesLarge := passesLarge (white contrastInfo);
                    whiteRatio := ratio (white contrastInfo);
                    preferredTextColor := preferredText contrastInfo;
                    name := name lightColor;
                    isBase := isBase lightColor |};
               transitionProgress := clampedProgress |} in
          match interpolateLoop clampedProgress lightRest darkRest with
          | Ok items => Ok (item :: items)
          | Throw message => Throw message
          end
      end
  end.

Definition interpolateScales (lightScale : list ColorObject)
           (darkScale : list DarkColorObject) (progress : Q)
  : result (list InterpolatedColor) :=
  let clampedProgress := Math_max 0 (Math_min 1 progress) in
  interpolateLoop clampedProgress lightScale darkScale.

End DarkModeSearch.

(* ================================================================== *)
(** * The mirrored dark scale (js/ui-controller.js) *)
(* ================================================================== *)

Module ReversedScale.

(** [sortedScale.findIndex(c => c.level === baseLevel)]; [None] is [-1]. *)
Fixpoint findIndex (scale : list ColorObject) (baseLevel : Z) : option nat :=
  match scale with
  | [] => None
  | c :: rest =>
      if (level c =? baseLevel)%Z then Some O
      else option_map S (findIndex rest baseLevel)
  end.

(** The index whose colour a swatch takes. *)
Definition mirrorIndex (len : nat) (centerIndex : option nat) (index : nat) : nat :=
  match centerIndex with
  | None => (len - 1 - index)%nat
  | Some centerIndex =>
      if (index <? centerIndex)%nat then
        let distanceFromCenter := (centerIndex - index)%nat in
        Nat.min (len - 1) (centerIndex + distanceFromCenter)
      else
        let distanceFromCenter := (index - centerIndex)%nat in
        (centerIndex - distanceFromCenter)%nat
  end.

(** The callback of [sortedScale.map]; reading a field of
    [sortedScale[mirrorIndex]] would be a [TypeError] if the index were
    outside the scale. *)
Definition reversedColorFor (sortedScale : list ColorObject) (baseLevel : Z)
           (color0 : ColorObject) (index : nat) : result DarkColorObject :=
  if (level color0 =? baseLevel)%Z then
    Ok {| color := color0; originalLevel := None; isDarkMode := true |}
  else
    let centerIndex := findIndex sortedScale baseLevel in
    match nth_error sortedScale
                    (mirrorIndex (List.length sortedScale) centerIndex index) with
    | None => Throw "TypeError: mirrorColor is undefined"
    | Some mirrorColor =>
        Ok {| color :=
                {| level := level color0;
                   hsl := hsl mirrorColor;
                   rgb := rgb mirrorColor;
                   hex := hex mirrorColor;
                   blackPassesNormal := blackPassesNormal mirrorColor;
                   blackPassesLarge := blackPassesLarge mirrorColor;
                   blackRatio := blackRatio mirrorColor;
                   whitePassesNormal := whitePassesNormal mirrorColor;
                   whitePassesLarge := whitePassesLarge mirrorColor;
                   whiteRatio := whiteRatio mirrorColor;
                   preferredTextColor := preferredTextColor mirrorColor;
                   name := name color0;
                   isBase := isBase color0 |};
              originalLevel := None;
              isDarkMode := true |}
    end.

Fixpoint reversedLoop (sortedScale : list ColorObject) (baseLevel : Z)
         (colors : list ColorObject) (index : nat)
  : result (list DarkColorObject) :=
  match colors with
  | [] => Ok []
  | color0 :: rest =>
      match reversedColorFor sortedScale baseLevel color0 index with
      | Throw message => Throw message
      | Ok item =>
          match reversedLoop sortedScale baseLevel rest (S index) with
          | Throw message => Throw message
          | Ok items => Ok (item :: items)
          end
      end
  end.

(** [createReversedDarkModeScale]. *)
Definition createReversedDarkModeScale (lightModeScale : list ColorObject)
  : result (list DarkColorObject) :=
  let sortedScale := sort_by (fun c => inject_Z (level c)) lightModeScale in
  let baseLevel :=
    match find isBase sortedScale with
    | Some baseColor => level baseColor
    | None => 400%Z
    end in
  reversedLoop sortedScale baseLevel sortedScale O.

End ReversedScale.


(* ================================================================== *)
(** * Predicates and invariants used to state the properties *)
(* ================================================================== *)

(** A percentage, and a hue in the closed range [rgbToHSL] produces (it
    returns 360 for some reds, e.g. rgb(255, 0, 1)). *)
Definition pct (x : Q) : Prop := 0 <= x /\ x <= 100.
Definition hue_ok (x : Q) : Prop := 0 <= x /\ x <= 360.

(** A hue in [0, 360) with saturation and lightness in [0, 100]. *)
Definition hsl_in_range (c : HSL) : Prop :=
  let '(h, s, l) := c in
  (0 <= h /\ h < 360) /\ (0 <= s /\ s <= 100) /\ (0 <= l /\ l <= 100).

(** The same with the hue 360 admitted. *)
Definition hsl_in_closed_range (c : HSL) : Prop :=
  let '(h, s, l) := c in hue_ok h /\ pct s /\ pct l.

(** Integer channels in [0, 255]. *)
Definition rgb_in_range (c : RGB) : Prop :=
  let '(r, g, b) := c in
  ((0 <= r <= 255) /\ (0 <= g <= 255) /\ (0 <= b <= 255))%Z.

(** The four pass flags of a colour's evaluation, and the weaker "readable
    with black text or with white text". *)
Definition passesAllFour (rgb : RGB) : bool :=
  let info := getContrastInfo rgb in
  passesNormal (black info) && passesLarge (black info) &&
  passesNormal (white info) && passesLarge (white info).

Definition passesBlackOrWhite (rgb : RGB) : bool :=
  let info := getContrastInfo rgb in
  (passesNormal (black info) && passesLarge (black info)) ||
  (passesNormal (white info) && passesLarge (white info)).

(** Componentwise numeric equality of two HSL triples. *)
Definition hsl_eq (a b : HSL) : Prop :=
  let '(h1, s1, l1) := a in
  let '(h2, s2, l2) := b in
  h1 == h2 /\ s1 == s2 /\ l1 == l2.

(** The 256 values of a colour channel. *)
Definition channelValues : list Z := map Z.of_nat (seq 0 256).

(** The light scale of scenario A, used as a concrete input below. *)
Definition scenarioA_lightScale : list ColorObject :=
  match createColorScale (202, 57, 50) "diatonic" with
  | Ok scale => scale
  | Throw _ => []
  end.

(** Options under which no colour can reach the target (no ratio exceeds
    21) and the staged search stops at once, so that only the fallbacks
    run. *)
Definition unreachableTarget : Accessibility.Options :=
  {| Accessibility.targetRatio := 22;
     Accessibility.maxIterations := -1;
     Accessibility.preserveHue := true;
     Accessibility.allowSaturationChange := true;
     Accessibility.textColor := "both";
     Accessibility.huePreservationWeight := 0.8 |}.

(** The staged search succeeds: the input already reaches the target, or
    the search and the hue-preserving fallbacks end with a best score that
    does, so that the final hue-family swatch is not used. *)
Definition searchSucceeds (originalHSL : HSL) (options : Accessibility.Options)
  : Prop :=
  Accessibility.targetRatio options
    <= Accessibility.calculateAccessibilityScore
         originalHSL (Accessibility.textColor options) \/
  Accessibility.targetRatio options
    <= Accessibility.bestScore (Accessibility.afterFallbacks originalHSL options).

(** Invariant of the staged search: the best score is the score of the best
    colour, and the best colour is within the closed range. *)
Definition consistent (options : Accessibility.Options)
           (st : Accessibility.SearchState) : Prop :=
  Accessibility.bestScore st =
    Accessibility.calculateAccessibilityScore
      (Accessibility.bestColor st) (Accessibility.textColor options) /\
  hsl_in_closed_range (Accessibility.bestColor st).

(** The candidates of a stage are within the closed range. *)
Definition stage_ok (stage : Accessibility.Stage) : Prop :=
  Forall hue_ok (Accessibility.hueRange stage) /\
  Forall pct (Accessibility.saturationRange stage) /\
  Forall pct (Accessibility.lightnessRange stage).

(** Invariant of the mode-aware search: whatever it holds as its best
    colour passed the mode's predicate when it was tested. *)
Definition accepted (accessibilityMode : string) (best : UIController.Best)
  : Prop :=
  match best with
  | Some (c, _) =>
      UIController.isColorAccessibleByMode
        (UIController.colorDataOf (hslToRgb c)) accessibilityMode = true
  | None => True
  end.

(** What a search holds as its best colour passes the four checks, and its
    lightness is one of the candidates [lightnesses]. *)
Definition keptPasses (lightnesses : list Q) (best : option (HSL * Q)) : Prop :=
  match best with
  | Some (c, _) =>
      passesAllFour (hslToRgb c) = true /\ In (snd c) lightnesses
  | None => True
  end.

(** The colour values of a swatch are those of [m]. *)
Definition copiedFrom (m : ColorObject) (d : DarkColorObject) : Prop :=
  hsl (color d) = hsl m /\ rgb (color d) = rgb m /\ hex (color d) = hex m /\
  blackPassesNormal (color d) = blackPassesNormal m /\
  blackPassesLarge (color d) = blackPassesLarge m /\
  blackRatio (color d) = blackRatio m /\
  whitePassesNormal (color d) = whitePassesNormal m /\
  whitePassesLarge (color d) = whitePassesLarge m /\
  whiteRatio (color d) = whiteRatio m /\
  preferredTextColor (color d) = preferredTextColor m.

(** Ordered by a numeric key, as [sort((a, b) => key(a) - key(b))] leaves
    an array. *)
Definition byKey {A : Type} (key : A -> Q) (a b : A) : Prop := key a <= key b.

(** A number with at most 17 binary fractional digits.  For such numbers
    in [0, 1] the products and differences of [bezierEasing] need at most 53
    significant bits, so binary64 computes them without rounding. *)
Definition dyadic17 (t : Q) : Prop := exists m : Z, t == inject_Z m / 131072.

(** The lightness of the swatch of level [k] in a scale whose base level is
    400. *)
Definition lightnessAt (base : HSL) (k : Z) : Q :=
  snd (hsl (colorObjectFor base (Some 400%Z) k)).

(* ================================================================== *)
(** * Facts about the number model *)
(* ================================================================== *)

Module JSFacts.

Lemma ltb_spec (a b : Q) : BoolSpec (a < b) (b <= a) (a <? b).
Proof.
  unfold ltb. destruct (a ?= b) eqn:E; constructor.
  - apply Qeq_alt in E. rewrite E. apply Qle_refl.
  - now apply Qlt_alt.
  - apply Qlt_le_weak. now apply Qgt_alt.
Qed.

Lemma leb_spec (a b : Q) : BoolSpec (a <= b) (b < a) (a <=? b).
Proof.
  unfold leb. destruct (a ?= b) eqn:E; constructor.
  - apply Qeq_alt in E. rewrite E. apply Qle_refl.
  - apply Qlt_le_weak. now apply Qlt_alt.
  - now apply Qgt_alt.
Qed.

Lemma eqb_spec (a b : Q) : BoolSpec (a == b) (~ a == b) (a =? b).
Proof.
  unfold eqb. destruct (a ?= b) eqn:E; constructor.
  - now apply Qeq_alt.
  - intros H. apply Qeq_alt in H. congruence.
  - intros H. apply Qeq_alt in H. congruence.
Qed.

Lemma ltb_true_iff (a b : Q) : (a <? b) = true <-> a < b.
Proof. destruct (ltb_spec a b); split; (congruence || lra). Qed.

Lemma leb_true_iff (a b : Q) : (a <=? b) = true <-> a <= b.
Proof. destruct (leb_spec a b); split; (congruence || lra). Qed.

(** Comparisons and rounding do not see the representation of a number. *)
Lemma ltb_compat a a' b b' : a == a' -> b == b' -> (a <? b) = (a' <? b').
Proof. intros Ha Hb. unfold ltb. now rewrite Ha, Hb. Qed.

Lemma eqb_compat a a' b b' : a == a' -> b == b' -> (a =? b) = (a' =? b').
Proof. intros Ha Hb. unfold eqb. now rewrite Ha, Hb. Qed.

Lemma Math_round_compat a a' : a == a' -> Math_round a = Math_round a'.
Proof. intros H. unfold Math_round. apply Qfloor_comp. now rewrite H. Qed.

(** The floor of a number between [n] and [n + 1]. *)
Lemma Qfloor_eq (x : Q) (n : Z) :
  inject_Z n <= x -> x < inject_Z n + 1 -> Qfloor x = n.
Proof.
  intros Hlo Hhi.
  pose proof (Qfloor_le x) as H1. pose proof (Qlt_floor x) as H2.
  rewrite inject_Z_plus in H2. change (inject_Z 1) with 1 in H2.
  assert (A : (Qfloor x < n + 1)%Z).
  { rewrite Zlt_Qlt, inject_Z_plus. change (inject_Z 1) with 1. lra. }
  assert (B : (n < Qfloor x + 1)%Z).
  { rewrite Zlt_Qlt, inject_Z_plus. change (inject_Z 1) with 1. lra. }
  lia.
Qed.

End JSFacts.

Import JSFacts.

(** Case analysis on a numeric comparison of the goal, innermost first. *)
Ltac no_if t :=
  lazymatch t with
  | context [if _ then _ else _] => fail
  | _ => idtac
  end.

Ltac js_case :=
  match goal with
  | |- context [ltb ?a ?b] => no_if a; no_if b; destruct (ltb_spec a b)
  | |- context [leb ?a ?b] => no_if a; no_if b; destruct (leb_spec a b)
  | |- context [eqb ?a ?b] => no_if a; no_if b; destruct (eqb_spec a b)
  end.

(** A comparison between two constants that [js_case] left as a
    hypothesis is decided by evaluation. *)
Ltac closed_absurd :=
  match goal with
  | H : ?a < ?b |- _ => vm_compute in H; discriminate H
  | H : ?a <= ?b |- _ => vm_compute in H; exfalso; apply H; reflexivity
  end.

(** [Forall] over the lists the range generators build. *)
Ltac forall_range :=
  repeat first
    [ apply Forall_nil
    | apply Forall_cons
    | apply Forall_app; split
    | match goal with
      | |- Forall _ (if ltb ?a ?b then _ else _) => destruct (ltb_spec a b)
      | |- Forall _ (if leb ?a ?b then _ else _) => destruct (leb_spec a b)
      | |- Forall _ (if ?c then _ else _) => destruct c
      end ].

Ltac pct_bounds :=
  unfold pct, hue_ok, Math_max, Math_min in *; repeat js_case; lra.

Module RangeFacts.

Lemma clamp_range (lo hi x : Q) :
  lo <= hi -> lo <= Math_max lo (Math_min hi x) <= hi.
Proof. intros H. unfold Math_max, Math_min. repeat js_case; lra. Qed.

(** [a % 360] lies strictly between -360 and 360. *)
Lemma rem_360_bounds (a : Q) : -360 < a %% 360 /\ a %% 360 < 360.
Proof.
  unfold rem, trunc.
  assert (E : a / 360 == a * (1 # 360)) by field.
  js_case.
  - pose proof (Qle_ceiling (a / 360)) as Hc.
    pose proof (Qceiling_lt (a / 360)) as Hl.
    unfold Z.sub in Hl. rewrite inject_Z_plus, inject_Z_opp in Hl.
    change (inject_Z 1) with 1 in Hl.
    set (t := inject_Z (Qceiling (a / 360))) in *.
    rewrite E in *. lra.
  - pose proof (Qfloor_le (a / 360)) as Hf.
    pose proof (Qlt_floor (a / 360)) as Hl.
    rewrite inject_Z_plus in Hl. change (inject_Z 1) with 1 in Hl.
    set (t := inject_Z (Qfloor (a / 360))) in *.
    rewrite E in *. lra.
Qed.

(** On a non-negative dividend the remainder is in [0, 360). *)
Lemma rem_360_nonneg (a : Q) : 0 <= a -> 0 <= a %% 360 /\ a %% 360 < 360.
Proof.
  intros Ha. unfold rem, trunc.
  assert (E : a / 360 == a * (1 # 360)) by field.
  js_case.
  - exfalso. lra.
  - pose proof (Qfloor_le (a / 360)) as Hf.
    pose proof (Qlt_floor (a / 360)) as Hl.
    rewrite inject_Z_plus in Hl. change (inject_Z 1) with 1 in Hl.
    set (t := inject_Z (Qfloor (a / 360))) in *.
    rewrite E in *. lra.
Qed.

Lemma rem_360_small (a : Q) : 0 <= a -> a < 360 -> a %% 360 == a.
Proof.
  intros H0 H1. unfold rem, trunc.
  assert (E : a / 360 == a * (1 # 360)) by field.
  js_case; [lra|].
  rewrite (Qfloor_eq (a / 360) 0); change (inject_Z 0) with 0; lra.
Qed.

Lemma rem_360_once (a : Q) : 360 <= a -> a < 720 -> a %% 360 == a - 360.
Proof.
  intros H0 H1. unfold rem, trunc.
  assert (E : a / 360 == a * (1 # 360)) by field.
  js_case; [lra|].
  rewrite (Qfloor_eq (a / 360) 1); change (inject_Z 1) with 1; lra.
Qed.

(** The hue normalisation [((h % 360) + 360) % 360]. *)
Lemma normalized_hue_range (h : Q) :
  0 <= ((h %% 360) + 360) %% 360 /\ ((h %% 360) + 360) %% 360 < 360.
Proof.
  apply rem_360_nonneg. pose proof (rem_360_bounds h). lra.
Qed.

Lemma normalized_hue_small (h : Q) :
  0 <= h -> h < 360 -> ((h %% 360) + 360) %% 360 == h.
Proof.
  intros H0 H1. pose proof (rem_360_small h H0 H1) as E.
  rewrite rem_360_once; lra.
Qed.

Lemma normalized_hue_360 (h : Q) :
  h == 360 -> ((h %% 360) + 360) %% 360 == 0.
Proof.
  intros H. assert (E : h %% 360 == h - 360) by (apply rem_360_once; lra).
  rewrite rem_360_once; lra.
Qed.

Lemma clamp_pct (x : Q) : pct x -> Math_max 0 (Math_min 100 x) == x.
Proof. intros [H0 H1]. unfold Math_max, Math_min. repeat js_case; lra. Qed.

Lemma clampHSL_in_range (c : HSL) : hsl_in_range (clampHSL c).
Proof.
  destruct c as [[h s] l]. unfold clampHSL, hsl_in_range.
  split; [apply normalized_hue_range|].
  split; apply clamp_range; lra.
Qed.

(** [Math.round] of a number between two integers stays between them. *)
Lemma Math_round_bounds (lo hi : Z) (x : Q) :
  inject_Z lo <= x <= inject_Z hi ->
  inject_Z lo <= inject_Z (Math_round x) <= inject_Z hi.
Proof.
  intros [Hlo Hhi]. unfold Math_round. rewrite <- !Zle_Qle. split.
  - rewrite <- (Qfloor_Z lo). apply Qfloor_resp_le. lra.
  - assert (H : (Qfloor (x + (1 # 2)) < hi + 1)%Z).
    { rewrite Zlt_Qlt. rewrite inject_Z_plus. change (inject_Z 1) with 1.
      pose proof (Qfloor_le (x + (1 # 2))). lra. }
    lia.
Qed.

Lemma calculateNeutralHSL_in_range (base : HSL) (level : Z) :
  hsl_in_range base -> hsl_in_range (calculateNeutralHSL base level).
Proof.
  destruct base as [[h s] l]. unfold hsl_in_range.
  intros (Hh & Hs & Hl). unfold calculateNeutralHSL.
  split; [exact Hh|]. split.
  - destruct ((level <=? 100)%Z || (700 <=? level)%Z).
    + unfold Math_max. js_case; lra.
    + exact Hs.
  - match goal with
    | |- context [Math_round ?x] =>
        pose proof (Math_round_bounds 28 95 x) as Hr
    end.
    change (inject_Z 28) with 28 in Hr. change (inject_Z 95) with 95 in Hr.
    assert (H : 28 <= 95) by lra.
    specialize (Hr (clamp_range 28 95 _ H)). lra.
Qed.

Lemma calculateHSL_in_range (base : HSL) (level : Z) :
  hsl_in_range base -> hsl_in_range (calculateHSL base level).
Proof.
  intros Hb. unfold calculateHSL.
  destruct (level =? 400)%Z; [exact Hb|].
  destruct (isNeutralColor base).
  - now apply calculateNeutralHSL_in_range.
  - destruct base as [[h s] l]. unfold calculateNonNeutralHSL.
    destruct (level <? 400)%Z; cbv beta iota zeta; apply clampHSL_in_range.
Qed.

End RangeFacts.

(* ================================================================== *)
(** * Facts about sorting, de-duplication and counted loops *)
(* ================================================================== *)

Module ListFacts.

Section Sorting.
Context {A : Type} (key : A -> Q).

Lemma insert_by_In x y xs :
  In y (insert_by key x xs) <-> y = x \/ In y xs.
Proof.
  induction xs as [|z zs IH]; simpl; [intuition|].
  destruct (key x <? key z); simpl; rewrite ?IH; intuition.
Qed.

Lemma fold_insert_In y xs acc :
  In y (fold_left (fun acc x => insert_by key x acc) xs acc)
  <-> In y xs \/ In y acc.
Proof.
  revert acc. induction xs as [|x xs IH]; intros acc; simpl; [intuition|].
  rewrite IH, insert_by_In. intuition.
Qed.

Lemma sort_by_In y xs : In y (sort_by key xs) <-> In y xs.
Proof. unfold sort_by. rewrite fold_insert_In. simpl. intuition. Qed.

Lemma Forall_sort_by (P : A -> Prop) xs :
  Forall P xs -> Forall P (sort_by key xs).
Proof.
  rewrite !Forall_forall. intros H y Hy. apply H.
  exact (proj1 (sort_by_In y xs) Hy).
Qed.
End Sorting.

Lemma dedupe_fuel_In fuel xs y : In y (dedupe_fuel fuel xs) -> In y xs.
Proof.
  revert xs. induction fuel as [|fuel IH]; intros xs; simpl; [intros []|].
  destruct xs as [|x rest]; [intros []|].
  intros [<-|Hin]; [now left|]. right.
  apply IH in Hin. now apply filter_In in Hin.
Qed.

Lemma Forall_dedupe (P : Q -> Prop) xs : Forall P xs -> Forall P (dedupe xs).
Proof.
  rewrite !Forall_forall. intros H y Hy. apply H.
  now apply (dedupe_fuel_In (List.length xs)).
Qed.

(** Every value a counted loop visits lies between its start and its
    limit. *)
Lemma for_up_fuel_bounds fuel start limit step i :
  0 <= step -> In i (for_up_fuel fuel start limit step) ->
  start <= i /\ i <= limit.
Proof.
  intros Hstep. revert start. induction fuel as [|fuel IH]; intros start; simpl.
  - intros [].
  - js_case; [|intros []]. intros [<-|Hin]; [lra|].
    apply IH in Hin. lra.
Qed.

Lemma for_up_bounds start limit step i :
  In i (for_up start limit step) -> 0 < step /\ start <= i /\ i <= limit.
Proof.
  unfold for_up. js_case; [|intros []]. intros Hin.
  split; [assumption|]. apply for_up_fuel_bounds in Hin; lra.
Qed.

Lemma for_down_bounds start limit step i :
  In i (for_down start limit step) -> 0 < step /\ limit <= i /\ i <= start.
Proof.
  unfold for_down. intros Hin. apply in_map_iff in Hin as (j & <- & Hj).
  apply for_up_bounds in Hj. lra.
Qed.

End ListFacts.

(** The colour of scenario A. *)
Example rgbToHSL_scenario_A : rgbToHSL (55, 145, 198)%Z = (202, 57, 50).
Proof. vm_compute. reflexivity. Qed.


(* ================================================================== *)
(** * The scale generator *)
(* ================================================================== *)

Module ScaleFacts.

(** A successful lookup returns one of the registered configurations. *)
Lemma lookup_configuration_In table configuration config :
  lookup_configuration table configuration = Some config ->
  In config (map snd table).
Proof.
  induction table as [|[k c] rest IH]; simpl; [discriminate|].
  destruct (String.eqb k configuration).
  - intros [= ->]. now left.
  - intros H. right. now apply IH.
Qed.

(** Every registered configuration lists distinct levels, 400 among them,
    and 400 is its base level. *)
Lemma registered_configurations config :
  In config (map snd SCALE_CONFIGURATIONS) ->
  NoDup (levels config) /\ In 400%Z (levels config) /\
  getBaseLevelForConfiguration (levels config) = Some 400%Z.
Proof.
  simpl. intros [<-|[<-|[<-|[<-|[]]]]]; (split; [|split; [|reflexivity]]);
    simpl; try tauto;
    repeat (constructor; [simpl; intuition discriminate|]); constructor.
Qed.

Lemma level_colorObjectFor clamped base l :
  level (colorObjectFor clamped base l) = l.
Proof. reflexivity. Qed.

Lemma hsl_colorObjectFor_base clamped b :
  hsl (colorObjectFor clamped (Some b) b) = clamped.
Proof.
  change (hsl (colorObjectFor clamped (Some b) b))
    with (if (b =? b)%Z then clamped else calculateHSL clamped b).
  now rewrite Z.eqb_refl.
Qed.

Lemma hsl_colorObjectFor_cases clamped base l :
  hsl (colorObjectFor clamped base l) = clamped \/
  hsl (colorObjectFor clamped base l) = calculateHSL clamped l.
Proof.
  change (hsl (colorObjectFor clamped base l))
    with (if match base with Some b => (l =? b)%Z | None => false end
          then clamped else calculateHSL clamped l).
  destruct (match base with Some b => (l =? b)%Z | None => false end); auto.
Qed.

Lemma map_level_colorObjectFor clamped base ls :
  map level (map (colorObjectFor clamped base) ls) = ls.
Proof.
  induction ls as [|l ls IH]; [reflexivity|].
  cbn [map]. now rewrite level_colorObjectFor, IH.
Qed.

End ScaleFacts.

(** C1.  For every input HSL colour and every recognised configuration,
    [createColorScale] succeeds, the configuration's base level is resolved
    (it is 400, which every registered configuration lists), the scale has a
    swatch at that level, and the HSL value of any swatch at that level is
    [clampHSL] of the input, as the very same triple: it is never
    interpolated or rounded. *)
Theorem createColorScale_base_swatch
        (baseHSL : HSL) (configuration : string) (config : ScaleConfiguration) :
  lookup_configuration SCALE_CONFIGURATIONS configuration = Some config ->
  exists scale baseLevel,
    createColorScale baseHSL configuration = Ok scale /\
    getBaseLevelForConfiguration (levels config) = Some baseLevel /\
    (exists c, In c scale /\ level c = baseLevel) /\
    (forall c, In c scale -> level c = baseLevel -> hsl c = clampHSL baseHSL).
Proof.
  intros Hlookup.
  destruct (ScaleFacts.registered_configurations config
              (ScaleFacts.lookup_configuration_In _ _ _ Hlookup))
    as (_ & H400 & Hbase).
  unfold createColorScale. rewrite Hlookup, Hbase.
  exists (map (colorObjectFor (clampHSL baseHSL) (Some 400%Z)) (levels config)).
  exists 400%Z. repeat split.
  - exists (colorObjectFor (clampHSL baseHSL) (Some 400%Z) 400%Z).
    split; [now apply in_map|apply ScaleFacts.level_colorObjectFor].
  - intros c Hin Hlevel. apply in_map_iff in Hin as (l & <- & _).
    rewrite ScaleFacts.level_colorObjectFor in Hlevel. subst l.
    apply ScaleFacts.hsl_colorObjectFor_base.
Qed.

Lemma createColorScale_base_swatch_witness :
  exists scale baseLevel,
    createColorScale (202, 57, 50) "diatonic" = Ok scale /\
    getBaseLevelForConfiguration [100; 200; 300; 400; 500; 600; 700]%Z
      = Some baseLevel /\
    (exists c, In c scale /\ level c = baseLevel) /\
    (forall c, In c scale -> level c = baseLevel ->
               hsl c = clampHSL (202, 57, 50)).
Proof.
  exact (createColorScale_base_swatch (202, 57, 50) "diatonic" _ eq_refl).
Defined.

(** C5.  The neutrality predicate holds exactly when the saturation is
    strictly below 15, and it is the test by which [calculateHSL] chooses
    between the neutral and the non-neutral branch at every level other
    than 400. *)
Theorem isNeutralColor_threshold (h s l : Q) :
  (isNeutralColor (h, s, l) = true <-> s < 15) /\
  (forall level : Z, level <> 400%Z ->
     calculateHSL (h, s, l) level =
       if isNeutralColor (h, s, l)
       then calculateNeutralHSL (h, s, l) level
       else calculateNonNeutralHSL (h, s, l) level).
Proof.
  split.
  - unfold isNeutralColor. apply ltb_true_iff.
  - intros level Hlevel. unfold calculateHSL.
    apply Z.eqb_neq in Hlevel. now rewrite Hlevel.
Qed.

(** C10.  For every input HSL colour and every recognised configuration,
    [createColorScale] returns one swatch per configured level, in the listed
    order (the levels of a configuration are distinct), and the HSL value of
    every swatch has its hue in [0, 360) and its saturation and lightness in
    [0, 100], whichever branch produced it. *)
Theorem createColorScale_levels_in_range
        (baseHSL : HSL) (configuration : string) (config : ScaleConfiguration) :
  lookup_configuration SCALE_CONFIGURATIONS configuration = Some config ->
  exists scale,
    createColorScale baseHSL configuration = Ok scale /\
    map level scale = levels config /\
    NoDup (levels config) /\
    Forall (fun c => hsl_in_range (hsl c)) scale.
Proof.
  intros Hlookup.
  destruct (ScaleFacts.registered_configurations config
              (ScaleFacts.lookup_configuration_In _ _ _ Hlookup))
    as (Hnodup & _ & _).
  unfold createColorScale. rewrite Hlookup.
  eexists. split; [reflexivity|]. split; [|split; [exact Hnodup|]].
  - apply ScaleFacts.map_level_colorObjectFor.
  - apply Forall_forall. intros c Hin.
    apply in_map_iff in Hin as (l & <- & _).
    pose proof (RangeFacts.clampHSL_in_range baseHSL) as Hclamped.
    destruct (ScaleFacts.hsl_colorObjectFor_cases
                (clampHSL baseHSL)
                (getBaseLevelForConfiguration (levels config)) l) as [-> | ->].
    + exact Hclamped.
    + now apply RangeFacts.calculateHSL_in_range.
Qed.

Lemma createColorScale_levels_in_range_witness :
  exists scale,
    createColorScale (0, 5, 50) "chromatic" = Ok scale /\
    map level scale = [50; 100; 200; 300; 400; 500; 600; 700; 800]%Z /\
    NoDup [50; 100; 200; 300; 400; 500; 600; 700; 800]%Z /\
    Forall (fun c => hsl_in_range (hsl c)) scale.
Proof.
  exact (createColorScale_levels_in_range (0, 5, 50) "chromatic" _ eq_refl).
Defined.

(* ================================================================== *)
(** * The dark-mode mirror *)
(* ================================================================== *)

Import DarkModeGenerator.

Module DarkFacts.

Lemma mapping_get_set_same mapping key value :
  mapping_get (mapping_set mapping key value) key = Some value.
Proof.
  induction mapping as [|[k v] rest IH]; simpl.
  - now rewrite Z.eqb_refl.
  - destruct (key =? k)%Z eqn:E; simpl.
    + now rewrite E.
    + destruct (key <? k)%Z; simpl; [now rewrite Z.eqb_refl|].
      now rewrite E.
Qed.

Lemma mapping_get_set_defined mapping key value key' :
  mapping_get mapping key' <> None ->
  mapping_get (mapping_set mapping key value) key' <> None.
Proof.
  induction mapping as [|[k v] rest IH]; simpl; [congruence|].
  destruct (key =? k)%Z eqn:E; simpl.
  - destruct (key' =? k)%Z; [congruence|auto].
  - destruct (key <? k)%Z; simpl.
    + destruct (key' =? key)%Z; [congruence|auto].
    + destruct (key' =? k)%Z; [congruence|auto].
Qed.

(** A callback that only ever assigns [mapping[level]] leaves an entry
    for every level it visits. *)
Lemma forEach_indexed_defined
      (f : LevelMapping -> Z -> nat -> LevelMapping) :
  (forall acc l i, exists v, f acc l i = mapping_set acc l v) ->
  forall ls i acc x,
    In x ls \/ mapping_get acc x <> None ->
    mapping_get (forEach_indexed f ls i acc) x <> None.
Proof.
  intros Hf. induction ls as [|l ls IH]; intros i acc x; simpl.
  - intros [[]|H]; exact H.
  - intros H. apply IH. destruct (Hf acc l i) as (v & ->).
    destruct H as [[->|H]|H]; auto.
    + right. rewrite mapping_get_set_same. discriminate.
    + right. now apply mapping_get_set_defined.
Qed.

(** The mapping has an entry for every level of the scale it was built
    from, so [generateDarkModeScale] never reads [undefined] from it. *)
Lemma mapping_get_defined (lightModeScale : list ColorObject) lightColor :
  In lightColor lightModeScale ->
  mapping_get (createDarkModeLevelMapping lightModeScale) (level lightColor)
    <> None.
Proof.
  intros Hin. unfold createDarkModeLevelMapping.
  assert (Hl : In (level lightColor)
                  (sort_by inject_Z (map level lightModeScale))).
  { apply ListFacts.sort_by_In. now apply in_map. }
  destruct (indexOf _ 400%Z);
    apply forEach_indexed_defined; auto; intros acc l i.
  - destruct (l =? 400)%Z; [|destruct (i <? n)%nat]; eexists; reflexivity.
  - eexists; reflexivity.
Qed.

(** The mapping only depends on the levels of the scale. *)
Lemma createDarkModeLevelMapping_levels (s1 s2 : list ColorObject) :
  map level s1 = map level s2 ->
  createDarkModeLevelMapping s1 = createDarkModeLevelMapping s2.
Proof. unfold createDarkModeLevelMapping. now intros ->. Qed.

(** The HSL value [generateDarkModeScale] gives the counterpart of one
    light swatch. *)
Lemma hsl_darkColorFor light base mapping options lightColor :
  hsl (color (darkColorFor light base mapping options lightColor)) =
    if (level lightColor =? 400)%Z then base
    else
      applyDarkModeAdjustments
        match mapping_get mapping (level lightColor) with
        | Some target =>
            match find (fun c => (level c =? target)%Z) light with
            | Some targetLightColor => hsl targetLightColor
            | None => calculateDarkModeHSL base target (level lightColor)
            end
        | None => undefinedLevelHSL
        end
        (level lightColor) (saturationBoost options)
        (contrastAdjustment options).
Proof.
  unfold darkColorFor. cbn [color hsl].
  now destruct (level lightColor =? 400)%Z.
Qed.

End DarkFacts.

(** C7.  For a scale over the levels 100, 200, ..., 700 (base level 400)
    the dark-mode level mapping is exactly 100->700, 200->600, 300->500,
    400->400, 500->300, 600->200, 700->100, and mapping twice returns every
    level of the configuration to itself. *)
Theorem createDarkModeLevelMapping_diatonic (lightModeScale : list ColorObject) :
  map level lightModeScale = [100; 200; 300; 400; 500; 600; 700]%Z ->
  createDarkModeLevelMapping lightModeScale =
    [(100, 700); (200, 600); (300, 500); (400, 400);
     (500, 300); (600, 200); (700, 100)]%Z /\
  (forall x, In x [100; 200; 300; 400; 500; 600; 700]%Z ->
     exists y,
       mapping_get (createDarkModeLevelMapping lightModeScale) x = Some y /\
       mapping_get (createDarkModeLevelMapping lightModeScale) y = Some x).
Proof.
  intros Hlevels.
  assert (E : createDarkModeLevelMapping lightModeScale =
              [(100, 700); (200, 600); (300, 500); (400, 400);
               (500, 300); (600, 200); (700, 100)]%Z).
  { unfold createDarkModeLevelMapping. rewrite Hlevels. reflexivity. }
  split; [exact E|]. rewrite E. intros x Hx. simpl in Hx.
  repeat (destruct Hx as [<-|Hx]; [eexists; split; reflexivity|]).
  destruct Hx.
Qed.

Lemma createDarkModeLevelMapping_diatonic_witness :
  createDarkModeLevelMapping scenarioA_lightScale =
    [(100, 700); (200, 600); (300, 500); (400, 400);
     (500, 300); (600, 200); (700, 100)]%Z /\
  (forall x, In x [100; 200; 300; 400; 500; 600; 700]%Z ->
     exists y,
       mapping_get (createDarkModeLevelMapping scenarioA_lightScale) x = Some y /\
       mapping_get (createDarkModeLevelMapping scenarioA_lightScale) y = Some x).
Proof.
  exact (createDarkModeLevelMapping_diatonic scenarioA_lightScale eq_refl).
Defined.

(** C3, refuted as stated.  In the dark scale built from the scenario-A
    light scale with the default options, the swatch of level 100 is mapped
    to level 700, the light scale has a swatch at level 700, and yet the two
    HSL values differ: the light swatch is (202, 81, 30.5), the dark one
    (202, 86, 71.5). *)
Lemma generateDarkModeScale_not_pure_mirror :
  exists d c,
    In d (generateDarkModeScale scenarioA_lightScale (202, 57, 50) defaultOptions) /\
    level (color d) = 100%Z /\
    mapping_get (createDarkModeLevelMapping scenarioA_lightScale) 100 = Some 700%Z /\
    find (fun c => (level c =? 700)%Z) scenarioA_lightScale = Some c /\
    hsl_eq (hsl c) (202, 81, 30.5) /\
    hsl_eq (hsl (color d)) (202, 86, 71.5) /\
    ~ hsl_eq (hsl (color d)) (hsl c).
Proof.
  exists (darkColorFor scenarioA_lightScale (202, 57, 50)
            (createDarkModeLevelMapping scenarioA_lightScale) defaultOptions
            (colorObjectFor (clampHSL (202, 57, 50)) (Some 400%Z) 100%Z)).
  exists (colorObjectFor (clampHSL (202, 57, 50)) (Some 400%Z) 700%Z).
  split; [left; reflexivity|].
  split; [reflexivity|].
  split; [reflexivity|].
  split; [reflexivity|].
  rewrite DarkFacts.hsl_darkColorFor.
  split; [vm_compute; repeat split; reflexivity|].
  split; [vm_compute; repeat split; reflexivity|].
  vm_compute. intros (_ & H & _). discriminate H.
Qed.

(** C3, as amended.  In the dark scale built from a light scale, the swatch
    of level 400 carries the caller-supplied dark base colour itself (the
    accessible base when one is given and requested, the base colour
    otherwise).  For every other level whose mapped level has a swatch in the
    light scale, the dark HSL value is [applyDarkModeAdjustments] of that
    light swatch's HSL value (a saturation boost, a lightness floor or
    ceiling, a contrast stretch, and a clamp), not the light value itself.
    In both cases the RGB and hex forms are recomputed from the dark HSL
    value. *)
Theorem generateDarkModeScale_values
        (lightModeScale : list ColorObject) (baseHSL : HSL) (options : Options)
        (d : DarkColorObject) :
  In d (generateDarkModeScale lightModeScale baseHSL options) ->
  (level (color d) = 400%Z ->
     hsl (color d) =
       match accessibleBaseHSL options with
       | Some accessible =>
           if useAccessibleBase options then accessible else baseHSL
       | None => baseHSL
       end) /\
  (level (color d) <> 400%Z ->
     forall target c,
       mapping_get (createDarkModeLevelMapping lightModeScale) (level (color d))
         = Some target ->
       find (fun c => (level c =? target)%Z) lightModeScale = Some c ->
       hsl (color d) =
         applyDarkModeAdjustments (hsl c) (level (color d))
                                  (saturationBoost options)
                                  (contrastAdjustment options)) /\
  rgb (color d) = hslToRgb (hsl (color d)) /\
  hex (color d) = hslToHex (hsl (color d)).
Proof.
  unfold generateDarkModeScale. intros Hin.
  apply in_map_iff in Hin as (lightColor & <- & _).
  split; [|split; [|split; reflexivity]];
    rewrite DarkFacts.hsl_darkColorFor;
    change (level (color (darkColorFor _ _ _ _ lightColor)))
      with (level lightColor).
  - intros ->. reflexivity.
  - intros Hlevel target c Hget Hfind.
    apply Z.eqb_neq in Hlevel. now rewrite Hlevel, Hget, Hfind.
Qed.

Lemma generateDarkModeScale_values_witness :
  let d :=
    darkColorFor scenarioA_lightScale (202, 57, 50)
                 (createDarkModeLevelMapping scenarioA_lightScale) defaultOptions
                 (colorObjectFor (clampHSL (202, 57, 50)) (Some 400%Z) 100%Z) in
  In d (generateDarkModeScale scenarioA_lightScale (202, 57, 50) defaultOptions) /\
  (level (color d) = 400%Z -> hsl (color d) = (202, 57, 50)) /\
  (level (color d) <> 400%Z ->
     forall target c,
       mapping_get (createDarkModeLevelMapping scenarioA_lightScale)
                   (level (color d)) = Some target ->
       find (fun c => (level c =? target)%Z) scenarioA_lightScale = Some c ->
       hsl (color d) = applyDarkModeAdjustments (hsl c) (level (color d)) 5 0.1) /\
  rgb (color d) = hslToRgb (hsl (color d)) /\
  hex (color d) = hslToHex (hsl (color d)).
Proof.
  intros d. split; [left; reflexivity|].
  apply (generateDarkModeScale_values
           scenarioA_lightScale (202, 57, 50) defaultOptions d).
  left; reflexivity.
Defined.

(* ================================================================== *)
(** * The contrast law *)
(* ================================================================== *)

Module ContrastFacts.

Lemma In_channelValues (v : Z) : (0 <= v <= 255)%Z -> In v channelValues.
Proof.
  intros Hv. unfold channelValues.
  rewrite <- (Z2Nat.id v) by lia. apply in_map. apply in_seq. lia.
Qed.

(** The linearised value of every channel is in [0, 1]; checked on each
    of the 256 channel values. *)
Lemma linearize_table :
  forallb (fun v => (0 <=? linearize v) && (linearize v <=? 1)) channelValues
  = true.
Proof. vm_compute. reflexivity. Qed.

Lemma linearize_range (v : Z) :
  (0 <= v <= 255)%Z -> 0 <= linearize v /\ linearize v <= 1.
Proof.
  intros Hv. pose proof linearize_table as H.
  rewrite forallb_forall in H. specialize (H v (In_channelValues v Hv)).
  apply andb_true_iff in H as [H0 H1].
  split; now apply leb_true_iff.
Qed.

Lemma calculateLuminance_range (rgb : RGB) :
  rgb_in_range rgb ->
  0 <= calculateLuminance rgb /\ calculateLuminance rgb <= 1.
Proof.
  destruct rgb as [[r g] b]. intros (Hr & Hg & Hb).
  unfold calculateLuminance.
  pose proof (linearize_range r Hr). pose proof (linearize_range g Hg).
  pose proof (linearize_range b Hb). lra.
Qed.

Lemma Math_max_comm (a b : Q) : Math_max a b == Math_max b a.
Proof. unfold Math_max. repeat js_case; lra. Qed.

Lemma Math_min_comm (a b : Q) : Math_min a b == Math_min b a.
Proof. unfold Math_min. repeat js_case; lra. Qed.

Lemma Math_max_min_order (a b : Q) : Math_min a b <= Math_max a b.
Proof. unfold Math_max, Math_min. repeat js_case; lra. Qed.

Lemma Math_max_min_bounds (a b lo hi : Q) :
  lo <= a <= hi -> lo <= b <= hi ->
  lo <= Math_min a b /\ Math_max a b <= hi.
Proof. unfold Math_max, Math_min. repeat js_case; lra. Qed.

(** The unrounded ratio of two luminances in [0, 1] is in [1, 21]. *)
Lemma ratio_bounds (lighter darker : Q) :
  0 <= darker -> darker <= lighter -> lighter <= 1 ->
  100 <= (lighter + 0.05) / (darker + 0.05) * 100 <= 2100.
Proof.
  intros H0 H1 H2.
  assert (Hd : 0 < darker + 0.05) by lra.
  assert (Hlo : 1 <= (lighter + 0.05) / (darker + 0.05)).
  { apply Qle_shift_div_l; [exact Hd|lra]. }
  assert (Hhi : (lighter + 0.05) / (darker + 0.05) <= 21).
  { apply Qle_shift_div_r; [exact Hd|lra]. }
  lra.
Qed.

Lemma getContrastRatio_comm (a b : RGB) :
  getContrastRatio a b = getContrastRatio b a.
Proof.
  unfold getContrastRatio, Math_round.
  f_equal. f_equal. apply Qfloor_comp.
  now rewrite (Math_max_comm (calculateLuminance a)),
              (Math_min_comm (calculateLuminance a)).
Qed.

Lemma getContrastRatio_range (a b : RGB) :
  rgb_in_range a -> rgb_in_range b ->
  1 <= getContrastRatio a b /\ getContrastRatio a b <= 21.
Proof.
  intros Ha Hb. unfold getContrastRatio.
  pose proof (calculateLuminance_range a Ha) as La.
  pose proof (calculateLuminance_range b Hb) as Lb.
  pose proof (Math_max_min_order (calculateLuminance a) (calculateLuminance b)).
  pose proof (Math_max_min_bounds (calculateLuminance a) (calculateLuminance b)
                                  0 1 ltac:(lra) ltac:(lra)) as [Hmin Hmax].
  match goal with
  | |- context [Math_round ?x] =>
      pose proof (RangeFacts.Math_round_bounds 100 2100 x) as Hr
  end.
  change (inject_Z 100) with 100 in Hr. change (inject_Z 2100) with 2100 in Hr.
  specialize (Hr (ratio_bounds _ _ Hmin H Hmax)).
  set (n := inject_Z _) in *.
  assert (E : n / 100 == n * (1 # 100)) by field.
  rewrite E. lra.
Qed.

Lemma getContrastRatio_self (x : RGB) :
  rgb_in_range x -> getContrastRatio x x == 1.
Proof.
  intros Hx. unfold getContrastRatio.
  pose proof (calculateLuminance_range x Hx) as [L0 _].
  set (L := calculateLuminance x) in *.
  assert (Emax : Math_max L L = L) by (unfold Math_max; now destruct (L <? L)).
  assert (Emin : Math_min L L = L) by (unfold Math_min; now destruct (L <? L)).
  rewrite Emax, Emin.
  assert (E : (L + 0.05) / (L + 0.05) * 100 == inject_Z 100).
  { change (inject_Z 100) with 100. field. lra. }
  unfold Math_round. rewrite (Qfloor_comp _ _ (Qplus_comp _ _ E _ _ (Qeq_refl _))).
  reflexivity.
Qed.

Lemma getContrastRatio_black_white : getContrastRatio blackRgb whiteRgb == 21.
Proof. vm_compute. reflexivity. Qed.

End ContrastFacts.

(** C6.  For RGB triples [a], [b], [x] with integer channels in [0, 255]:
    the contrast ratio is symmetric in its two arguments, the ratio of a
    colour with itself is 1, the ratio of pure black against pure white is
    21, and every ratio lies in [1, 21]. *)
Theorem getContrastRatio_laws (a b x : RGB) :
  rgb_in_range a -> rgb_in_range b -> rgb_in_range x ->
  getContrastRatio a b = getContrastRatio b a /\
  getContrastRatio x x == 1 /\
  getContrastRatio blackRgb whiteRgb == 21 /\
  (1 <= getContrastRatio a b /\ getContrastRatio a b <= 21).
Proof.
  intros Ha Hb Hx. split; [|split; [|split]].
  - apply ContrastFacts.getContrastRatio_comm.
  - now apply ContrastFacts.getContrastRatio_self.
  - apply ContrastFacts.getContrastRatio_black_white.
  - now apply ContrastFacts.getContrastRatio_range.
Qed.

Lemma getContrastRatio_laws_witness :
  getContrastRatio (55, 145, 198)%Z (255, 255, 255)%Z
    = getContrastRatio (255, 255, 255)%Z (55, 145, 198)%Z /\
  getContrastRatio (0, 0, 0)%Z (0, 0, 0)%Z == 1 /\
  getContrastRatio blackRgb whiteRgb == 21 /\
  (1 <= getContrastRatio (55, 145, 198)%Z (255, 255, 255)%Z /\
   getContrastRatio (55, 145, 198)%Z (255, 255, 255)%Z <= 21).
Proof.
  apply (getContrastRatio_laws (55, 145, 198)%Z (255, 255, 255)%Z (0, 0, 0)%Z);
    unfold rgb_in_range; lia.
Defined.

(* ================================================================== *)
(** * The accessible-colour searches *)
(* ================================================================== *)

Module SearchFacts.

Import UIController.

Section ModeAwareSearch.
Variable originalHSL : HSL.
Variable accessibilityMode : string.

Lemma saturationLoop_accepted h l ss best :
  accepted accessibilityMode best ->
  accepted accessibilityMode (saturationLoop originalHSL accessibilityMode h l ss best).
Proof.
  revert best. induction ss as [|s ss IH]; intros best Hbest; simpl.
  - exact Hbest.
  - destruct (isColorAccessibleByMode _ accessibilityMode) eqn:Hacc.
    + destruct (Accessibility.dist_ltb _ _).
      * destruct (_ <? 30); [exact Hacc|]. apply IH. exact Hacc.
      * now apply IH.
    + now apply IH.
Qed.

Lemma lightnessLoop_accepted h ss ls best :
  accepted accessibilityMode best ->
  accepted accessibilityMode (lightnessLoop originalHSL accessibilityMode h ss ls best).
Proof.
  revert best. induction ls as [|l ls IH]; intros best Hbest; simpl.
  - exact Hbest.
  - pose proof (saturationLoop_accepted h l ss best Hbest) as H.
    destruct (closeEnough _); [exact H|now apply IH].
Qed.

Lemma hueLoop_accepted ss ls hs best :
  accepted accessibilityMode best ->
  accepted accessibilityMode (hueLoop originalHSL accessibilityMode ss ls hs best).
Proof.
  revert best. induction hs as [|h hs IH]; intros best Hbest; simpl.
  - exact Hbest.
  - pose proof (lightnessLoop_accepted h ss ls best Hbest) as H.
    destruct (closeEnough _); [exact H|now apply IH].
Qed.

Lemma findFullyAccessibleColor_accepted mode c :
  findFullyAccessibleColor originalHSL accessibilityMode mode = Ok (Some c) ->
  isColorAccessibleByMode (colorDataOf (hslToRgb c)) accessibilityMode = true.
Proof.
  unfold findFullyAccessibleColor.
  destruct (searchRanges originalHSL mode) as [ranges|]; [|discriminate].
  pose proof (hueLoop_accepted (firstn 6 (saturation ranges))
                               (lightness ranges)
                               (firstn 8 (hue ranges)) None I) as H.
  destruct (hueLoop _ _ _ _ _ _) as [[c' d]|]; [|discriminate].
  simpl. intros [= ->]. exact H.
Qed.
End ModeAwareSearch.

(** Of all the checks, the staged search of accessibility.js runs one
    first: a colour whose score already reaches the target is returned as
    it is. *)
Lemma findAccessibleColor_already_passing originalHSL options :
  Accessibility.targetRatio options
    <= Accessibility.calculateAccessibilityScore
         originalHSL (Accessibility.textColor options) ->
  Accessibility.findAccessibleColor originalHSL options = originalHSL.
Proof.
  intros H. unfold Accessibility.findAccessibleColor. cbn [Accessibility.bestScore Accessibility.initialState].
  apply leb_true_iff in H. now rewrite H.
Qed.

Lemma clampHSL_canonical (hue : Q) :
  clampHSL (Accessibility.getAccessibleColorForHueFamily
              (Accessibility.getHueFamily hue))
  = Accessibility.getAccessibleColorForHueFamily
      (Accessibility.getHueFamily hue).
Proof.
  unfold Accessibility.getHueFamily.
  repeat match goal with
         | |- context [if ?c then _ else _] => destruct c
         end; reflexivity.
Qed.

End SearchFacts.

Module StagedSearchFacts.

Import Accessibility.

(** [hslToRgb] does not see the representation of its components. *)
Lemma hue2rgb_compat p p' q q' t t' :
  p == p' -> q == q' -> t == t' -> hue2rgb p q t == hue2rgb p' q' t'.
Proof.
  intros Hp Hq Ht. unfold hue2rgb.
  rewrite (ltb_compat t t' 0 0 Ht (Qeq_refl 0)).
  destruct (t' <? 0).
  - assert (E : t + 1 == t' + 1) by now rewrite Ht.
    rewrite (ltb_compat 1 1 _ _ (Qeq_refl 1) E).
    destruct (1 <? t' + 1).
    + assert (E' : t + 1 - 1 == t' + 1 - 1) by now rewrite Ht.
      rewrite (ltb_compat _ _ (1/6) (1/6) E' (Qeq_refl _)),
              (ltb_compat _ _ (1/2) (1/2) E' (Qeq_refl _)),
              (ltb_compat _ _ (2/3) (2/3) E' (Qeq_refl _)).
      repeat match goal with |- context [if ?c then _ else _] => destruct c end;
        rewrite ?Hp, ?Hq, ?Ht; reflexivity.
    + rewrite (ltb_compat _ _ (1/6) (1/6) E (Qeq_refl _)),
              (ltb_compat _ _ (1/2) (1/2) E (Qeq_refl _)),
              (ltb_compat _ _ (2/3) (2/3) E (Qeq_refl _)).
      repeat match goal with |- context [if ?c then _ else _] => destruct c end;
        rewrite ?Hp, ?Hq, ?Ht; reflexivity.
  - rewrite (ltb_compat 1 1 _ _ (Qeq_refl 1) Ht).
    destruct (1 <? t').
    + assert (E' : t - 1 == t' - 1) by now rewrite Ht.
      rewrite (ltb_compat _ _ (1/6) (1/6) E' (Qeq_refl _)),
              (ltb_compat _ _ (1/2) (1/2) E' (Qeq_refl _)),
              (ltb_compat _ _ (2/3) (2/3) E' (Qeq_refl _)).
      repeat match goal with |- context [if ?c then _ else _] => destruct c end;
        rewrite ?Hp, ?Hq, ?Ht; reflexivity.
    + rewrite (ltb_compat _ _ (1/6) (1/6) Ht (Qeq_refl _)),
              (ltb_compat _ _ (1/2) (1/2) Ht (Qeq_refl _)),
              (ltb_compat _ _ (2/3) (2/3) Ht (Qeq_refl _)).
      repeat match goal with |- context [if ?c then _ else _] => destruct c end;
        rewrite ?Hp, ?Hq, ?Ht; reflexivity.
Qed.

Lemma hslToRgb_compat (a b : HSL) : hsl_eq a b -> hslToRgb a = hslToRgb b.
Proof.
  destruct a as [[h s] l], b as [[h' s'] l']. intros (Hh & Hs & Hl).
  unfold hslToRgb.
  assert (Es : s / 100 == s' / 100) by now rewrite Hs.
  assert (El : l / 100 == l' / 100) by now rewrite Hl.
  assert (Eh : h / 360 == h' / 360) by now rewrite Hh.
  rewrite (eqb_compat _ _ 0 0 Es (Qeq_refl 0)).
  destruct (s' / 100 =? 0).
  - rewrite (Math_round_compat (l / 100 * 255) (l' / 100 * 255)); [reflexivity|].
    now rewrite El.
  - rewrite (ltb_compat _ _ 0.5 0.5 El (Qeq_refl _)).
    set (q := if l' / 100 <? 0.5 then _ else _).
    set (q' := if l' / 100 <? 0.5 then _ else _).
    assert (Eq : q == q').
    { subst q q'. destruct (l' / 100 <? 0.5); now rewrite Es, El. }
    assert (Ep : 2 * (l / 100) - q == 2 * (l' / 100) - q') by now rewrite El, Eq.
    apply f_equal2; [apply f_equal2|]; apply Math_round_compat;
      apply Qmult_comp; try reflexivity;
      apply hue2rgb_compat; trivial; now rewrite Eh.
Qed.

(** A full turn of hue is the same colour. *)
Lemma hue2rgb_turn (p q : Q) :
  hue2rgb p q (360 / 360 + 1 / 3) == hue2rgb p q (0 / 360 + 1 / 3) /\
  hue2rgb p q (360 / 360) == hue2rgb p q (0 / 360) /\
  hue2rgb p q (360 / 360 - 1 / 3) == hue2rgb p q (0 / 360 - 1 / 3).
Proof.
  unfold hue2rgb. repeat split; repeat js_case; first [closed_absurd | field].
Qed.

Lemma hslToRgb_360 (s l : Q) : hslToRgb (360, s, l) = hslToRgb (0, s, l).
Proof.
  unfold hslToRgb. destruct (s / 100 =? 0); [reflexivity|].
  set (q := if l / 100 <? 0.5 then _ else _).
  set (p := 2 * (l / 100) - q).
  destruct (hue2rgb_turn p q) as (E1 & E2 & E3).
  apply f_equal2; [apply f_equal2|];
    apply Math_round_compat; apply Qmult_comp; try reflexivity; assumption.
Qed.

(** Clamping a colour of the closed range does not change what it looks
    like. *)
Lemma hslToRgb_clampHSL (c : HSL) :
  hsl_in_closed_range c -> hslToRgb (clampHSL c) = hslToRgb c.
Proof.
  destruct c as [[h s] l]. intros ([H0 H1] & Hs & Hl). unfold clampHSL.
  destruct (Qlt_le_dec h 360) as [Hlt|Hge].
  - apply hslToRgb_compat. repeat split.
    + now apply RangeFacts.normalized_hue_small.
    + now apply RangeFacts.clamp_pct.
    + now apply RangeFacts.clamp_pct.
  - assert (E : h == 360) by lra.
    transitivity (hslToRgb (0, s, l)).
    + apply hslToRgb_compat. repeat split.
      * now apply RangeFacts.normalized_hue_360.
      * now apply RangeFacts.clamp_pct.
      * now apply RangeFacts.clamp_pct.
    + rewrite <- hslToRgb_360. apply hslToRgb_compat. repeat split; lra.
Qed.

Lemma score_clampHSL c tc :
  hsl_in_closed_range c ->
  calculateAccessibilityScore (clampHSL c) tc = calculateAccessibilityScore c tc.
Proof.
  intros Hc. unfold calculateAccessibilityScore. now rewrite hslToRgb_clampHSL.
Qed.

(** The candidate generators stay within the closed range. *)
Lemma generateHueRange_ok centerHue tolerance h :
  hue_ok centerHue -> tolerance <= 360 ->
  In h (generateHueRange centerHue tolerance) -> hue_ok h.
Proof.
  intros Hc Ht. unfold generateHueRange. js_case.
  - intros [<-|[]]. exact Hc.
  - intros [<-|Hin]; [exact Hc|].
    apply in_flat_map in Hin as (i & Hi & Hin).
    apply ListFacts.for_up_bounds in Hi. destruct Hc as [Hc0 Hc1].
    destruct Hin as [<-|[<-|[]]].
    + pose proof (RangeFacts.rem_360_nonneg (centerHue + i)).
      unfold hue_ok. lra.
    + pose proof (RangeFacts.rem_360_nonneg (centerHue - i + 360)).
      unfold hue_ok. lra.
Qed.

Lemma generateHueRange_Forall centerHue tolerance :
  hue_ok centerHue -> tolerance <= 360 ->
  Forall hue_ok (generateHueRange centerHue tolerance).
Proof.
  intros Hc Ht. apply Forall_forall. intros h Hh.
  now apply (generateHueRange_ok centerHue tolerance).
Qed.

Lemma generateSmartSaturationRange_ok originalS originalL :
  pct originalS -> Forall pct (generateSmartSaturationRange originalS originalL).
Proof.
  intros HS. unfold generateSmartSaturationRange.
  apply ListFacts.Forall_sort_by, ListFacts.Forall_dedupe.
  cbv zeta. simpl flat_map.
  forall_range; pct_bounds.
Qed.

Lemma generateSmartLightnessRange_ok originalL targetRatio :
  pct originalL -> Forall pct (generateSmartLightnessRange originalL targetRatio).
Proof.
  intros HL. unfold generateSmartLightnessRange.
  apply ListFacts.Forall_sort_by, ListFacts.Forall_dedupe. cbv zeta.
  assert (Hdown : Forall pct (for_down (originalL - 10)
                                (if 7.0 <=? targetRatio then 25 else 35) 10)).
  { apply Forall_forall. intros i Hi. apply ListFacts.for_down_bounds in Hi.
    revert Hi. js_case; intros Hi; pct_bounds. }
  assert (Hup : Forall pct (for_up (originalL + 10)
                              (if 7.0 <=? targetRatio then 75 else 65) 10)).
  { apply Forall_forall. intros i Hi. apply ListFacts.for_up_bounds in Hi.
    revert Hi. js_case; intros Hi; pct_bounds. }
  destruct (50 <? originalL);
    repeat (apply Forall_app; split); trivial;
    forall_range; pct_bounds.
Qed.

Lemma generateSearchRange_ok center min max step :
  min <= center -> center <= max ->
  Forall (fun y => min <= y /\ y <= max) (generateSearchRange center min max step).
Proof.
  intros Hmin Hmax. unfold generateSearchRange.
  apply ListFacts.Forall_sort_by. cbv zeta.
  assert (H : Forall (fun y => min <= y /\ y <= max)
                (flat_map
                   (fun i =>
                      (if min <=? center - i then [center - i] else []) ++
                      (if center + i <=? max then [center + i] else []))
                   (for_up step (Math_max (center - min) (max - center)) step))).
  { apply Forall_flat_map, Forall_forall.
    intros i Hi. apply ListFacts.for_up_bounds in Hi. forall_range; lra. }
  forall_range; trivial; lra.
Qed.

Lemma searchStages_ok original options :
  hsl_in_closed_range original -> Forall stage_ok (searchStages original options).
Proof.
  destruct original as [[h s] l]. intros (Hh & Hs & Hl).
  unfold searchStages.
  assert (P100 : forall c step, pct c ->
                   Forall pct (generateSearchRange c 0 100 step)).
  { intros c step [Hc0 Hc1]. now apply generateSearchRange_ok. }
  assert (H360 : forall step,
                   Forall hue_ok (generateSearchRange h 0 360 step)).
  { intros step. destruct Hh. now apply generateSearchRange_ok. }
  repeat constructor; cbn [hueRange saturationRange lightnessRange];
    repeat match goal with
           | |- Forall _ (if ?c then _ else _) => destruct c
           end;
    auto using generateSmartSaturationRange_ok, generateSmartLightnessRange_ok;
    try (apply generateHueRange_Forall; [assumption|lra]);
    repeat constructor; assumption.
Qed.

Lemma generateHuePreservingFallbacks_ok h s :
  hue_ok h -> pct s ->
  Forall hsl_in_closed_range (generateHuePreservingFallbacks h s).
Proof.
  intros Hh Hs. unfold generateHuePreservingFallbacks.
  pose proof (RangeFacts.rem_360_nonneg (h + 15)).
  pose proof (RangeFacts.rem_360_nonneg (h - 15 + 360)).
  repeat constructor; unfold hue_ok, pct in *; try lra;
    unfold Math_max, Math_min; repeat js_case; lra.
Qed.

(** Every loop of the search keeps the best score equal to the score of
    the best colour. *)
Section StagedSearch.
Variable originalHSL : HSL.
Variable options : Options.

Lemma saturationLoop_consistent h l ss st :
  hue_ok h -> pct l -> Forall pct ss -> consistent options st ->
  consistent options (saturationLoop originalHSL options h l ss st).
Proof.
  intros Hh Hl Hss. revert st.
  induction Hss as [|s ss Hs Hss IH]; intros st Hst; cbn [saturationLoop].
  - exact Hst.
  - cbv zeta. destruct (maxIterations options <? iterations st); [exact Hst|].
    destruct (evaluateColorCandidate _ _ _ _ _ _ _ _ _).
    + match goal with
      | |- consistent options (if ?c then ?a else _) =>
          assert (Ha : consistent options a)
            by (split; [reflexivity|cbn; auto]);
          destruct c; [exact Ha|apply IH; exact Ha]
      end.
    + apply IH. exact Hst.
Qed.

Lemma lightnessLoop_consistent h ss ls st :
  hue_ok h -> Forall pct ss -> Forall pct ls -> consistent options st ->
  consistent options (lightnessLoop originalHSL options h ss ls st).
Proof.
  intros Hh Hss Hls. revert st.
  induction Hls as [|l ls Hl Hls IH]; intros st Hst; cbn [lightnessLoop].
  - exact Hst.
  - cbv zeta.
    pose proof (saturationLoop_consistent h l ss st Hh Hl Hss Hst) as H.
    destruct (closeMatch _); [exact H|now apply IH].
Qed.

Lemma hueLoop_consistent ss ls hs st :
  Forall pct ss -> Forall pct ls -> Forall hue_ok hs -> consistent options st ->
  consistent options (hueLoop originalHSL options ss ls hs st).
Proof.
  intros Hss Hls Hhs. revert st.
  induction Hhs as [|h hs Hh Hhs IH]; intros st Hst; cbn [hueLoop].
  - exact Hst.
  - cbv zeta.
    pose proof (lightnessLoop_consistent h ss ls st Hh Hss Hls Hst) as H.
    destruct (closeMatch _); [exact H|now apply IH].
Qed.

Lemma stageLoop_consistent stages st :
  Forall stage_ok stages -> consistent options st ->
  consistent options (stageLoop originalHSL options stages st).
Proof.
  intros Hstages. revert st.
  induction Hstages as [|stage stages (Hh & Hs & Hl) Hstages IH];
    intros st Hst; cbn [stageLoop].
  - exact Hst.
  - destruct (foundAccessible st); [exact Hst|].
    apply IH. now apply hueLoop_consistent.
Qed.

Lemma fallbackLoop_consistent fallbacks st :
  Forall hsl_in_closed_range fallbacks -> consistent options st ->
  consistent options (fallbackLoop originalHSL options fallbacks st).
Proof.
  intros Hf. revert st.
  induction Hf as [|fallback fallbacks Hc Hf IH]; intros st Hst;
    cbn [fallbackLoop].
  - exact Hst.
  - cbv zeta. destruct (_ && _); [split; [reflexivity|exact Hc]|now apply IH].
Qed.

End StagedSearch.

Lemma afterFallbacks_consistent originalHSL options :
  hsl_in_closed_range originalHSL ->
  consistent options (afterFallbacks originalHSL options).
Proof.
  intros Hok. unfold afterFallbacks, afterStages.
  assert (H : consistent options
                (stageLoop originalHSL options
                           (searchStages originalHSL options)
                           (initialState originalHSL options))).
  { apply stageLoop_consistent; [now apply searchStages_ok|].
    split; [reflexivity|exact Hok]. }
  destruct (_ <? _); [|exact H].
  destruct originalHSL as [[h s] l]. destruct Hok as (Hh & Hs & Hl).
  apply fallbackLoop_consistent; [|exact H].
  now apply generateHuePreservingFallbacks_ok.
Qed.

(** When the search succeeds, the colour it returns reaches the target. *)
Lemma findAccessibleColor_score originalHSL options :
  hsl_in_closed_range originalHSL -> searchSucceeds originalHSL options ->
  targetRatio options
    <= calculateAccessibilityScore (findAccessibleColor originalHSL options)
                                   (textColor options).
Proof.
  intros Hok Hsucc. unfold findAccessibleColor.
  cbn [bestScore initialState].
  destruct (leb_spec (targetRatio options)
              (calculateAccessibilityScore originalHSL (textColor options)))
    as [Hpass|Hfail]; [exact Hpass|].
  destruct Hsucc as [Hpass|Hbest]; [lra|].
  destruct (ltb_spec (bestScore (afterFallbacks originalHSL options))
                     (targetRatio options)) as [Hlt|Hge]; [lra|].
  destruct (afterFallbacks_consistent originalHSL options Hok) as [Escore Hcand].
  rewrite score_clampHSL by exact Hcand. now rewrite <- Escore.
Qed.

(** With text colour "both" and a target of at least 4.5, reaching the
    target means passing the normal- and large-text checks against black or
    against white. *)
Lemma score_both_flags (c : HSL) (target : Q) :
  4.5 <= target ->
  target <= calculateAccessibilityScore c "both" ->
  passesBlackOrWhite (hslToRgb c) = true.
Proof.
  intros Ht Hs. unfold calculateAccessibilityScore in Hs. simpl in Hs.
  unfold passesBlackOrWhite. cbv zeta.
  unfold getContrastInfo. cbn [black white passesNormal passesLarge].
  set (b := getContrastRatio (hslToRgb c) blackRgb) in *.
  set (w := getContrastRatio (hslToRgb c) whiteRgb) in *.
  unfold Math_max in Hs. revert Hs. js_case; intros Hs.
  - apply orb_true_iff. right. apply andb_true_iff.
    split; apply leb_true_iff; lra.
  - apply orb_true_iff. left. apply andb_true_iff.
    split; apply leb_true_iff; lra.
Qed.

End StagedSearchFacts.

(** C2.  The search that takes an accessibility mode and may fail is
    [findFullyAccessibleColor] of ui-controller.js; its mode "full" accepts
    a candidate only when all four flags of its evaluation pass.  For every
    input and every render mode, when the search returns a colour under
    "full", the evaluation of that colour passes the normal-text and the
    large-text check against black and against white. *)
Theorem findFullyAccessibleColor_full_passes
        (originalHSL : HSL) (mode : string) (c : HSL) :
  UIController.findFullyAccessibleColor originalHSL "full" mode = Ok (Some c) ->
  let info := getContrastInfo (hslToRgb c) in
  passesAllFour (hslToRgb c) = true /\
  passesNormal (black info) = true /\ passesLarge (black info) = true /\
  passesNormal (white info) = true /\ passesLarge (white info) = true.
Proof.
  intros H. cbv zeta.
  apply SearchFacts.findFullyAccessibleColor_accepted in H.
  assert (P : passesAllFour (hslToRgb c) = true) by exact H.
  split; [exact P|]. unfold passesAllFour in P. cbv zeta in P.
  apply andb_true_iff in P as [P Hwl]. apply andb_true_iff in P as [P Hwn].
  apply andb_true_iff in P as [Hbn Hbl]. now repeat split.
Qed.

(** On the colour of scenario A the search succeeds in light mode with
    (202, 77, 40), which passes all four checks. *)
Lemma findFullyAccessibleColor_full_passes_witness :
  UIController.findFullyAccessibleColor (202, 57, 50) "full" "light"
    = Ok (Some (202, 77, 40)) /\
  let info := getContrastInfo (hslToRgb (202, 77, 40)) in
  passesAllFour (hslToRgb (202, 77, 40)) = true /\
  passesNormal (black info) = true /\ passesLarge (black info) = true /\
  passesNormal (white info) = true /\ passesLarge (white info) = true.
Proof.
  assert (H : UIController.findFullyAccessibleColor (202, 57, 50) "full" "light"
              = Ok (Some (202, 77, 40))) by (vm_compute; reflexivity).
  split; [exact H|].
  exact (findFullyAccessibleColor_full_passes (202, 57, 50) "light" _ H).
Defined.

(** C9, refuted as stated.  [rgbToHSL] turns rgb(255, 0, 1) into the triple
    (360, 100, 50).  Its score with the default options is 5.25, so
    [findAccessibleColor] returns it unchanged, with a hue of 360, which is
    outside [0, 360). *)
Lemma findAccessibleColor_returns_unclamped_hue :
  rgbToHSL (255, 0, 1)%Z = (360, 100, 50) /\
  Accessibility.findAccessibleColor (360, 100, 50) Accessibility.defaultOptions
    = (360, 100, 50) /\
  ~ hsl_in_range
      (Accessibility.findAccessibleColor (360, 100, 50)
                                         Accessibility.defaultOptions).
Proof.
  assert (H : Accessibility.findAccessibleColor
                (360, 100, 50) Accessibility.defaultOptions = (360, 100, 50))
    by (vm_compute; reflexivity).
  split; [vm_compute; reflexivity|]. split; [exact H|].
  rewrite H. unfold hsl_in_range. intros ((_ & Hh) & _). lra.
Qed.

(** C9, as amended.  [findAccessibleColor] always returns an HSL triple.
    When the score of the input already reaches the target ratio, the result
    is the input triple itself, whatever its components.  Otherwise the
    result has its hue in [0, 360) and its saturation and lightness in
    [0, 100], and when the staged search and the hue-preserving fallbacks
    both leave the best score below the target, it is the canonical swatch
    of the hue family that [getHueFamily] assigns to the input hue. *)
Theorem findAccessibleColor_result
        (originalHSL : HSL) (options : Accessibility.Options) :
  (Accessibility.targetRatio options
     <= Accessibility.calculateAccessibilityScore
          originalHSL (Accessibility.textColor options) ->
   Accessibility.findAccessibleColor originalHSL options = originalHSL) /\
  (Accessibility.calculateAccessibilityScore
     originalHSL (Accessibility.textColor options)
     < Accessibility.targetRatio options ->
   hsl_in_range (Accessibility.findAccessibleColor originalHSL options) /\
   (Accessibility.bestScore (Accessibility.afterFallbacks originalHSL options)
      < Accessibility.targetRatio options ->
    Accessibility.findAccessibleColor originalHSL options =
      Accessibility.getAccessibleColorForHueFamily
        (Accessibility.getHueFamily (fst (fst originalHSL))))).
Proof.
  split; [apply SearchFacts.findAccessibleColor_already_passing|].
  intros Hscore. unfold Accessibility.findAccessibleColor.
  cbn [Accessibility.bestScore Accessibility.initialState].
  destruct (leb_spec (Accessibility.targetRatio options)
                     (Accessibility.calculateAccessibilityScore
                        originalHSL (Accessibility.textColor options)));
    [lra|].
  split; [apply RangeFacts.clampHSL_in_range|].
  intros Hbest. apply ltb_true_iff in Hbest. rewrite Hbest.
  destruct originalHSL as [[h s] l]. apply SearchFacts.clampHSL_canonical.
Qed.

(** With the default options a colour that already passes comes back as it
    is; with a target no colour can reach, the colour of scenario A (hue
    202) comes back as the canonical swatch of its hue family. *)
Lemma findAccessibleColor_result_witness :
  Accessibility.findAccessibleColor (0, 0, 0) Accessibility.defaultOptions
    = (0, 0, 0) /\
  hsl_in_range (Accessibility.findAccessibleColor (202, 57, 50) unreachableTarget) /\
  Accessibility.findAccessibleColor (202, 57, 50) unreachableTarget
    = Accessibility.getAccessibleColorForHueFamily
        (Accessibility.getHueFamily 202).
Proof.
  destruct (findAccessibleColor_result (0, 0, 0) Accessibility.defaultOptions)
    as [Hpass _].
  destruct (findAccessibleColor_result (202, 57, 50) unreachableTarget)
    as [_ Hfail].
  split.
  - apply Hpass. apply leb_true_iff. vm_compute. reflexivity.
  - destruct Hfail as [Hrange Hfamily].
    + apply ltb_true_iff. vm_compute. reflexivity.
    + split; [exact Hrange|].
      apply Hfamily. apply ltb_true_iff. vm_compute. reflexivity.
Defined.

(* ================================================================== *)
(** * The RGB -> HSL -> RGB round trip on binary64 *)
(* ================================================================== *)

Module RoundTripFacts.

Import Binary64.

Lemma channelFloats_spec : channelFloats = map channel channels.
Proof. vm_compute. reflexivity. Qed.

Lemma In_channels (v : Z) : (0 <= v <= 255)%Z -> In v channels.
Proof.
  intros Hv. unfold channels.
  rewrite <- (Z2Nat.id v) by lia. apply in_map. apply in_seq. lia.
Qed.

(** What the test establishes, for any bound. *)
Lemma allWithin_sound (k r g b : float) :
  allWithin k = true ->
  In r channelFloats -> In g channelFloats -> In b channelFloats ->
  within k (hslToRgb (rgbToHSL (r, g, b))) (r, g, b) = true.
Proof.
  unfold allWithin. intros H Hr Hg Hb.
  rewrite forallb_forall in H. specialize (H r Hr).
  rewrite forallb_forall in H. specialize (H g Hg).
  rewrite forallb_forall in H. exact (H b Hb).
Qed.

Lemma In_channelFloats (v : Z) :
  (0 <= v <= 255)%Z -> In (channel v) channelFloats.
Proof.
  intros Hv. rewrite channelFloats_spec. apply in_map. now apply In_channels.
Qed.

(** All 16 777 216 triples, each converted to HSL and back. *)
Lemma allWithin_5 : allWithin 5 = true.
Proof. vm_compute. reflexivity. Qed.

End RoundTripFacts.

(** C4, refuted as stated.  rgb(255, 2, 0) becomes hsl(0, 100, 50), which
    converts back to rgb(255, 0, 0): the green channel is off by 2.  The
    triple rgb(2, 228, 230) comes back as rgb(2, 223, 227), off by 5. *)
Lemma rgb_hsl_round_trip_exceeds_1 :
  Binary64.rgbToHSL (255, 2, 0)%float = (0, 100, 50)%float /\
  Binary64.hslToRgb (0, 100, 50)%float = (255, 0, 0)%float /\
  Binary64.roundTripWithin 1 255 2 0 = false /\
  Binary64.hslToRgb (Binary64.rgbToHSL (2, 228, 230)%float)
    = (2, 223, 227)%float /\
  Binary64.roundTripWithin 4 2 228 230 = false.
Proof. vm_compute. repeat split; reflexivity. Qed.

(** C4, as amended.  For every RGB triple with integer channels in
    [0, 255], converting to HSL with [rgbToHSL] and back with [hslToRgb]
    yields a triple in which every channel differs from the original by at
    most 5 (and 5 is reached). *)
Theorem rgb_hsl_round_trip_within_5 (r g b : Z) :
  (0 <= r <= 255)%Z -> (0 <= g <= 255)%Z -> (0 <= b <= 255)%Z ->
  Binary64.roundTripWithin 5 r g b = true.
Proof.
  intros Hr Hg Hb. unfold Binary64.roundTripWithin.
  apply (RoundTripFacts.allWithin_sound 5 _ _ _ RoundTripFacts.allWithin_5);
    now apply RoundTripFacts.In_channelFloats.
Qed.

Lemma rgb_hsl_round_trip_within_5_witness :
  Binary64.roundTripWithin 5 2 228 230 = true.
Proof.
  apply (rgb_hsl_round_trip_within_5 2 228 230); lia.
Defined.

(* ================================================================== *)
(** * C8: the CIEDE2000 distance *)
(* ================================================================== *)

Module FloatFacts.

Import CIEDE2000_binary64.
Local Open Scope float_scope.






End FloatFacts.

Section DeltaE64.
Import CIEDE2000_binary64 FloatFacts.
Local Open Scope float_scope.

End DeltaE64.

Module DeltaEFacts.

Import Reals Lra.
Import CIEDE2000.
Local Open Scope R_scope.











End DeltaEFacts.

Section DeltaE.
Import Reals Lra.
Import CIEDE2000.
Local Open Scope R_scope.


End DeltaE.

(* ================================================================== *)
(** * Ranges of the two conversions *)
(* ================================================================== *)

Module ConversionFacts.

Lemma div_bounds (x d : Q) :
  0 < d -> 0 <= x -> x <= d -> 0 <= x / d /\ x / d <= 1.
Proof.
  intros Hd H0 H1. split.
  - apply Qle_shift_div_l; [exact Hd|lra].
  - apply Qle_shift_div_r; [exact Hd|lra].
Qed.

Lemma div_bounds_sym (x d : Q) :
  0 < d -> - d <= x -> x <= d ->
  -1 <= x / d /\ x / d <= 1 /\ (0 <= x -> 0 <= x / d) /\ (x < 0 -> x / d < 0).
Proof.
  intros Hd H0 H1. repeat split.
  - apply Qle_shift_div_l; [exact Hd|lra].
  - apply Qle_shift_div_r; [exact Hd|lra].
  - intros Hx. apply Qle_shift_div_l; [exact Hd|lra].
  - intros Hx. apply Qlt_shift_div_r; [exact Hd|lra].
Qed.

(** [Math.round] of a number of [0, n] is an integer of [0, n]. *)
Lemma Math_round_range (n : Z) (x : Q) :
  0 <= x -> x <= inject_Z n -> (0 <= Math_round x <= n)%Z.
Proof.
  intros H0 H1.
  pose proof (RangeFacts.Math_round_bounds 0 n x) as Hr.
  change (inject_Z 0) with 0 in Hr.
  rewrite !Zle_Qle. apply Hr. split; assumption.
Qed.

Lemma channel_fraction (v : Z) :
  (0 <= v <= 255)%Z -> 0 <= inject_Z v / 255 /\ inject_Z v / 255 <= 1.
Proof.
  intros [H0 H1]. apply div_bounds; [lra| |].
  - change 0 with (inject_Z 0). now rewrite <- Zle_Qle.
  - change 255 with (inject_Z 255). now rewrite <- Zle_Qle.
Qed.

(** The value of [hue2rgb] lies between its first two arguments. *)
Lemma hue2rgb_between (p q t : Q) :
  p <= q -> -1 <= t -> t <= 2 ->
  p <= hue2rgb p q t /\ hue2rgb p q t <= q.
Proof.
  intros Hpq Ht0 Ht1. unfold hue2rgb.
  change (1 / 6) with (1 # 6). change (1 / 2) with (1 # 2).
  change (2 / 3) with (2 # 3).
  repeat js_case; try lra; nra.
Qed.

Lemma pq_bounds (s l : Q) :
  0 <= s <= 1 -> 0 <= l <= 1 ->
  let q := if l <? 0.5 then l * (1 + s) else l + s - l * s in
  let p := 2 * l - q in
  0 <= p /\ p <= q /\ q <= 1.
Proof.
  intros Hs Hl. cbv zeta. js_case; nra.
Qed.

Lemma hslToRgb_in_range (c : HSL) :
  hsl_in_closed_range c -> rgb_in_range (hslToRgb c).
Proof.
  destruct c as [[h0 s0] l0]. intros ([Hh0 Hh1] & [Hs0 Hs1] & [Hl0 Hl1]).
  unfold hslToRgb.
  pose proof (div_bounds h0 360 ltac:(lra) Hh0 Hh1) as Hh.
  pose proof (div_bounds s0 100 ltac:(lra) Hs0 Hs1) as Hs.
  pose proof (div_bounds l0 100 ltac:(lra) Hl0 Hl1) as Hl.
  set (h := h0 / 360) in *. set (s := s0 / 100) in *. set (l := l0 / 100) in *.
  assert (R : forall x, 0 <= x <= 1 -> (0 <= Math_round (x * 255) <= 255)%Z).
  { intros x Hx. apply Math_round_range; [lra|].
    change (inject_Z 255) with 255. lra. }
  destruct (s =? 0).
  - cbv zeta. unfold rgb_in_range. pose proof (R l Hl). lia.
  - cbv zeta. destruct (pq_bounds s l Hs Hl) as (Hp & Hpq & Hq).
    set (q := if l <? 0.5 then _ else _) in *.
    set (p := 2 * l - q) in *.
    change (1 / 3) with (1 # 3).
    pose proof (hue2rgb_between p q (h + (1 # 3)) Hpq ltac:(lra) ltac:(lra)).
    pose proof (hue2rgb_between p q h Hpq ltac:(lra) ltac:(lra)).
    pose proof (hue2rgb_between p q (h - (1 # 3)) Hpq ltac:(lra) ltac:(lra)).
    unfold rgb_in_range. repeat split; apply R; lra.
Qed.

(** The three components [rgbToHSL] rounds, for fractions of [0, 1]. *)
Lemma max_min_facts (r g b : Q) :
  let mx := Math_max (Math_max r g) b in
  let mn := Math_min (Math_min r g) b in
  (mn <= r /\ r <= mx) /\ (mn <= g /\ g <= mx) /\ (mn <= b /\ b <= mx) /\
  (mn == r \/ mn == g \/ mn == b) /\ (mx == r \/ mx == g \/ mx == b).
Proof.
  cbv zeta. unfold Math_max, Math_min. repeat js_case; repeat split; lra.
Qed.

Lemma rgbToHSL_integers (rgb : RGB) :
  rgb_in_range rgb ->
  exists h s l : Z,
    rgbToHSL rgb = (inject_Z h, inject_Z s, inject_Z l) /\
    (0 <= h <= 360)%Z /\ (0 <= s <= 100)%Z /\ (0 <= l <= 100)%Z.
Proof.
  destruct rgb as [[r0 g0] b0]. intros (Hr & Hg & Hb).
  unfold rgbToHSL.
  pose proof (channel_fraction r0 Hr) as Fr.
  pose proof (channel_fraction g0 Hg) as Fg.
  pose proof (channel_fraction b0 Hb) as Fb.
  set (r := inject_Z r0 / 255) in *.
  set (g := inject_Z g0 / 255) in *.
  set (b := inject_Z b0 / 255) in *.
  pose proof (max_min_facts r g b) as M. cbv zeta in M.
  set (mx := Math_max (Math_max r g) b) in *.
  set (mn := Math_min (Math_min r g) b) in *.
  destruct M as (Mr & Mg & Mb & Mmin & Mmax).
  assert (Hmn : 0 <= mn) by (destruct Mmin as [E|[E|E]]; lra).
  assert (Hmx : mx <= 1) by (destruct Mmax as [E|[E|E]]; lra).
  assert (Hl : (0 <= Math_round ((mx + mn) / 2 * 100) <= 100)%Z).
  { apply Math_round_range.
    - assert (E : (mx + mn) / 2 * 100 == (mx + mn) * 50) by field. lra.
    - assert (E : (mx + mn) / 2 * 100 == (mx + mn) * 50) by field.
      change (inject_Z 100) with 100. lra. }
  destruct (eqb_spec (mx - mn) 0) as [Hd|Hd].
  - exists (Math_round (0 * 360)), (Math_round (0 * 100)),
           (Math_round ((mx + mn) / 2 * 100)).
    split; [reflexivity|]. split; [|split]; [| |exact Hl].
    + vm_compute. split; discriminate.
    + vm_compute. split; discriminate.
  - cbv zeta.
    assert (Hdiff : 0 < mx - mn) by (destruct (Qlt_le_dec 0 (mx - mn)); [assumption|exfalso; apply Hd; lra]).
    eexists _, _, _. split; [reflexivity|]. split; [|split]; [| |exact Hl].
    + (* hue *)
      apply Math_round_range.
      * repeat js_case;
        match goal with
        | |- context [?x / (mx - mn)] =>
            destruct (div_bounds_sym x (mx - mn) Hdiff ltac:(lra) ltac:(lra))
              as (Q0 & Q1 & Q2 & Q3);
            set (qq := x / (mx - mn)) in *
        end;
        match goal with
        | |- 0 <= ?e / 6 * 360 =>
            assert (E : e / 6 * 360 == e * 60) by field; rewrite E
        end; lra.
      * change (inject_Z 360) with 360.
        repeat js_case;
        match goal with
        | |- context [?x / (mx - mn)] =>
            destruct (div_bounds_sym x (mx - mn) Hdiff ltac:(lra) ltac:(lra))
              as (Q0 & Q1 & Q2 & Q3);
            set (qq := x / (mx - mn)) in *
        end;
        match goal with
        | |- ?e / 6 * 360 <= _ =>
            assert (E : e / 6 * 360 == e * 60) by field; rewrite E
        end; lra.
    + (* saturation *)
      apply Math_round_range.
      * js_case.
        -- destruct (div_bounds (mx - mn) (2 - mx - mn)) as [S0 S1]; lra.
        -- destruct (div_bounds (mx - mn) (mx + mn)) as [S0 S1]; lra.
      * change (inject_Z 100) with 100. js_case.
        -- destruct (div_bounds (mx - mn) (2 - mx - mn)) as [S0 S1]; lra.
        -- destruct (div_bounds (mx - mn) (mx + mn)) as [S0 S1]; lra.
Qed.

End ConversionFacts.

(* ================================================================== *)
(** * Black or white text is always readable *)
(* ================================================================== *)

Module ReadabilityFacts.

Lemma luminance_black : calculateLuminance blackRgb == 0.
Proof. vm_compute. reflexivity. Qed.

Lemma luminance_white : calculateLuminance whiteRgb == 1.
Proof. vm_compute. reflexivity. Qed.

Lemma Math_round_lower (lo : Z) (x : Q) :
  inject_Z lo <= x -> inject_Z lo <= inject_Z (Math_round x).
Proof.
  intros Hlo. unfold Math_round. rewrite <- Zle_Qle.
  rewrite <- (Qfloor_Z lo). apply Qfloor_resp_le. lra.
Qed.

(** A ratio of at least 4.5 before rounding is at least 4.5 after it. *)
Lemma rounded_ratio_lower (lighter darker : Q) :
  0 < darker + 0.05 -> 4.5 * (darker + 0.05) <= lighter + 0.05 ->
  4.5 <= inject_Z (Math_round ((lighter + 0.05) / (darker + 0.05) * 100)) / 100.
Proof.
  intros Hd H.
  assert (Hq : 4.5 <= (lighter + 0.05) / (darker + 0.05))
    by (apply Qle_shift_div_l; assumption).
  pose proof (Math_round_lower 450 ((lighter + 0.05) / (darker + 0.05) * 100))
    as Hr.
  change (inject_Z 450) with 450 in Hr. specialize (Hr ltac:(lra)).
  set (n := inject_Z _) in *.
  assert (E : n / 100 == n * (1 # 100)) by field.
  rewrite E. lra.
Qed.

(** A colour at least as light as a mid grey is readable with black text,
    a colour at most that light with white text. *)
Lemma black_ratio_lower (rgb : RGB) :
  rgb_in_range rgb -> 0.175 <= calculateLuminance rgb ->
  4.5 <= getContrastRatio rgb blackRgb.
Proof.
  intros Hrgb HL. unfold getContrastRatio.
  pose proof (ContrastFacts.calculateLuminance_range rgb Hrgb) as [L0 L1].
  pose proof luminance_black as Eb.
  set (L := calculateLuminance rgb) in *.
  set (B := calculateLuminance blackRgb) in *.
  apply rounded_ratio_lower; unfold Math_max, Math_min; repeat js_case; lra.
Qed.

Lemma white_ratio_lower (rgb : RGB) :
  rgb_in_range rgb -> calculateLuminance rgb <= 0.175 ->
  4.5 <= getContrastRatio rgb whiteRgb.
Proof.
  intros Hrgb HL. unfold getContrastRatio.
  pose proof (ContrastFacts.calculateLuminance_range rgb Hrgb) as [L0 L1].
  pose proof luminance_white as Eb.
  set (L := calculateLuminance rgb) in *.
  set (B := calculateLuminance whiteRgb) in *.
  apply rounded_ratio_lower; unfold Math_max, Math_min; repeat js_case; lra.
Qed.

Lemma black_or_white_normal (rgb : RGB) :
  rgb_in_range rgb ->
  4.5 <= getContrastRatio rgb blackRgb \/ 4.5 <= getContrastRatio rgb whiteRgb.
Proof.
  intros Hrgb.
  destruct (Qlt_le_dec (calculateLuminance rgb) 0.175) as [H|H].
  - right. apply white_ratio_lower; [exact Hrgb|lra].
  - left. now apply black_ratio_lower.
Qed.

(** The better of the two ratios reaches 4.5. *)
Lemma score_both_lower (c : HSL) :
  hsl_in_closed_range c ->
  4.5 <= Accessibility.calculateAccessibilityScore c "both".
Proof.
  intros Hc. unfold Accessibility.calculateAccessibilityScore. simpl.
  destruct (black_or_white_normal (hslToRgb c)
              (ConversionFacts.hslToRgb_in_range c Hc));
    unfold Math_max; js_case; lra.
Qed.

(** The colours [createColorScale] produces have channels in [0, 255]. *)
Lemma colorObjectFor_rgb_in_range (base : HSL) (b : option Z) (l : Z) :
  hsl_in_range base -> rgb_in_range (rgb (colorObjectFor base b l)).
Proof.
  intros Hbase. unfold colorObjectFor. cbn [rgb].
  apply ConversionFacts.hslToRgb_in_range.
  assert (H : forall c, hsl_in_range c -> hsl_in_closed_range c).
  { intros [[h s] l0] (Hh & Hs & Hl). unfold hsl_in_closed_range, hue_ok, pct.
    lra. }
  apply H. destruct (match b with Some b0 => (l =? b0)%Z | None => false end).
  - exact Hbase.
  - now apply RangeFacts.calculateHSL_in_range.
Qed.

Lemma validation_fold (colorScale : list ColorObject) acc :
  Forall (fun c => rgb_in_range (rgb c)) colorScale ->
  fold_left
    (fun results color =>
       let contrastInfo := getContrastInfo (rgb color) in
       if negb (passesNormal (black contrastInfo)) &&
          negb (passesNormal (white contrastInfo))
       then
         {| ContrastChecks.overallAccessible := false;
            ContrastChecks.problematicColors :=
              ContrastChecks.problematicColors results ++
              [ {| ContrastChecks.pc_level := level color;
                   ContrastChecks.pc_hex := hex color;
                   ContrastChecks.pc_blackRatio := ratio (black contrastInfo);
                   ContrastChecks.pc_whiteRatio := ratio (white contrastInfo) |} ];
            ContrastChecks.recommendations :=
              ContrastChecks.recommendations results |}
       else results) colorScale acc = acc.
Proof.
  intros H. revert acc. induction H as [|c rest Hc _ IH]; intros acc; simpl.
  - reflexivity.
  - destruct (black_or_white_normal (rgb c) Hc) as [Hb|Hw].
    + apply leb_true_iff in Hb. rewrite Hb. simpl. apply IH.
    + apply leb_true_iff in Hw. rewrite Hw. rewrite andb_false_r. apply IH.
Qed.

End ReadabilityFacts.

(** Converting an HSL triple with hue in [0, 360] and saturation and
    lightness in [0, 100] yields three channels in [0, 255]; with a
    saturation of 0 the three channels are equal (a grey). *)
Theorem hslToRgb_channels (c : HSL) :
  hsl_in_closed_range c ->
  rgb_in_range (hslToRgb c) /\
  (snd (fst c) == 0 ->
   let '(r, g, b) := hslToRgb c in r = g /\ g = b).
Proof.
  intros Hc. split; [now apply ConversionFacts.hslToRgb_in_range|].
  destruct c as [[h s] l]. simpl. intros Hs. unfold hslToRgb.
  assert (E : (s / 100 =? 0) = true).
  { destruct (eqb_spec (s / 100) 0) as [|Hn]; [reflexivity|].
    exfalso. apply Hn. rewrite Hs. reflexivity. }
  rewrite E. split; reflexivity.
Qed.

Lemma hslToRgb_channels_witness :
  rgb_in_range (hslToRgb (202, 57, 50)) /\
  (let '(r, g, b) := hslToRgb (120, 0, 40) in r = g /\ g = b).
Proof.
  split.
  - apply (hslToRgb_channels (202, 57, 50)).
    unfold hsl_in_closed_range, hue_ok, pct. lra.
  - apply (hslToRgb_channels (120, 0, 40)).
    + unfold hsl_in_closed_range, hue_ok, pct. lra.
    + reflexivity.
Defined.

(** For integer channels in [0, 255], [rgbToHSL] returns three integers: a
    hue in [0, 360] (360 included), a saturation and a lightness in
    [0, 100]. *)
Theorem rgbToHSL_range (rgb : RGB) :
  rgb_in_range rgb ->
  exists h s l : Z,
    rgbToHSL rgb = (inject_Z h, inject_Z s, inject_Z l) /\
    (0 <= h <= 360)%Z /\ (0 <= s <= 100)%Z /\ (0 <= l <= 100)%Z.
Proof. apply ConversionFacts.rgbToHSL_integers. Qed.

Lemma rgbToHSL_range_witness :
  exists h s l : Z,
    rgbToHSL (255, 0, 1)%Z = (inject_Z h, inject_Z s, inject_Z l) /\
    (0 <= h <= 360)%Z /\ (0 <= s <= 100)%Z /\ (0 <= l <= 100)%Z.
Proof. apply (rgbToHSL_range (255, 0, 1)%Z). unfold rgb_in_range. lia. Defined.

(** Every colour with channels in [0, 255] passes the normal-text and the
    large-text check against black or against white, and the text colour
    that [getContrastInfo] prefers is one that passes. *)
Theorem getContrastInfo_black_or_white (rgb : RGB) :
  rgb_in_range rgb ->
  passesBlackOrWhite rgb = true /\
  let info := getContrastInfo rgb in
  (preferredText info = "#000000"%string /\ passesNormal (black info) = true) \/
  (preferredText info = "#ffffff"%string /\ passesNormal (white info) = true).
Proof.
  intros Hrgb. unfold passesBlackOrWhite. cbv zeta.
  unfold getContrastInfo. cbn [black white passesNormal passesLarge preferredText].
  pose proof (ReadabilityFacts.black_or_white_normal rgb Hrgb) as H.
  set (b := getContrastRatio rgb blackRgb) in *.
  set (w := getContrastRatio rgb whiteRgb) in *.
  split.
  - apply orb_true_iff. destruct H; [left|right];
      apply andb_true_iff; split; apply leb_true_iff; lra.
  - destruct (ltb_spec w b); [left|right]; (split; [reflexivity|]);
      apply leb_true_iff; lra.
Qed.

Lemma getContrastInfo_black_or_white_witness :
  passesBlackOrWhite (55, 145, 198)%Z = true /\
  let info := getContrastInfo (55, 145, 198)%Z in
  (preferredText info = "#000000"%string /\ passesNormal (black info) = true) \/
  (preferredText info = "#ffffff"%string /\ passesNormal (white info) = true).
Proof.
  apply (getContrastInfo_black_or_white (55, 145, 198)%Z).
  unfold rgb_in_range. lia.
Defined.

(** With text colour "both" and a target ratio of at most 4.5 (the
    defaults), [findAccessibleColor] returns its input unchanged for every
    HSL triple with hue in [0, 360] and saturation and lightness in
    [0, 100]: the better of the black and white ratios always reaches 4.5,
    so the search never starts. *)
Theorem findAccessibleColor_both_returns_input
        (originalHSL : HSL) (options : Accessibility.Options) :
  hsl_in_closed_range originalHSL ->
  Accessibility.textColor options = "both"%string ->
  Accessibility.targetRatio options <= 4.5 ->
  Accessibility.findAccessibleColor originalHSL options = originalHSL.
Proof.
  intros Hc Htext Htarget.
  apply SearchFacts.findAccessibleColor_already_passing.
  rewrite Htext. pose proof (ReadabilityFacts.score_both_lower originalHSL Hc).
  lra.
Qed.

Lemma findAccessibleColor_both_returns_input_witness :
  Accessibility.findAccessibleColor (0, 100, 50) Accessibility.defaultOptions
  = (0, 100, 50).
Proof.
  apply (findAccessibleColor_both_returns_input (0, 100, 50)).
  - unfold hsl_in_closed_range, hue_ok, pct. lra.
  - reflexivity.
  - apply Qle_refl.
Defined.

(** [validateColorScaleAccessibility] finds nothing to report in a scale
    whose colours have channels in [0, 255]: it returns
    [overallAccessible = true] with no problematic colour and no
    recommendation.  This is the case of every scale [createColorScale]
    returns. *)
Theorem validateColorScaleAccessibility_reports_nothing :
  (forall colorScale : list ColorObject,
     Forall (fun c => rgb_in_range (rgb c)) colorScale ->
     ContrastChecks.validateColorScaleAccessibility colorScale =
       {| ContrastChecks.overallAccessible := true;
          ContrastChecks.problematicColors := [];
          ContrastChecks.recommendations := [] |}) /\
  (forall (baseHSL : HSL) (configuration : string) (scale : list ColorObject),
     createColorScale baseHSL configuration = Ok scale ->
     ContrastChecks.validateColorScaleAccessibility scale =
       {| ContrastChecks.overallAccessible := true;
          ContrastChecks.problematicColors := [];
          ContrastChecks.recommendations := [] |}).
Proof.
  assert (A : forall colorScale : list ColorObject,
     Forall (fun c => rgb_in_range (rgb c)) colorScale ->
     ContrastChecks.validateColorScaleAccessibility colorScale =
       {| ContrastChecks.overallAccessible := true;
          ContrastChecks.problematicColors := [];
          ContrastChecks.recommendations := [] |}).
  { intros colorScale H. unfold ContrastChecks.validateColorScaleAccessibility.
    rewrite (ReadabilityFacts.validation_fold colorScale _ H). reflexivity. }
  split; [exact A|].
  intros baseHSL configuration scale H. apply A.
  unfold createColorScale in H.
  destruct (lookup_configuration _ _) as [config|]; [|discriminate].
  injection H as <-. apply Forall_forall. intros c Hc.
  apply in_map_iff in Hc as (l & <- & _).
  apply ReadabilityFacts.colorObjectFor_rgb_in_range.
  apply RangeFacts.clampHSL_in_range.
Qed.

Lemma validateColorScaleAccessibility_reports_nothing_witness :
  ContrastChecks.validateColorScaleAccessibility scenarioA_lightScale =
    {| ContrastChecks.overallAccessible := true;
       ContrastChecks.problematicColors := [];
       ContrastChecks.recommendations := [] |}.
Proof.
  apply (proj2 validateColorScaleAccessibility_reports_nothing
               (202, 57, 50) "diatonic"%string).
  reflexivity.
Defined.

(* ================================================================== *)
(** * More on the dark-mode generator *)
(* ================================================================== *)

Module DarkScaleFacts.

(** Reading an object after one assignment. *)
Lemma mapping_get_set mapping key value k :
  mapping_get (mapping_set mapping key value) k =
    if (k =? key)%Z then Some value else mapping_get mapping k.
Proof.
  induction mapping as [|[k0 v0] rest IH]; simpl.
  - reflexivity.
  - destruct (key =? k0)%Z eqn:E; simpl.
    + apply Z.eqb_eq in E. subst k0. now destruct (k =? key)%Z.
    + destruct (key <? k0)%Z; simpl.
      * reflexivity.
      * rewrite IH. destruct (k =? k0)%Z eqn:E1; [|reflexivity].
        apply Z.eqb_eq in E1. subst k0.
        rewrite Z.eqb_sym in E. now rewrite E.
Qed.

(** A callback that only ever stores values of one kind leaves only
    values of that kind. *)
Lemma forEach_indexed_values (P : Z -> Prop)
      (f : LevelMapping -> Z -> nat -> LevelMapping) :
  (forall acc l i, exists v, f acc l i = mapping_set acc l v /\ P v) ->
  forall ls i acc,
    (forall k v, mapping_get acc k = Some v -> P v) ->
    forall k v, mapping_get (forEach_indexed f ls i acc) k = Some v -> P v.
Proof.
  intros Hf. induction ls as [|l ls IH]; intros i acc Hacc k v; simpl.
  - apply Hacc.
  - apply IH. intros k' v'. destruct (Hf acc l i) as (w & -> & Hw).
    rewrite mapping_get_set. destruct (k' =? l)%Z.
    + now intros [= <-].
    + apply Hacc.
Qed.

Lemma indexOf_nth levels x i :
  indexOf levels x = Some i -> (i < List.length levels)%nat /\ In x levels.
Proof.
  revert i. induction levels as [|y rest IH]; intros i; simpl; [discriminate|].
  destruct (y =? x)%Z eqn:E.
  - intros [= <-]. apply Z.eqb_eq in E. split; [lia|now left].
  - destruct (indexOf rest x) as [j|]; [|discriminate].
    intros [= <-]. destruct (IH j eq_refl). split; [lia|now right].
Qed.

(** Every target of the mapping is a level of the scale. *)
Lemma createDarkModeLevelMapping_target (lightModeScale : list ColorObject) k v :
  mapping_get (createDarkModeLevelMapping lightModeScale) k = Some v ->
  In v (map level lightModeScale).
Proof.
  unfold createDarkModeLevelMapping.
  set (levels := sort_by inject_Z (map level lightModeScale)).
  intros H. apply (ListFacts.sort_by_In inject_Z). fold levels.
  destruct levels as [|l0 rest] eqn:El; [destruct (indexOf _ _); discriminate H|].
  rewrite <- El in *.
  assert (Hlen : (0 < List.length levels)%nat) by (rewrite El; simpl; lia).
  clearbody levels.
  destruct (indexOf levels 400%Z) as [centerIndex|] eqn:Ec;
    revert k v H; apply forEach_indexed_values;
    try (intros k v; discriminate).
  - apply indexOf_nth in Ec as [Hc H400]. intros acc l i.
    destruct (l =? 400)%Z; [|destruct (i <? centerIndex)%nat];
      eexists; (split; [reflexivity|]); trivial; apply nth_In; lia.
  - intros acc l i. eexists. split; [reflexivity|]. apply nth_In. lia.
Qed.

Lemma find_level (scale : list ColorObject) (target : Z) :
  In target (map level scale) ->
  exists c, find (fun c => (level c =? target)%Z) scale = Some c /\
            In c scale /\ level c = target.
Proof.
  induction scale as [|c rest IH]; simpl; [intros []|].
  destruct (level c =? target)%Z eqn:E.
  - intros _. exists c. apply Z.eqb_eq in E. auto.
  - intros [H|H]; [apply Z.eqb_neq in E; contradiction|].
    destruct (IH H) as (c' & Hf & Hin & Hl). exists c'. auto.
Qed.

(** What [applyDarkModeAdjustments] guarantees about the lightness. *)
Lemma applyDarkModeAdjustments_bands (c : HSL) (level : Z)
      (saturationBoost contrastAdjustment : Q) :
  0 <= contrastAdjustment ->
  let '(_, _, l) := applyDarkModeAdjustments c level saturationBoost
                                            contrastAdjustment in
  ((level < 400)%Z -> 65 <= l /\ l <= 100) /\
  ((400 < level)%Z -> 0 <= l /\ l <= 35).
Proof.
  intros Hca. destruct c as [[h s] l]. unfold applyDarkModeAdjustments, clampHSL.
  set (f := 1 + contrastAdjustment).
  assert (Hf : 1 <= f) by (unfold f; lra).
  split; intros Hlevel.
  - apply Z.ltb_lt in Hlevel. rewrite Hlevel.
    assert (H65 : 65 <= Math_max l 65) by (unfold Math_max; js_case; lra).
    set (l1 := Math_max l 65) in *.
    assert (H50 : (50 <? l1) = true) by (apply ltb_true_iff; lra).
    rewrite H50.
    assert (65 <= l1 * f) by nra.
    unfold Math_max, Math_min. repeat js_case; lra.
  - assert (E : (level <? 400)%Z = false) by (apply Z.ltb_ge; lia).
    rewrite E. apply Z.ltb_lt in Hlevel. rewrite Hlevel.
    assert (H35 : Math_min l 35 <= 35) by (unfold Math_min; js_case; lra).
    set (l1 := Math_min l 35) in *.
    assert (H50 : (50 <? l1) = false).
    { destruct (ltb_spec 50 l1); [lra|reflexivity]. }
    rewrite H50.
    assert (Hq : l1 / f <= 35 \/ l1 / f <= 0).
    { destruct (Qlt_le_dec l1 0).
      - right. apply Qle_shift_div_r; lra.
      - left. apply Qle_shift_div_r; [lra|]. nra. }
    set (q := l1 / f) in *.
    unfold Math_max, Math_min. repeat js_case; lra.
Qed.

End DarkScaleFacts.

(** [generateDarkModeScale] returns one swatch per swatch of the light
    scale, with the same levels in the same order.  Every swatch records a
    source level, and the light scale always has a swatch at that level: the
    lookup of the mirrored swatch cannot fail, so the recomputation through
    [calculateDarkModeHSL] is never used, and the value of every swatch
    other than level 400 is [applyDarkModeAdjustments] of a light swatch. *)
Theorem generateDarkModeScale_source_exists
        (lightModeScale : list ColorObject) (baseHSL : HSL) (options : Options) :
  map (fun d => level (color d))
      (generateDarkModeScale lightModeScale baseHSL options)
    = map level lightModeScale /\
  forall d, In d (generateDarkModeScale lightModeScale baseHSL options) ->
    exists target c,
      originalLevel d = Some target /\
      find (fun c => (level c =? target)%Z) lightModeScale = Some c /\
      In c lightModeScale /\
      (level (color d) <> 400%Z ->
       hsl (color d) =
         applyDarkModeAdjustments (hsl c) (level (color d))
                                  (saturationBoost options)
                                  (contrastAdjustment options)).
Proof.
  unfold generateDarkModeScale. split.
  - rewrite map_map. reflexivity.
  - intros d Hin. apply in_map_iff in Hin as (lightColor & <- & Hl).
    pose proof (DarkFacts.mapping_get_defined lightModeScale lightColor Hl) as Hd.
    destruct (mapping_get (createDarkModeLevelMapping lightModeScale)
                          (level lightColor)) as [target|] eqn:Hget;
      [|congruence].
    destruct (DarkScaleFacts.find_level lightModeScale target
                (DarkScaleFacts.createDarkModeLevelMapping_target _ _ _ Hget))
      as (c & Hfind & Hc & _).
    exists target, c. split; [|split; [exact Hfind|split; [exact Hc|]]].
    + unfold darkColorFor. cbn [originalLevel]. exact Hget.
    + rewrite DarkFacts.hsl_darkColorFor.
      change (level (color (darkColorFor _ _ _ _ lightColor)))
        with (level lightColor).
      intros Hlevel. apply Z.eqb_neq in Hlevel.
      now rewrite Hlevel, Hget, Hfind.
Qed.

(** With a non-negative contrast adjustment, every swatch of a generated
    dark scale below level 400 has a lightness in [65, 100] and every
    swatch above level 400 a lightness in [0, 35], whatever the light scale
    holds; all of them other than level 400 are in range. *)
Theorem generateDarkModeScale_lightness_bands
        (lightModeScale : list ColorObject) (baseHSL : HSL) (options : Options)
        (d : DarkColorObject) :
  0 <= contrastAdjustment options ->
  In d (generateDarkModeScale lightModeScale baseHSL options) ->
  let '(_, _, l) := hsl (color d) in
  ((level (color d) < 400)%Z -> 65 <= l /\ l <= 100) /\
  ((400 < level (color d))%Z -> 0 <= l /\ l <= 35) /\
  (level (color d) <> 400%Z -> hsl_in_range (hsl (color d))).
Proof.
  intros Hca Hin. unfold generateDarkModeScale in Hin.
  apply in_map_iff in Hin as (lightColor & <- & _).
  rewrite DarkFacts.hsl_darkColorFor.
  change (level (color (darkColorFor _ _ _ _ lightColor)))
    with (level lightColor).
  destruct (level lightColor =? 400)%Z eqn:E.
  - apply Z.eqb_eq in E. destruct (match accessibleBaseHSL options with
                                   | Some _ => _ | None => _ end) as [[h s] l].
    split; [intros; lia|split; intros; lia].
  - match goal with
    | |- context [applyDarkModeAdjustments ?x ?lv ?sb ?ca] =>
        pose proof (DarkScaleFacts.applyDarkModeAdjustments_bands x lv sb ca Hca)
          as Hb;
        assert (Hr : hsl_in_range (applyDarkModeAdjustments x lv sb ca))
          by (destruct x as [[h0 s0] l0]; apply RangeFacts.clampHSL_in_range);
        destruct (applyDarkModeAdjustments x lv sb ca) as [[h s] l]
    end.
    destruct Hb as [Hlo Hhi].
    split; [exact Hlo|split; [exact Hhi|intros _; exact Hr]].
Qed.

Lemma generateDarkModeScale_lightness_bands_witness :
  let d := darkColorFor scenarioA_lightScale (202, 57, 50)
             (createDarkModeLevelMapping scenarioA_lightScale) defaultOptions
             (colorObjectFor (clampHSL (202, 57, 50)) (Some 400%Z) 100%Z) in
  let '(_, _, l) := hsl (color d) in
  ((level (color d) < 400)%Z -> 65 <= l /\ l <= 100) /\
  ((400 < level (color d))%Z -> 0 <= l /\ l <= 35) /\
  (level (color d) <> 400%Z -> hsl_in_range (hsl (color d))).
Proof.
  intros d.
  apply (generateDarkModeScale_lightness_bands
           scenarioA_lightScale (202, 57, 50) defaultOptions d).
  - vm_compute. discriminate.
  - left. reflexivity.
Defined.

Module MirrorFacts.

(** The mapping of each registered list of levels. *)
Lemma registered_mapping (scale : list ColorObject) config :
  In config (map snd SCALE_CONFIGURATIONS) ->
  map level scale = levels config ->
  let m := createDarkModeLevelMapping scale in
  mapping_get m 400 = Some 400%Z /\
  forall x y, mapping_get m x = Some y ->
    mapping_get m y = Some x /\
    ((x < 400)%Z -> (400 < y)%Z) /\ ((400 < x)%Z -> (y < 400)%Z).
Proof.
  intros Hin Hlevels. cbv zeta. unfold createDarkModeLevelMapping.
  rewrite Hlevels. clear Hlevels scale.
  simpl in Hin. destruct Hin as [<-|[<-|[<-|[<-|[]]]]];
    (split; [reflexivity|]); intros x y; cbn;
    repeat match goal with
           | |- context [(x =? ?k)%Z] =>
               destruct (Z.eqb_spec x k);
               [subst x; intros [= <-]; repeat split; lia|]
           end; discriminate.
Qed.

End MirrorFacts.

(** For a scale of any of the four registered configurations, the dark-mode
    level mapping keeps 400, is its own inverse, and sends every level
    below 400 to one above it and every level above 400 to one below it. *)
Theorem createDarkModeLevelMapping_registered_involution
        (baseHSL : HSL) (configuration : string) (scale : list ColorObject) :
  createColorScale baseHSL configuration = Ok scale ->
  let m := createDarkModeLevelMapping scale in
  mapping_get m 400 = Some 400%Z /\
  forall x y, mapping_get m x = Some y ->
    mapping_get m y = Some x /\
    ((x < 400)%Z -> (400 < y)%Z) /\ ((400 < x)%Z -> (y < 400)%Z).
Proof.
  intros H. unfold createColorScale in H.
  destruct (lookup_configuration SCALE_CONFIGURATIONS configuration)
    as [config|] eqn:Hlookup; [|discriminate].
  injection H as <-.
  apply (MirrorFacts.registered_mapping _ config).
  - exact (ScaleFacts.lookup_configuration_In _ _ _ Hlookup).
  - apply ScaleFacts.map_level_colorObjectFor.
Qed.

Lemma createDarkModeLevelMapping_registered_involution_witness :
  let m := createDarkModeLevelMapping
             (map (colorObjectFor (clampHSL (10, 80, 40))
                     (getBaseLevelForConfiguration [300; 400; 600]%Z))
                  [300; 400; 600]%Z) in
  mapping_get m 400 = Some 400%Z /\
  forall x y, mapping_get m x = Some y ->
    mapping_get m y = Some x /\
    ((x < 400)%Z -> (400 < y)%Z) /\ ((400 < x)%Z -> (y < 400)%Z).
Proof.
  exact (createDarkModeLevelMapping_registered_involution
           (10, 80, 40) "triad" _ eq_refl).
Defined.

(** For a base colour in range, [generateOptimalDarkModeBase] returns a
    colour in range with a saturation that is not lower and a lightness
    between 35 and 65; a hue that is an integer is kept as it is. *)
Theorem generateOptimalDarkModeBase_band (lightBaseHSL : HSL) :
  hsl_in_range lightBaseHSL ->
  let '(h, s, l) := lightBaseHSL in
  let '(h', s', l') := DarkModeSearch.generateOptimalDarkModeBase lightBaseHSL in
  (0 <= h' /\ h' < 360) /\
  (forall z : Z, h == inject_Z z -> h' == inject_Z z) /\
  (s <= s' /\ s' <= 100) /\ (35 <= l' /\ l' <= 65).
Proof.
  destruct lightBaseHSL as [[h s] l]. intros ((Hh0 & Hh1) & (Hs0 & Hs1) & Hl0 & Hl1).
  unfold DarkModeSearch.generateOptimalDarkModeBase, clampHSL.
  assert (Eh : (h %% 360 + 360) %% 360 == h)
    by now apply RangeFacts.normalized_hue_small.
  split; [rewrite Eh; split; assumption|].
  split; [intros z Hz; rewrite Eh; exact Hz|].
  unfold isNeutralColor, Math_max, Math_min.
  split; repeat js_case; cbn [negb]; repeat js_case; lra.
Qed.

Lemma generateOptimalDarkModeBase_band_witness :
  let '(h', s', l') := DarkModeSearch.generateOptimalDarkModeBase (202, 57, 50) in
  (0 <= h' /\ h' < 360) /\
  (forall z : Z, 202 == inject_Z z -> h' == inject_Z z) /\
  (57 <= s' /\ s' <= 100) /\ (35 <= l' /\ l' <= 65).
Proof.
  apply (generateOptimalDarkModeBase_band (202, 57, 50)).
  unfold hsl_in_range. lra.
Defined.

Module DarkSearchFacts.

Import DarkModeSearch.

Section Invariant.
Variable originalHSL : HSL.
Variable lightnesses : list Q.

Lemma saturationLoop_good h l ss best :
  In l lightnesses -> keptPasses lightnesses best ->
  keptPasses lightnesses (saturationLoop originalHSL h l ss best).
Proof.
  intros Hl. revert best.
  induction ss as [|s ss IH]; intros best Hbest; cbn [saturationLoop].
  - exact Hbest.
  - cbv zeta.
    lazymatch goal with
    | |- keptPasses _ (if ?c then _ else _) => destruct c eqn:Hacc
    end.
    + assert (Hnew : forall d, keptPasses lightnesses (Some ((h, s, l), d)))
        by (intros d; split; [exact Hacc|exact Hl]).
      destruct (Accessibility.dist_ltb _ _).
      * destruct (_ <? 25); [apply Hnew|]. apply IH. apply Hnew.
      * now apply IH.
    + now apply IH.
Qed.

Lemma lightnessLoop_good h ss ls best :
  incl ls lightnesses -> keptPasses lightnesses best ->
  keptPasses lightnesses (lightnessLoop originalHSL h ss ls best).
Proof.
  revert best.
  induction ls as [|l ls IH]; intros best Hls Hbest; cbn [lightnessLoop].
  - exact Hbest.
  - cbv zeta.
    pose proof (saturationLoop_good h l ss best (Hls l (or_introl eq_refl)) Hbest)
      as H.
    destruct (closeEnough _); [exact H|].
    apply IH; [|exact H]. intros x Hx. apply Hls. now right.
Qed.

Lemma hueLoop_good ss hs best :
  keptPasses lightnesses best ->
  keptPasses lightnesses (hueLoop originalHSL ss lightnesses hs best).
Proof.
  revert best. induction hs as [|h hs IH]; intros best Hbest; cbn [hueLoop].
  - exact Hbest.
  - cbv zeta.
    pose proof (lightnessLoop_good h ss lightnesses best (incl_refl _) Hbest) as H.
    destruct (closeEnough _); [exact H|now apply IH].
Qed.

Lemma hueLoop_result ss hs c :
  option_map fst (hueLoop originalHSL ss lightnesses hs None) = Some c ->
  passesAllFour (hslToRgb c) = true /\ In (snd c) lightnesses.
Proof.
  pose proof (hueLoop_good ss hs None I) as H.
  destruct (hueLoop _ _ _ _ _) as [[c' d]|]; [|discriminate].
  simpl. intros [= <-]. exact H.
Qed.
End Invariant.

End DarkSearchFacts.

(** When [findFullyAccessibleColorForDarkMode] returns a colour, that
    colour passes all four checks (normal and large text, against black and
    against white) and its lightness is one of 35, 40, 45, 50, 55, 60; it
    returns [null] rather than a colour that fails a check. *)
Theorem findFullyAccessibleColorForDarkMode_passes (originalHSL c : HSL) :
  DarkModeSearch.findFullyAccessibleColorForDarkMode originalHSL = Some c ->
  passesAllFour (hslToRgb c) = true /\
  In (snd c) [35; 40; 45; 50; 55; 60].
Proof.
  unfold DarkModeSearch.findFullyAccessibleColorForDarkMode.
  destruct originalHSL as [[h s] l].
  apply DarkSearchFacts.hueLoop_result.
Qed.

Lemma findFullyAccessibleColorForDarkMode_passes_witness :
  DarkModeSearch.findFullyAccessibleColorForDarkMode (202, 57, 50)
    = Some (202, 77, 40) /\
  passesAllFour (hslToRgb (202, 77, 40)) = true /\
  In (snd (202, 77, 40)) [35; 40; 45; 50; 55; 60].
Proof.
  assert (H : DarkModeSearch.findFullyAccessibleColorForDarkMode (202, 57, 50)
              = Some (202, 77, 40)) by (vm_compute; reflexivity).
  split; [exact H|].
  exact (findFullyAccessibleColorForDarkMode_passes _ _ H).
Defined.

Module InterpolationFacts.

Import DarkModeSearch.

Lemma interpolateLoop_short p light dark :
  (List.length dark < List.length light)%nat ->
  exists message, interpolateLoop p light dark = Throw message.
Proof.
  revert dark.
  induction light as [|lc light IH]; intros dark; cbn [interpolateLoop List.length];
    [lia|].
  destruct dark as [|dc dark]; cbn [List.length]; intros Hlen.
  - eexists. reflexivity.
  - destruct (hsl lc) as [[? ?] ?], (hsl (color dc)) as [[? ?] ?].
    destruct (mixHSLColors _ _ _) as [[? ?] ?].
    destruct (IH dark ltac:(lia)) as (m & ->). eexists. reflexivity.
Qed.

Lemma interpolateLoop_ok p light dark :
  (List.length light <= List.length dark)%nat ->
  exists items,
    interpolateLoop p light dark = Ok items /\
    map (fun i => level (ic_color i)) items = map level light /\
    Forall (fun i => transitionProgress i = p) items /\
    Forall2 (fun i pair =>
               let '(_, s, l) := hsl (ic_color i) in
               let '(_, s1, l1) := hsl (fst pair) in
               let '(_, s2, l2) := hsl (color (snd pair)) in
               s = s1 + (s2 - s1) * p /\ l = l1 + (l2 - l1) * p)
            items (combine light dark).
Proof.
  revert dark.
  induction light as [|lc light IH]; intros dark;
    cbn [interpolateLoop List.length combine map].
  - intros _. exists []. repeat split; constructor.
  - destruct dark as [|dc dark]; cbn [List.length combine]; [lia|]. intros Hlen.
    destruct (hsl lc) as [[h1 s1] l1] eqn:E1.
    destruct (hsl (color dc)) as [[h2 s2] l2] eqn:E2.
    destruct (mixHSLColors _ _ _) as [[mh ms] ml].
    destruct (IH dark ltac:(lia)) as (items & -> & Hlv & Hp & Hv).
    eexists. split; [reflexivity|]. cbn [map ic_color level]. rewrite Hlv.
    split; [reflexivity|]. split; [constructor; [reflexivity|exact Hp]|].
    constructor; [|exact Hv]. cbn [ic_color hsl fst snd]. rewrite E1, E2.
    split; reflexivity.
Qed.

End InterpolationFacts.

(** [interpolateScales] throws when the dark scale is shorter than the
    light one.  Otherwise it returns one swatch per light swatch, with the
    light levels in order, the progress clamped to [0, 1], and a saturation
    and a lightness that are the linear blends, at the clamped progress, of
    the light and dark swatches at the same position. *)
Theorem interpolateScales_shape
        (lightScale : list ColorObject) (darkScale : list DarkColorObject)
        (progress : Q) :
  let p := Math_max 0 (Math_min 1 progress) in
  (0 <= p /\ p <= 1) /\
  ((List.length darkScale < List.length lightScale)%nat ->
   exists message,
     DarkModeSearch.interpolateScales lightScale darkScale progress
     = Throw message) /\
  ((List.length lightScale <= List.length darkScale)%nat ->
   exists items,
     DarkModeSearch.interpolateScales lightScale darkScale progress = Ok items /\
     map (fun i => level (DarkModeSearch.ic_color i)) items
       = map level lightScale /\
     Forall (fun i => DarkModeSearch.transitionProgress i = p) items /\
     Forall2 (fun i pair =>
                let '(_, s, l) := hsl (DarkModeSearch.ic_color i) in
                let '(_, s1, l1) := hsl (fst pair) in
                let '(_, s2, l2) := hsl (color (snd pair)) in
                s = s1 + (s2 - s1) * p /\ l = l1 + (l2 - l1) * p)
             items (combine lightScale darkScale)).
Proof.
  cbv zeta. split; [|split].
  - apply RangeFacts.clamp_range. lra.
  - apply InterpolationFacts.interpolateLoop_short.
  - apply InterpolationFacts.interpolateLoop_ok.
Qed.

Lemma interpolateScales_shape_witness :
  let lightScale := scenarioA_lightScale in
  let darkScale :=
    generateDarkModeScale scenarioA_lightScale (202, 57, 50) defaultOptions in
  let p := Math_max 0 (Math_min 1 (3 # 2)) in
  (exists message,
     DarkModeSearch.interpolateScales lightScale [] (3 # 2) = Throw message) /\
  (exists items,
     DarkModeSearch.interpolateScales lightScale darkScale (3 # 2) = Ok items /\
     map (fun i => level (DarkModeSearch.ic_color i)) items
       = map level lightScale /\
     Forall (fun i => DarkModeSearch.transitionProgress i = p) items /\
     Forall2 (fun i pair =>
                let '(_, s, l) := hsl (DarkModeSearch.ic_color i) in
                let '(_, s1, l1) := hsl (fst pair) in
                let '(_, s2, l2) := hsl (color (snd pair)) in
                s = s1 + (s2 - s1) * p /\ l = l1 + (l2 - l1) * p)
             items (combine lightScale darkScale)).
Proof.
  split.
  - apply (proj1 (proj2 (interpolateScales_shape scenarioA_lightScale []
                                                 (3 # 2)))).
    vm_compute. lia.
  - apply (proj2 (proj2 (interpolateScales_shape scenarioA_lightScale
             (generateDarkModeScale scenarioA_lightScale (202, 57, 50)
                                    defaultOptions)
             (3 # 2)))).
    vm_compute. lia.
Defined.

(* ================================================================== *)
(** * The mirrored dark scale of the interface *)
(* ================================================================== *)

Module ReversedFacts.

Import ReversedScale.

Lemma findIndex_lt scale baseLevel i :
  findIndex scale baseLevel = Some i -> (i < List.length scale)%nat.
Proof.
  revert i. induction scale as [|c rest IH]; intros i; simpl; [discriminate|].
  destruct (level c =? baseLevel)%Z.
  - intros [= <-]. lia.
  - destruct (findIndex rest baseLevel) as [j|]; [|discriminate].
    intros [= <-]. specialize (IH j eq_refl). lia.
Qed.

(** The mirror index is always inside a non-empty scale. *)
Lemma mirrorIndex_lt scale baseLevel index :
  scale <> [] ->
  (mirrorIndex (List.length scale) (findIndex scale baseLevel) index
   < List.length scale)%nat.
Proof.
  intros Hne. assert (0 < List.length scale)%nat
    by (destruct scale; [congruence|simpl; lia]).
  unfold mirrorIndex. destruct (findIndex scale baseLevel) as [c|] eqn:E.
  - apply findIndex_lt in E. destruct (index <? c)%nat; lia.
  - lia.
Qed.

Lemma reversedColorFor_ok sortedScale baseLevel color0 index :
  In color0 sortedScale ->
  exists d,
    reversedColorFor sortedScale baseLevel color0 index = Ok d /\
    level (color d) = level color0 /\ name (color d) = name color0 /\
    isBase (color d) = isBase color0 /\ isDarkMode d = true /\
    exists m, In m sortedScale /\ copiedFrom m d.
Proof.
  intros Hin. unfold reversedColorFor.
  destruct (level color0 =? baseLevel)%Z.
  - eexists. split; [reflexivity|]. repeat split.
    exists color0. split; [exact Hin|]. repeat split.
  - assert (Hne : sortedScale <> []) by (destruct sortedScale; [destruct Hin|congruence]).
    pose proof (mirrorIndex_lt sortedScale baseLevel index Hne) as Hlt.
    destruct (nth_error sortedScale _) as [m|] eqn:E.
    + eexists. split; [reflexivity|]. repeat split.
      exists m. split; [now apply nth_error_In in E|]. repeat split.
    + apply nth_error_None in E. lia.
Qed.

Lemma reversedLoop_ok sortedScale baseLevel colors index :
  incl colors sortedScale ->
  exists dark,
    reversedLoop sortedScale baseLevel colors index = Ok dark /\
    map (fun d => level (color d)) dark = map level colors /\
    map (fun d => name (color d)) dark = map name colors /\
    map (fun d => isBase (color d)) dark = map isBase colors /\
    Forall (fun d => isDarkMode d = true /\
                     exists m, In m sortedScale /\ copiedFrom m d) dark.
Proof.
  revert index. induction colors as [|c rest IH]; intros index Hincl;
    cbn [reversedLoop].
  - exists []. repeat split. constructor.
  - destruct (reversedColorFor_ok sortedScale baseLevel c index
                (Hincl c (or_introl eq_refl)))
      as (d & -> & Hl & Hn & Hb & Hd & Hm).
    destruct (IH (S index) (fun x Hx => Hincl x (or_intror Hx)))
      as (dark & -> & Hls & Hns & Hbs & Hall).
    eexists. split; [reflexivity|]. cbn [map].
    rewrite Hl, Hn, Hb, Hls, Hns, Hbs. repeat split.
    constructor; [split; assumption|exact Hall].
Qed.

End ReversedFacts.

(** [createReversedDarkModeScale] never throws, whatever the light scale.
    It returns one swatch per light swatch, in ascending level order, each
    keeping its level, name and base flag and marked as dark mode; the
    colour values of every swatch (HSL, RGB, hex, ratios and flags) are
    copied unchanged from a swatch of the light scale: nothing is
    recomputed or adjusted. *)
Theorem createReversedDarkModeScale_copies (lightModeScale : list ColorObject) :
  let sortedScale := sort_by (fun c => inject_Z (level c)) lightModeScale in
  exists dark,
    ReversedScale.createReversedDarkModeScale lightModeScale = Ok dark /\
    map (fun d => level (color d)) dark = map level sortedScale /\
    map (fun d => name (color d)) dark = map name sortedScale /\
    map (fun d => isBase (color d)) dark = map isBase sortedScale /\
    Forall (fun d =>
              isDarkMode d = true /\
              exists m, In m lightModeScale /\ copiedFrom m d)
           dark.
Proof.
  cbv zeta. unfold ReversedScale.createReversedDarkModeScale.
  set (sortedScale := sort_by _ lightModeScale).
  set (baseLevel := match find isBase sortedScale with
                    | Some baseColor => level baseColor | None => 400%Z end).
  destruct (ReversedFacts.reversedLoop_ok sortedScale baseLevel sortedScale O
              (incl_refl _)) as (dark & -> & Hl & Hn & Hb & Hall).
  exists dark. repeat split; trivial.
  eapply Forall_impl; [|exact Hall]. cbv beta.
  intros d (Hd & m & Hm & Hc). split; [exact Hd|].
  exists m. split; [|exact Hc].
  exact (proj1 (ListFacts.sort_by_In (fun c => inject_Z (level c)) m lightModeScale) Hm).
Qed.

Module MirrorScaleFacts.

Lemma isBase_colorObjectFor clamped b l :
  isBase (colorObjectFor clamped (Some b) l) = (l =? b)%Z.
Proof. reflexivity. Qed.

(** The mirror of a scale over a registered list of levels, whatever the
    colour values it holds. *)
Lemma mirror_of_levels (cs : list ColorObject) config :
  In config (map snd SCALE_CONFIGURATIONS) ->
  map level cs = levels config ->
  map isBase cs = map (fun l => (l =? 400)%Z) (levels config) ->
  exists dark,
    ReversedScale.createReversedDarkModeScale cs = Ok dark /\
    map (fun d => level (color d)) dark = map level cs /\
    map (fun d => (hsl (color d), rgb (color d), hex (color d))) dark
      = rev (map (fun c => (hsl c, rgb c, hex c)) cs).
Proof.
  intros Hin Hlevels Hbase. simpl in Hin.
  destruct Hin as [<-|[<-|[<-|[<-|[]]]]]; cbn [levels map] in Hlevels, Hbase;
    repeat (destruct cs as [|[? ? ? ? ? ? ? ? ? ? ? ? ?] cs];
            simpl in Hlevels, Hbase; [discriminate Hlevels|];
            injection Hlevels as -> Hlevels; injection Hbase as -> Hbase);
    (destruct cs; simpl in Hlevels; [|discriminate Hlevels]);
    (eexists; split; [reflexivity|split; reflexivity]).
Qed.

End MirrorScaleFacts.

(** For a scale returned by [createColorScale], the dark scale of
    [createReversedDarkModeScale] is the exact mirror: same levels in the
    same order, and the HSL, RGB and hex values of the light scale in
    reverse order. *)
Theorem createReversedDarkModeScale_mirror
        (baseHSL : HSL) (configuration : string) (scale : list ColorObject) :
  createColorScale baseHSL configuration = Ok scale ->
  exists dark,
    ReversedScale.createReversedDarkModeScale scale = Ok dark /\
    map (fun d => level (color d)) dark = map level scale /\
    map (fun d => (hsl (color d), rgb (color d), hex (color d))) dark
      = rev (map (fun c => (hsl c, rgb c, hex c)) scale).
Proof.
  intros H. unfold createColorScale in H.
  destruct (lookup_configuration SCALE_CONFIGURATIONS configuration)
    as [config|] eqn:Hlookup; [|discriminate].
  injection H as <-.
  apply ScaleFacts.lookup_configuration_In in Hlookup.
  destruct (ScaleFacts.registered_configurations config Hlookup)
    as (_ & _ & Hb). rewrite Hb.
  apply (MirrorScaleFacts.mirror_of_levels _ config Hlookup).
  - apply ScaleFacts.map_level_colorObjectFor.
  - rewrite map_map. apply map_ext. intros l.
    apply MirrorScaleFacts.isBase_colorObjectFor.
Qed.

Lemma createReversedDarkModeScale_mirror_witness :
  exists dark,
    ReversedScale.createReversedDarkModeScale scenarioA_lightScale = Ok dark /\
    map (fun d => level (color d)) dark = map level scenarioA_lightScale /\
    map (fun d => (hsl (color d), rgb (color d), hex (color d))) dark
      = rev (map (fun c => (hsl c, rgb c, hex c)) scenarioA_lightScale).
Proof.
  exact (createReversedDarkModeScale_mirror (202, 57, 50) "diatonic" _ eq_refl).
Defined.

(* ================================================================== *)
(** * HEX codes *)
(* ================================================================== *)

Module HexFacts.

Import Hex.

Ltac each_char c :=
  destruct c as [[] [] [] [] [] [] [] []].

(** A hexadecimal digit in upper case: what it is worth, and how it is
    written back. *)
Lemma upper_hex_char (c : ascii) :
  isHexChar (toUpperChar c) = true ->
  (0 <= hexValue (toUpperChar c) <= 15)%Z /\
  toUpperChar (hexDigit (hexValue (toUpperChar c))) = toUpperChar c.
Proof.
  each_char c; try (intros H; discriminate H); intros _;
    (split; [split; discriminate|reflexivity]).
Qed.

Lemma isHexChar_upper (c : ascii) :
  isHexChar c = true -> isHexChar (toUpperChar c) = true.
Proof. each_char c; intros H; try discriminate H; reflexivity. Qed.

Lemma isHexChar_not_hash (c : ascii) :
  isHexChar c = true -> Ascii.eqb c "#" = false.
Proof. each_char c; intros H; try discriminate H; reflexivity. Qed.

(** The digits [toHex] writes. *)
Lemma hexDigit_upper (d : Z) :
  (0 <= d <= 15)%Z ->
  isHexChar (toUpperChar (hexDigit d)) = true /\
  hexValue (toUpperChar (hexDigit d)) = d /\
  Ascii.eqb (hexDigit d) "#" = false.
Proof.
  intros Hd.
  assert (H : In d [0; 1; 2; 3; 4; 5; 6; 7; 8; 9; 10; 11; 12; 13; 14; 15]%Z)
    by (simpl; lia).
  simpl in H.
  repeat (destruct H as [<-|H]; [repeat split|]). destruct H.
Qed.

Lemma toHex_digits (v1 v2 : Z) :
  (0 <= v1 <= 15)%Z -> (0 <= v2 <= 15)%Z ->
  toHex (16 * v1 + v2) = String (hexDigit v1) (String (hexDigit v2) EmptyString).
Proof.
  intros H1 H2. unfold toHex.
  replace (Z.max 0 (Z.min 255 (16 * v1 + v2))) with (v2 + v1 * 16)%Z by lia.
  rewrite Z.div_add by lia. rewrite Z.mod_add by lia.
  rewrite Z.div_small by lia. rewrite Z.mod_small by lia. reflexivity.
Qed.

Lemma removeFirstHash_allHex (s : string) :
  allHex s = true -> removeFirstHash s = s.
Proof.
  induction s as [|c s IH]; simpl; [reflexivity|].
  intros H. apply andb_true_iff in H as [Hc Hs].
  rewrite (isHexChar_not_hash c Hc). now rewrite IH.
Qed.

(** The six characters a successful [hexToRgb] has read. *)
Lemma hexToRgb_digits (hex : string) (rgb : RGB) :
  hexToRgb hex = Some rgb ->
  exists c1 c2 c3 c4 c5 c6 : ascii,
    let u := toUpperChar in
    normalizeHex hex =
      String "#" (String (u c1) (String (u c2) (String (u c3)
        (String (u c4) (String (u c5) (String (u c6) EmptyString)))))) /\
    isHexChar (u c1) = true /\ isHexChar (u c2) = true /\
    isHexChar (u c3) = true /\ isHexChar (u c4) = true /\
    isHexChar (u c5) = true /\ isHexChar (u c6) = true /\
    rgb = (parseHexPair (u c1) (u c2), parseHexPair (u c3) (u c4),
           parseHexPair (u c5) (u c6)).
Proof.
  unfold hexToRgb. destruct hex as [|c0 hex']; [discriminate|].
  unfold normalizeHex.
  set (w := if Nat.eqb _ 3 then _ else _). clearbody w.
  destruct (isValidHex _); [|discriminate]. cbn [negb afterHash].
  change (Ascii.eqb "#" "#") with true. cbv iota.
  destruct w as [|c1 [|c2 [|c3 [|c4 [|c5 [|c6 [|c7 w]]]]]]];
    cbn [toUpperCase]; try discriminate.
  destruct (isHexChar (toUpperChar c1)) eqn:E1; [|discriminate].
  destruct (isHexChar (toUpperChar c2)) eqn:E2; [|discriminate].
  destruct (isHexChar (toUpperChar c3)) eqn:E3; [|discriminate].
  destruct (isHexChar (toUpperChar c4)) eqn:E4; [|discriminate].
  destruct (isHexChar (toUpperChar c5)) eqn:E5; [|discriminate].
  destruct (isHexChar (toUpperChar c6)) eqn:E6; [|discriminate].
  cbn [andb]. intros [= <-].
  exists c1, c2, c3, c4, c5, c6. cbv zeta. repeat split; assumption.
Qed.

Lemma parseHexPair_range (a b : ascii) :
  (0 <= hexValue a <= 15)%Z -> (0 <= hexValue b <= 15)%Z ->
  (0 <= parseHexPair a b <= 255)%Z.
Proof. unfold parseHexPair. lia. Qed.

(** Reading the seven characters [rgbToHex] writes. *)
Lemma hexToRgb_written (a1 a2 b1 b2 c1 c2 : ascii) :
  Ascii.eqb a1 "#" = false -> Ascii.eqb a2 "#" = false ->
  Ascii.eqb b1 "#" = false -> Ascii.eqb b2 "#" = false ->
  Ascii.eqb c1 "#" = false -> Ascii.eqb c2 "#" = false ->
  isHexChar (toUpperChar a1) = true -> isHexChar (toUpperChar a2) = true ->
  isHexChar (toUpperChar b1) = true -> isHexChar (toUpperChar b2) = true ->
  isHexChar (toUpperChar c1) = true -> isHexChar (toUpperChar c2) = true ->
  hexToRgb (String "#" (String a1 (String a2 (String b1
              (String b2 (String c1 (String c2 EmptyString)))))))
  = Some (parseHexPair (toUpperChar a1) (toUpperChar a2),
          parseHexPair (toUpperChar b1) (toUpperChar b2),
          parseHexPair (toUpperChar c1) (toUpperChar c2)).
Proof.
  intros N1 N2 N3 N4 N5 N6 H1 H2 H3 H4 H5 H6.
  unfold hexToRgb, normalizeHex, isValidHex.
  cbn [removeFirstHash]. change (Ascii.eqb "#" "#") with true. cbv iota.
  cbn [String.length Nat.eqb toUpperCase afterHash].
  change (Ascii.eqb "#" "#") with true. cbv iota.
  cbn [allHex String.length Nat.eqb].
  rewrite H1, H2, H3, H4, H5, H6. reflexivity.
Qed.

End HexFacts.

(** Writing a colour with [rgbToHex] and reading it back with [hexToRgb]
    returns the colour with each channel clamped to [0, 255]; a colour with
    channels in [0, 255] comes back unchanged. *)
Theorem hexToRgb_rgbToHex (r g b : Z) :
  let clamp := fun n => Z.max 0 (Z.min 255 n) in
  Hex.hexToRgb (rgbToHex (r, g, b)) = Some (clamp r, clamp g, clamp b) /\
  (rgb_in_range (r, g, b) -> Hex.hexToRgb (rgbToHex (r, g, b)) = Some (r, g, b)).
Proof.
  cbv zeta.
  assert (A : forall n,
             let c := Z.max 0 (Z.min 255 n) in
             (0 <= c / 16 <= 15)%Z /\ (0 <= c mod 16 <= 15)%Z /\
             (16 * (c / 16) + c mod 16 = c)%Z).
  { intros n c. assert (0 <= c <= 255)%Z by (unfold c; lia).
    pose proof (Z.div_mod c 16 ltac:(lia)).
    pose proof (Z.mod_pos_bound c 16 ltac:(lia)).
    assert (0 <= c / 16)%Z by (apply Z.div_pos; lia).
    assert (c / 16 < 16)%Z by (apply Z.div_lt_upper_bound; lia).
    lia. }
  assert (E : Hex.hexToRgb (rgbToHex (r, g, b)) =
              Some (Z.max 0 (Z.min 255 r), Z.max 0 (Z.min 255 g),
                    Z.max 0 (Z.min 255 b))).
  { unfold rgbToHex, toHex. cbn [append].
    destruct (A r) as (R1 & R2 & R3), (A g) as (G1 & G2 & G3),
             (A b) as (B1 & B2 & B3).
    destruct (HexFacts.hexDigit_upper _ R1) as (P1 & Q1 & N1).
    destruct (HexFacts.hexDigit_upper _ R2) as (P2 & Q2 & N2).
    destruct (HexFacts.hexDigit_upper _ G1) as (P3 & Q3 & N3).
    destruct (HexFacts.hexDigit_upper _ G2) as (P4 & Q4 & N4).
    destruct (HexFacts.hexDigit_upper _ B1) as (P5 & Q5 & N5).
    destruct (HexFacts.hexDigit_upper _ B2) as (P6 & Q6 & N6).
    rewrite HexFacts.hexToRgb_written by assumption.
    unfold Hex.parseHexPair. rewrite Q1, Q2, Q3, Q4, Q5, Q6.
    now rewrite R3, G3, B3. }
  split; [exact E|].
  intros (Hr & Hg & Hb). rewrite E.
  apply f_equal. apply f_equal2; [apply f_equal2|]; lia.
Qed.

Lemma hexToRgb_rgbToHex_witness :
  Hex.hexToRgb (rgbToHex (55, 145, 198)%Z) = Some (55, 145, 198)%Z.
Proof.
  apply (proj2 (hexToRgb_rgbToHex 55 145 198)). unfold rgb_in_range. lia.
Defined.

(** Whenever [hexToRgb] returns a colour, its channels are in [0, 255],
    and writing it back with [rgbToHex] gives, after [normalizeHex], the
    normalised form of the text that was read. *)
Theorem hexToRgb_decodes (hex : string) (rgb : RGB) :
  Hex.hexToRgb hex = Some rgb ->
  rgb_in_range rgb /\
  Hex.normalizeHex (rgbToHex rgb) = Hex.normalizeHex hex.
Proof.
  intros H.
  destruct (HexFacts.hexToRgb_digits hex rgb H)
    as (c1 & c2 & c3 & c4 & c5 & c6 & Hn & H1 & H2 & H3 & H4 & H5 & H6 & ->).
  cbv zeta in Hn.
  destruct (HexFacts.upper_hex_char c1 H1) as (V1 & U1).
  destruct (HexFacts.upper_hex_char c2 H2) as (V2 & U2).
  destruct (HexFacts.upper_hex_char c3 H3) as (V3 & U3).
  destruct (HexFacts.upper_hex_char c4 H4) as (V4 & U4).
  destruct (HexFacts.upper_hex_char c5 H5) as (V5 & U5).
  destruct (HexFacts.upper_hex_char c6 H6) as (V6 & U6).
  split.
  - unfold rgb_in_range.
    repeat split; apply HexFacts.parseHexPair_range; lia.
  - rewrite Hn. unfold rgbToHex, Hex.parseHexPair.
    rewrite !HexFacts.toHex_digits by assumption. cbn [append].
    unfold Hex.normalizeHex. cbn [Hex.removeFirstHash].
    change (Ascii.eqb "#" "#") with true. cbv iota.
    destruct (HexFacts.hexDigit_upper _ V1) as (_ & _ & N1).
    destruct (HexFacts.hexDigit_upper _ V2) as (_ & _ & N2).
    destruct (HexFacts.hexDigit_upper _ V3) as (_ & _ & N3).
    destruct (HexFacts.hexDigit_upper _ V4) as (_ & _ & N4).
    destruct (HexFacts.hexDigit_upper _ V5) as (_ & _ & N5).
    destruct (HexFacts.hexDigit_upper _ V6) as (_ & _ & N6).
    cbn [String.length Nat.eqb Hex.toUpperCase].
    now rewrite U1, U2, U3, U4, U5, U6.
Qed.

Lemma hexToRgb_decodes_witness :
  rgb_in_range (170, 187, 204)%Z /\
  Hex.normalizeHex (rgbToHex (170, 187, 204)%Z) = Hex.normalizeHex "abc".
Proof. apply (hexToRgb_decodes "abc" (170, 187, 204)%Z). reflexivity. Defined.

(** Every text that [isValidHex] accepts is read by [hexToRgb]; in the
    three-digit form each digit [d] gives the channel [17 * d]. *)
Theorem isValidHex_hexToRgb (hex : string) :
  Hex.isValidHex hex = true ->
  (exists rgb, Hex.hexToRgb hex = Some rgb) /\
  (forall a b c : ascii,
     Hex.afterHash hex = String a (String b (String c EmptyString)) ->
     Hex.hexToRgb hex =
       Some (17 * Hex.hexValue (Hex.toUpperChar a),
             17 * Hex.hexValue (Hex.toUpperChar b),
             17 * Hex.hexValue (Hex.toUpperChar c))%Z).
Proof.
  intros Hvalid. unfold Hex.isValidHex in Hvalid.
  destruct hex as [|c0 hex'] eqn:Ehex; [discriminate|]. rewrite <- Ehex in *.
  apply andb_true_iff in Hvalid as [Hall Hlen].
  assert (Hrm : Hex.removeFirstHash hex = Hex.afterHash hex).
  { rewrite Ehex. cbn [Hex.removeFirstHash Hex.afterHash].
    destruct (Ascii.eqb c0 "#") eqn:E0; [reflexivity|].
    rewrite Ehex in Hall. cbn [Hex.afterHash] in Hall. rewrite E0 in Hall.
    apply (HexFacts.removeFirstHash_allHex (String c0 hex')) in Hall.
    cbn [Hex.removeFirstHash] in Hall. now rewrite E0 in Hall. }
  assert (Hnorm : Hex.normalizeHex hex =
                  String "#" (Hex.toUpperCase
                                (if Nat.eqb (String.length (Hex.afterHash hex)) 3
                                 then Hex.doubleChars (Hex.afterHash hex)
                                 else Hex.afterHash hex))).
  { rewrite Ehex at 1. unfold Hex.normalizeHex. rewrite <- Ehex. now rewrite Hrm. }
  unfold Hex.hexToRgb. rewrite Hnorm. clear Hnorm Hrm.
  set (body := Hex.afterHash hex) in *. clearbody body. clear Ehex.
  destruct body as [|a [|b [|c [|d [|e [|f [|g body]]]]]]];
    try discriminate Hlen; cbn [Hex.allHex] in Hall.
  - (* three digits *)
    apply andb_true_iff in Hall as [Ha Hall].
    apply andb_true_iff in Hall as [Hb Hall].
    apply andb_true_iff in Hall as [Hc _].
    apply HexFacts.isHexChar_upper in Ha, Hb, Hc.
    cbn [String.length Nat.eqb Hex.doubleChars Hex.toUpperCase].
    unfold Hex.isValidHex. cbn [Hex.afterHash].
    change (Ascii.eqb "#" "#") with true. cbv iota.
    cbn [Hex.allHex String.length Nat.eqb]. rewrite Ha, Hb, Hc. cbn [andb orb negb].
    split; [eexists; reflexivity|].
    intros a' b' c' [= <- <- <-]. unfold Hex.parseHexPair.
    apply f_equal. apply f_equal2; [apply f_equal2|]; lia.
  - (* six digits *)
    apply andb_true_iff in Hall as [Ha Hall].
    apply andb_true_iff in Hall as [Hb Hall].
    apply andb_true_iff in Hall as [Hc Hall].
    apply andb_true_iff in Hall as [Hd Hall].
    apply andb_true_iff in Hall as [He Hall].
    apply andb_true_iff in Hall as [Hf _].
    apply HexFacts.isHexChar_upper in Ha, Hb, Hc, Hd, He, Hf.
    cbn [String.length Nat.eqb Hex.toUpperCase].
    unfold Hex.isValidHex. cbn [Hex.afterHash].
    change (Ascii.eqb "#" "#") with true. cbv iota.
    cbn [Hex.allHex String.length Nat.eqb].
    rewrite Ha, Hb, Hc, Hd, He, Hf. cbn [andb orb negb].
    split; [eexists; reflexivity|]. intros a' b' c' H. discriminate H.
Qed.

Lemma isValidHex_hexToRgb_witness :
  (exists rgb, Hex.hexToRgb "#abc" = Some rgb) /\
  (forall a b c : ascii,
     Hex.afterHash "#abc" = String a (String b (String c EmptyString)) ->
     Hex.hexToRgb "#abc" =
       Some (17 * Hex.hexValue (Hex.toUpperChar a),
             17 * Hex.hexValue (Hex.toUpperChar b),
             17 * Hex.hexValue (Hex.toUpperChar c))%Z).
Proof. apply (isValidHex_hexToRgb "#abc"). reflexivity. Defined.

(* ================================================================== *)
(** * Clamping, mixing and distances *)
(* ================================================================== *)

Module MixFacts.

Lemma Math_round_integer (n : Z) : Math_round (inject_Z n) = n.
Proof.
  unfold Math_round. apply Qfloor_eq.
  - lra.
  - lra.
Qed.

Lemma Math_round_compat_Z (x : Q) (n : Z) :
  x == inject_Z n -> Math_round x = n.
Proof.
  intros E. rewrite (Math_round_compat x (inject_Z n) E).
  apply Math_round_integer.
Qed.

Lemma Math_abs_nonneg (x : Q) : 0 <= Math_abs x.
Proof. unfold Math_abs. js_case; lra. Qed.

Lemma Math_abs_sym (x y : Q) : Math_abs (x - y) == Math_abs (y - x).
Proof. unfold Math_abs. repeat js_case; lra. Qed.

(** The circular hue difference of two hues of [0, 360]. *)
Lemma hueDiff_range (h1 h2 : Q) :
  hue_ok h1 -> hue_ok h2 ->
  let d := Math_abs (h1 - h2) in
  let d := if 180 <? d then 360 - d else d in
  0 <= d /\ d <= 180.
Proof.
  intros [? ?] [? ?]. cbv zeta. unfold Math_abs. repeat js_case; lra.
Qed.

Lemma rem_360_of_nonneg (a : Q) :
  0 <= a -> (if a %% 360 <? 0 then a %% 360 + 360 else a %% 360) == a %% 360.
Proof.
  intros Ha. pose proof (RangeFacts.rem_360_nonneg a Ha). js_case; lra.
Qed.

(** The hue [mixHSLColors] rounds, for hues of [0, 360] and a ratio of
    [0, 1]. *)
Lemma mixed_hue_range (h1 h2 ratio : Q) :
  hue_ok h1 -> hue_ok h2 -> 0 <= ratio -> ratio <= 1 ->
  let h :=
    if 180 <? Math_abs (h2 - h1) then
      let h := if h2 <? h1 then h1 + (360 - h1 + h2) * ratio
               else h1 - (h1 + 360 - h2) * ratio in
      let h := h %% 360 in
      if h <? 0 then h + 360 else h
    else h1 + (h2 - h1) * ratio in
  0 <= h /\ h <= 360.
Proof.
  intros [A0 A1] [B0 B1] R0 R1. cbv zeta.
  destruct (ltb_spec 180 (Math_abs (h2 - h1))) as [Hd|Hd].
  - match goal with
    | |- context [?a %% 360] => pose proof (RangeFacts.rem_360_bounds a)
    end.
    repeat js_case; lra.
  - unfold Math_abs in Hd. revert Hd. js_case; intros Hd; nra.
Qed.

Lemma rem_360_negative (a : Q) : -360 < a -> a < 0 -> a %% 360 == a.
Proof.
  intros H0 H1. unfold rem, trunc.
  assert (E : a / 360 == a * (1 # 360)) by field.
  js_case; [|lra].
  assert (C : Qceiling (a / 360) = 0%Z).
  { unfold Qceiling. rewrite (Qfloor_eq (- (a / 360)) 0); [reflexivity| |];
      change (inject_Z 0) with 0; lra. }
  rewrite C. change (inject_Z 0) with 0. lra.
Qed.

(** The hue at the two ends of the mix. *)
Lemma mixed_hue_ends (h1 h2 : Q) :
  0 <= h1 -> h1 < 360 -> 0 <= h2 -> h2 < 360 ->
  (let ratio := 0 in
   if 180 <? Math_abs (h2 - h1) then
     let h := if h2 <? h1 then h1 + (360 - h1 + h2) * ratio
              else h1 - (h1 + 360 - h2) * ratio in
     let h := h %% 360 in
     if h <? 0 then h + 360 else h
   else h1 + (h2 - h1) * ratio) == h1 /\
  (let ratio := 1 in
   if 180 <? Math_abs (h2 - h1) then
     let h := if h2 <? h1 then h1 + (360 - h1 + h2) * ratio
              else h1 - (h1 + 360 - h2) * ratio in
     let h := h %% 360 in
     if h <? 0 then h + 360 else h
   else h1 + (h2 - h1) * ratio) == h2.
Proof.
  intros A0 A1 B0 B1. cbv zeta. split.
  - destruct (ltb_spec 180 (Math_abs (h2 - h1))) as [Hd|Hd]; [|lra].
    destruct (ltb_spec h2 h1).
    + pose proof (RangeFacts.rem_360_small (h1 + (360 - h1 + h2) * 0)
                    ltac:(lra) ltac:(lra)) as E.
      js_case; lra.
    + pose proof (RangeFacts.rem_360_small (h1 - (h1 + 360 - h2) * 0)
                    ltac:(lra) ltac:(lra)) as E.
      js_case; lra.
  - destruct (ltb_spec 180 (Math_abs (h2 - h1))) as [Hd|Hd]; [|lra].
    unfold Math_abs in Hd.
    destruct (ltb_spec h2 h1).
    + pose proof (RangeFacts.rem_360_once (h1 + (360 - h1 + h2) * 1)
                    ltac:(lra) ltac:(lra)) as E.
      js_case; lra.
    + revert Hd. js_case; intros Hd; [lra|].
      pose proof (rem_360_negative (h1 - (h1 + 360 - h2) * 1)
                    ltac:(lra) ltac:(lra)) as E.
      js_case; lra.
Qed.

Lemma clamp_pct_mix (s1 s2 ratio target : Q) :
  pct target -> s1 + (s2 - s1) * ratio == target ->
  Math_max 0 (Math_min 100 (s1 + (s2 - s1) * ratio)) == target.
Proof.
  intros [T0 T1] E. unfold Math_max, Math_min. repeat js_case; lra.
Qed.

End MixFacts.

(** For a triple whose hue is an integer, [clampHSL] leaves the triple
    unchanged when it is already in range, and clamping twice is the same as
    clamping once. *)
Theorem clampHSL_idempotent (h : Z) (s l : Q) :
  let c := (inject_Z h, s, l) in
  (hsl_in_range c -> hsl_eq (clampHSL c) c) /\
  hsl_eq (clampHSL (clampHSL c)) (clampHSL c).
Proof.
  assert (A : forall c, hsl_in_range c -> hsl_eq (clampHSL c) c).
  { intros [[h0 s0] l0] ((Hh0 & Hh1) & Hs & Hl). unfold clampHSL, hsl_eq.
    split; [now apply RangeFacts.normalized_hue_small|].
    split; apply RangeFacts.clamp_pct; assumption. }
  cbv zeta. split; [apply A|]. apply A. apply RangeFacts.clampHSL_in_range.
Qed.

Lemma clampHSL_idempotent_witness :
  hsl_eq (clampHSL (202, 57, 50)) (202, 57, 50).
Proof.
  apply (proj1 (clampHSL_idempotent 202 57 50)).
  unfold hsl_in_range. vm_compute. intuition discriminate.
Defined.

(** Mixing two colours with hues in [0, 360], saturations and lightnesses
    in [0, 100] and a ratio in [0, 1] gives three integers in the same
    ranges (a hue of 360 included). *)
Theorem mixHSLColors_range (hsl1 hsl2 : HSL) (ratio : Q) :
  hsl_in_closed_range hsl1 -> hsl_in_closed_range hsl2 ->
  0 <= ratio -> ratio <= 1 ->
  exists h s l : Z,
    mixHSLColors hsl1 hsl2 ratio = (inject_Z h, inject_Z s, inject_Z l) /\
    (0 <= h <= 360)%Z /\ (0 <= s <= 100)%Z /\ (0 <= l <= 100)%Z.
Proof.
  destruct hsl1 as [[h1 s1] l1], hsl2 as [[h2 s2] l2].
  intros (Hh1 & Hs1 & Hl1) (Hh2 & Hs2 & Hl2) R0 R1.
  unfold mixHSLColors. cbv zeta.
  eexists _, _, _. split; [reflexivity|].
  pose proof (MixFacts.mixed_hue_range h1 h2 ratio Hh1 Hh2 R0 R1) as Hh.
  cbv zeta in Hh. destruct Hh as [Hh0 Hh3].
  split; [|split].
  - apply ConversionFacts.Math_round_range; [exact Hh0|].
    change (inject_Z 360) with 360. exact Hh3.
  - apply ConversionFacts.Math_round_range;
      [|change (inject_Z 100) with 100];
      unfold Math_max, Math_min; repeat js_case; lra.
  - apply ConversionFacts.Math_round_range;
      [|change (inject_Z 100) with 100];
      unfold Math_max, Math_min; repeat js_case; lra.
Qed.

(** With integer components in range (hue below 360), mixing at ratio 0
    returns the first colour and mixing at ratio 1 the second. *)
Theorem mixHSLColors_ends (a1 b1 c1 a2 b2 c2 : Z) :
  let hsl1 := (inject_Z a1, inject_Z b1, inject_Z c1) in
  let hsl2 := (inject_Z a2, inject_Z b2, inject_Z c2) in
  hsl_in_range hsl1 -> hsl_in_range hsl2 ->
  mixHSLColors hsl1 hsl2 0 = hsl1 /\ mixHSLColors hsl1 hsl2 1 = hsl2.
Proof.
  cbv zeta. intros ((A0 & A1) & S1 & L1) ((B0 & B1) & S2 & L2).
  destruct (MixFacts.mixed_hue_ends (inject_Z a1) (inject_Z a2) A0 A1 B0 B1)
    as [E0 E1]. cbv zeta in E0, E1.
  unfold mixHSLColors. cbv zeta. split.
  - rewrite (MixFacts.Math_round_compat_Z _ a1 E0).
    rewrite (MixFacts.Math_round_compat_Z _ b1
               (MixFacts.clamp_pct_mix (inject_Z b1) (inject_Z b2) 0 _ S1 ltac:(lra))).
    rewrite (MixFacts.Math_round_compat_Z _ c1
               (MixFacts.clamp_pct_mix (inject_Z c1) (inject_Z c2) 0 _ L1 ltac:(lra))).
    reflexivity.
  - rewrite (MixFacts.Math_round_compat_Z _ a2 E1).
    rewrite (MixFacts.Math_round_compat_Z _ b2
               (MixFacts.clamp_pct_mix (inject_Z b1) (inject_Z b2) 1 _ S2 ltac:(lra))).
    rewrite (MixFacts.Math_round_compat_Z _ c2
               (MixFacts.clamp_pct_mix (inject_Z c1) (inject_Z c2) 1 _ L2 ltac:(lra))).
    reflexivity.
Qed.

Lemma mixHSLColors_ends_witness :
  mixHSLColors (350, 50, 50) (10, 60, 40) 0 = (350, 50, 50) /\
  mixHSLColors (350, 50, 50) (10, 60, 40) 1 = (10, 60, 40).
Proof.
  apply (mixHSLColors_ends 350 50 50 10 60 40); unfold hsl_in_range;
    vm_compute; intuition discriminate.
Defined.

Lemma mixHSLColors_range_witness :
  exists h s l : Z,
    mixHSLColors (350, 50, 50) (10, 60, 40) 0.5
      = (inject_Z h, inject_Z s, inject_Z l) /\
    (0 <= h <= 360)%Z /\ (0 <= s <= 100)%Z /\ (0 <= l <= 100)%Z.
Proof.
  apply (mixHSLColors_range (350, 50, 50) (10, 60, 40) 0.5);
    unfold hsl_in_closed_range, hue_ok, pct; lra.
Defined.

(** The distance of [calculateColorDistance] (accessibility.js), which is
    also [calculateSimpleColorDistance] (dark-mode-generator.js): it is
    symmetric, zero from a colour to itself, and between 0 and 100 for
    colours with hues in [0, 360] and saturations and lightnesses in
    [0, 100]. *)
Theorem calculateColorDistance_metric (c1 c2 : HSL) :
  DarkModeSearch.calculateSimpleColorDistance c1 c2
    = Accessibility.calculateColorDistance c1 c2 /\
  Accessibility.calculateColorDistance c1 c2
    == Accessibility.calculateColorDistance c2 c1 /\
  Accessibility.calculateColorDistance c1 c1 == 0 /\
  (hsl_in_closed_range c1 -> hsl_in_closed_range c2 ->
   0 <= Accessibility.calculateColorDistance c1 c2 /\
   Accessibility.calculateColorDistance c1 c2 <= 100).
Proof.
  destruct c1 as [[h1 s1] l1], c2 as [[h2 s2] l2].
  split; [reflexivity|].
  unfold Accessibility.calculateColorDistance.
  assert (D : forall x, x / 180 * 0.6 * 100 == x * (1 # 3)) by (intros; field).
  assert (S : forall x, x / 100 * 0.25 * 100 == x * (1 # 4)) by (intros; field).
  assert (L : forall x, x / 100 * 0.15 * 100 == x * (15 # 100)) by (intros; field).
  cbv zeta. rewrite !D, !S, !L.
  split; [|split].
  - unfold Math_abs. repeat js_case; lra.
  - unfold Math_abs. repeat js_case; lra.
  - intros ([A0 A1] & [B0 B1] & [C0 C1]) ([D0 D1] & [E0 E1] & [F0 F1]).
    unfold Math_abs. repeat js_case; lra.
Qed.

Lemma calculateColorDistance_metric_witness :
  0 <= Accessibility.calculateColorDistance (202, 57, 50) (10, 80, 40) /\
  Accessibility.calculateColorDistance (202, 57, 50) (10, 80, 40) <= 100.
Proof.
  apply (proj2 (proj2 (proj2
           (calculateColorDistance_metric (202, 57, 50) (10, 80, 40)))));
    unfold hsl_in_closed_range, hue_ok, pct; vm_compute; intuition discriminate.
Defined.

(** A pair of colours that passes the AAA check passes the AA check for
    the same text size, and a pair that passes a check for normal text
    passes it for large text; neither check depends on which of the two
    colours is the background. *)
Theorem passesContrastCheck_implications (bgRgb textRgb : RGB) (isLargeText : bool) :
  (ContrastChecks.passesContrastCheckAAA bgRgb textRgb isLargeText = true ->
   ContrastChecks.passesContrastCheck bgRgb textRgb isLargeText = true) /\
  (ContrastChecks.passesContrastCheck bgRgb textRgb false = true ->
   ContrastChecks.passesContrastCheck bgRgb textRgb true = true) /\
  (ContrastChecks.passesContrastCheckAAA bgRgb textRgb false = true ->
   ContrastChecks.passesContrastCheckAAA bgRgb textRgb true = true) /\
  ContrastChecks.passesContrastCheck bgRgb textRgb isLargeText
    = ContrastChecks.passesContrastCheck textRgb bgRgb isLargeText /\
  ContrastChecks.passesContrastCheckAAA bgRgb textRgb isLargeText
    = ContrastChecks.passesContrastCheckAAA textRgb bgRgb isLargeText.
Proof.
  unfold ContrastChecks.passesContrastCheck, ContrastChecks.passesContrastCheckAAA.
  cbv zeta. rewrite (ContrastFacts.getContrastRatio_comm textRgb bgRgb).
  set (r := getContrastRatio bgRgb textRgb).
  repeat split; try reflexivity; intros H; apply leb_true_iff in H;
    apply leb_true_iff; destruct isLargeText; lra.
Qed.

Lemma passesContrastCheck_implications_witness :
  ContrastChecks.passesContrastCheck whiteRgb blackRgb false = true.
Proof.
  apply (proj1 (passesContrastCheck_implications whiteRgb blackRgb false)).
  vm_compute. reflexivity.
Defined.

(** The level [getAccessibilityLevel] reports for the ratio of a side
    agrees with the flags of [getContrastInfo] for that side: "AAA" exactly
    when [passesAAA], "AAA" or "AA" exactly when [passesNormal], "Fail"
    exactly when [passesLarge] is false.  For a colour with channels in
    [0, 255], the level of the ratio against the preferred text colour is
    always one shown as "success". *)
Theorem getAccessibilityLevel_flags (rgb : RGB) :
  let info := getContrastInfo rgb in
  let agrees := fun side =>
    let lv := ContrastChecks.al_level
                (ContrastChecks.getAccessibilityLevel (ratio side)) in
    (passesAAA side = true <-> lv = "AAA"%string) /\
    (passesNormal side = true <-> (lv = "AAA"%string \/ lv = "AA"%string)) /\
    (passesLarge side = false <-> lv = "Fail"%string) in
  agrees (black info) /\ agrees (white info) /\
  (rgb_in_range rgb ->
   let best := if preferredText info =? "#000000" then black info
               else white info in
   ContrastChecks.al_color (ContrastChecks.getAccessibilityLevel (ratio best))
   = "success"%string)%string.
Proof.
  cbv zeta. unfold getContrastInfo.
  cbn [black white ratio passesAAA passesNormal passesLarge preferredText].
  assert (A : forall r : Q,
    let lv := ContrastChecks.al_level (ContrastChecks.getAccessibilityLevel r) in
    ((7.0 <=? r) = true <-> lv = "AAA"%string) /\
    ((4.5 <=? r) = true <-> (lv = "AAA"%string \/ lv = "AA"%string)) /\
    ((3.0 <=? r) = false <-> lv = "Fail"%string)).
  { intros r. cbv zeta. unfold ContrastChecks.getAccessibilityLevel.
    destruct (leb_spec 7.0 r), (leb_spec 4.5 r), (leb_spec 3.0 r);
      cbn [ContrastChecks.al_level]; try lra;
      repeat split; intros; try reflexivity; try discriminate; auto;
      try (destruct H2; discriminate). }
  split; [apply A|]. split; [apply A|].
  intros Hrgb.
  pose proof (ReadabilityFacts.black_or_white_normal rgb Hrgb) as H.
  set (b := getContrastRatio rgb blackRgb) in *.
  set (w := getContrastRatio rgb whiteRgb) in *.
  unfold ContrastChecks.getAccessibilityLevel.
  destruct (ltb_spec w b); cbn [String.eqb Ascii.eqb Bool.eqb andb ratio];
    repeat js_case; cbn [ContrastChecks.al_color]; try reflexivity; lra.
Qed.

Lemma getAccessibilityLevel_flags_witness :
  let info := getContrastInfo (55, 145, 198)%Z in
  let best := if (preferredText info =? "#000000")%string then black info
              else white info in
  ContrastChecks.al_color (ContrastChecks.getAccessibilityLevel (ratio best))
  = "success"%string.
Proof.
  apply (proj2 (proj2 (getAccessibilityLevel_flags (55, 145, 198)%Z))).
  unfold rgb_in_range. lia.
Defined.

(** [calculateAPCAContrast] does not depend on the order of the two
    colours.  For colours with channels in [0, 255] it is not a number
    exactly when both luminances are zero, and otherwise an integer between
    0 and 100; it is 100 for white against black, not a number for black
    against black, and 0 for a colour of positive luminance against
    itself. *)
Theorem calculateAPCAContrast_range (bgRgb textRgb : RGB) :
  ContrastChecks.calculateAPCAContrast bgRgb textRgb
    = ContrastChecks.calculateAPCAContrast textRgb bgRgb /\
  ContrastChecks.calculateAPCAContrast whiteRgb blackRgb = Some 100%Z /\
  ContrastChecks.calculateAPCAContrast blackRgb blackRgb = None /\
  (rgb_in_range bgRgb -> rgb_in_range textRgb ->
   match ContrastChecks.calculateAPCAContrast bgRgb textRgb with
   | None => calculateLuminance bgRgb == 0 /\ calculateLuminance textRgb == 0
   | Some n =>
       (0 <= n <= 100)%Z /\
       (0 < calculateLuminance bgRgb \/ 0 < calculateLuminance textRgb)
   end) /\
  (rgb_in_range bgRgb -> 0 < calculateLuminance bgRgb ->
   ContrastChecks.calculateAPCAContrast bgRgb bgRgb = Some 0%Z).
Proof.
  unfold ContrastChecks.calculateAPCAContrast. cbv zeta.
  split; [|split; [|split; [|split]]].
  - set (a := calculateLuminance bgRgb). set (b := calculateLuminance textRgb).
    assert (Emax : Math_max a b == Math_max b a) by apply ContrastFacts.Math_max_comm.
    assert (Emin : Math_min a b == Math_min b a) by apply ContrastFacts.Math_min_comm.
    rewrite (eqb_compat _ _ 0 0 Emax (Qeq_refl 0)).
    destruct (Math_max b a =? 0); [reflexivity|].
    f_equal. apply Math_round_compat. now rewrite Emax, Emin.
  - vm_compute. reflexivity.
  - vm_compute. reflexivity.
  - intros Hbg Htext.
    pose proof (ContrastFacts.calculateLuminance_range bgRgb Hbg) as [A0 A1].
    pose proof (ContrastFacts.calculateLuminance_range textRgb Htext) as [B0 B1].
    set (a := calculateLuminance bgRgb) in *.
    set (b := calculateLuminance textRgb) in *.
    assert (Hmax : a <= Math_max a b /\ b <= Math_max a b /\
                   (Math_max a b == a \/ Math_max a b == b))
      by (unfold Math_max; js_case; lra).
    assert (Hmin : 0 <= Math_min a b /\ Math_min a b <= Math_max a b)
      by (unfold Math_max, Math_min; repeat js_case; lra).
    set (mx := Math_max a b) in *. set (mn := Math_min a b) in *.
    destruct (eqb_spec mx 0) as [E|E].
    + split; lra.
    + assert (Hpos : 0 < mx) by (destruct (Qlt_le_dec 0 mx); [assumption|exfalso; apply E; lra]).
      destruct (ConversionFacts.div_bounds (mx - mn) mx Hpos ltac:(lra) ltac:(lra))
        as [Q0 Q1].
      split.
      * apply ConversionFacts.Math_round_range;
          [|change (inject_Z 100) with 100]; lra.
      * destruct Hmax as (_ & _ & [E1|E1]); [left|right]; lra.
  - intros Hbg Hpos.
    set (a := calculateLuminance bgRgb) in *.
    assert (Emax : Math_max a a = a) by (unfold Math_max; now destruct (a <? a)).
    assert (Emin : Math_min a a = a) by (unfold Math_min; now destruct (a <? a)).
    rewrite Emax, Emin.
    destruct (eqb_spec a 0) as [E|E]; [lra|].
    f_equal. apply MixFacts.Math_round_compat_Z.
    change (inject_Z 0) with 0. field. lra.
Qed.

Lemma calculateAPCAContrast_range_witness :
  match ContrastChecks.calculateAPCAContrast (55, 145, 198)%Z whiteRgb with
  | None => calculateLuminance (55, 145, 198)%Z == 0 /\
            calculateLuminance whiteRgb == 0
  | Some n =>
      (0 <= n <= 100)%Z /\
      (0 < calculateLuminance (55, 145, 198)%Z \/ 0 < calculateLuminance whiteRgb)
  end.
Proof.
  apply (proj1 (proj2 (proj2 (proj2
           (calculateAPCAContrast_range (55, 145, 198)%Z whiteRgb)))));
    unfold rgb_in_range, whiteRgb; lia.
Defined.

(** On numbers of [0, 1] with at most 17 binary fractional digits, which
    binary64 multiplies and subtracts here without rounding, [bezierEasing]
    stays within [0, 1], is symmetric about the centre
    ([e (1 - t) = 1 - e t]) and never decreases; it fixes 0, 1/2 and 1. *)
Theorem bezierEasing_curve (t u : Q) :
  dyadic17 t -> dyadic17 u -> 0 <= t -> t <= u -> u <= 1 ->
  (0 <= bezierEasing t /\ bezierEasing t <= 1) /\
  bezierEasing (1 - t) == 1 - bezierEasing t /\
  bezierEasing t <= bezierEasing u /\
  bezierEasing 0 == 0 /\ bezierEasing (1 # 2) == (1 # 2) /\ bezierEasing 1 == 1.
Proof.
  intros _ _ H0 H1 H2. unfold bezierEasing.
  split; [|split; [|split; [|split; [|split]]]];
    try (vm_compute; reflexivity).
  - split.
    + apply Qmult_le_0_compat; [apply Qmult_le_0_compat; lra|lra].
    + assert (E : 1 - t * t * (3 - 2 * t) == (1 - t) * (1 - t) * (1 + 2 * t))
        by ring.
      assert (0 <= (1 - t) * (1 - t) * (1 + 2 * t)).
      { apply Qmult_le_0_compat; [apply Qmult_le_0_compat; lra|lra]. }
      lra.
  - ring.
  - assert (E : u * u * (3 - 2 * u) - t * t * (3 - 2 * t)
                == (u - t) * (3 * (u + t) - 2 * (u * u + u * t + t * t)))
      by ring.
    assert (0 <= (u - t) * (3 * (u + t) - 2 * (u * u + u * t + t * t))).
    { apply Qmult_le_0_compat; [lra|]. nra. }
    lra.
Qed.

Lemma bezierEasing_curve_witness :
  (0 <= bezierEasing (1 # 4) /\ bezierEasing (1 # 4) <= 1) /\
  bezierEasing (1 - (1 # 4)) == 1 - bezierEasing (1 # 4) /\
  bezierEasing (1 # 4) <= bezierEasing (3 # 4) /\
  bezierEasing 0 == 0 /\ bezierEasing (1 # 2) == (1 # 2) /\ bezierEasing 1 == 1.
Proof.
  apply (bezierEasing_curve (1 # 4) (3 # 4)).
  - exists 32768%Z. vm_compute. reflexivity.
  - exists 98304%Z. vm_compute. reflexivity.
  - vm_compute; discriminate.
  - vm_compute; discriminate.
  - vm_compute; discriminate.
Defined.

(** [isColorAccessibleByMode] accepts under "full" only what it accepts
    under both "black-only" and "white-only", and accepts nothing under any
    other mode; with such a mode [findFullyAccessibleColor] returns [null]
    for both render modes and every colour. *)
Theorem isColorAccessibleByMode_modes
        (colorInfo : UIController.ColorData) (accessibilityMode : string) :
  (UIController.isColorAccessibleByMode colorInfo "full" =
     UIController.isColorAccessibleByMode colorInfo "black-only" &&
     UIController.isColorAccessibleByMode colorInfo "white-only") /\
  (accessibilityMode <> "full"%string ->
   accessibilityMode <> "black-only"%string ->
   accessibilityMode <> "white-only"%string ->
   UIController.isColorAccessibleByMode colorInfo accessibilityMode = false /\
   forall originalHSL : HSL,
     UIController.findFullyAccessibleColor originalHSL accessibilityMode "light"
       = Ok None /\
     UIController.findFullyAccessibleColor originalHSL accessibilityMode "dark"
       = Ok None).
Proof.
  split.
  - unfold UIController.isColorAccessibleByMode. cbn [String.eqb Ascii.eqb Bool.eqb andb].
    destruct (UIController.cd_blackPassesNormal colorInfo),
             (UIController.cd_blackPassesLarge colorInfo),
             (UIController.cd_whitePassesNormal colorInfo),
             (UIController.cd_whitePassesLarge colorInfo); reflexivity.
  - intros N1 N2 N3.
    assert (F : forall info, UIController.isColorAccessibleByMode info accessibilityMode = false).
    { intros info. unfold UIController.isColorAccessibleByMode.
      apply String.eqb_neq in N1, N2, N3. now rewrite N1, N2, N3. }
    split; [apply F|].
    assert (S : forall o h l ss best,
              UIController.saturationLoop o accessibilityMode h l ss best = best).
    { intros o h l ss best. induction ss as [|s ss IH];
        cbn [UIController.saturationLoop]; [reflexivity|].
      cbv zeta. now rewrite F. }
    assert (Ll : forall o h ss ls,
              UIController.lightnessLoop o accessibilityMode h ss ls None = None).
    { intros o h ss ls. induction ls as [|l ls IH];
        cbn [UIController.lightnessLoop]; [reflexivity|].
      cbv zeta. rewrite S. cbn [UIController.closeEnough]. exact IH. }
    assert (Hh : forall o ss ls hs,
              UIController.hueLoop o accessibilityMode ss ls hs None = None).
    { intros o ss ls hs. induction hs as [|h hs IH];
        cbn [UIController.hueLoop]; [reflexivity|].
      cbv zeta. rewrite Ll. cbn [UIController.closeEnough]. exact IH. }
    intros originalHSL. unfold UIController.findFullyAccessibleColor.
    destruct originalHSL as [[h s] l].
    split; cbn [UIController.searchRanges String.eqb Ascii.eqb Bool.eqb];
      cbv iota; now rewrite Hh.
Qed.

Lemma isColorAccessibleByMode_modes_witness :
  UIController.findFullyAccessibleColor (202, 57, 50) "AAA" "light" = Ok None /\
  UIController.findFullyAccessibleColor (202, 57, 50) "AAA" "dark" = Ok None.
Proof.
  apply (proj2 (isColorAccessibleByMode_modes
                  {| UIController.cd_blackPassesNormal := true;
                     UIController.cd_blackPassesLarge := true;
                     UIController.cd_whitePassesNormal := true;
                     UIController.cd_whitePassesLarge := true |}
                  "AAA"%string));
    discriminate.
Defined.

(* ================================================================== *)
(** * The candidate ranges of the searches *)
(* ================================================================== *)

Module SortFacts.

Section Sorting.
Context {A : Type} (key : A -> Q).


Lemma insert_by_HdRel x y xs :
  key y <= key x -> HdRel (byKey key) y xs -> HdRel (byKey key) y (insert_by key x xs).
Proof.
  intros Hyx H. destruct xs as [|z zs]; simpl.
  - constructor. exact Hyx.
  - destruct (key x <? key z); constructor; [exact Hyx|].
    now inversion H.
Qed.

Lemma insert_by_Sorted x xs :
  Sorted (byKey key) xs -> Sorted (byKey key) (insert_by key x xs).
Proof.
  induction 1 as [|y ys Hs IH Hd]; simpl.
  - repeat constructor.
  - destruct (ltb_spec (key x) (key y)) as [Hlt|Hge].
    + constructor; [constructor; assumption|].
      constructor. unfold byKey. lra.
    + constructor; [exact IH|]. now apply insert_by_HdRel.
Qed.

(** [sort] returns the elements in non-decreasing order of the key. *)
Lemma sort_by_Sorted xs : Sorted (byKey key) (sort_by key xs).
Proof.
  unfold sort_by.
  assert (H : forall acc, Sorted (byKey key) acc ->
                Sorted (byKey key) (fold_left (fun acc x => insert_by key x acc) xs acc)).
  { induction xs as [|x xs IH]; intros acc Hacc; simpl; [exact Hacc|].
    apply IH. now apply insert_by_Sorted. }
  apply H. constructor.
Qed.

(** The sort is stable: a first element whose key is minimal stays first. *)
Lemma sort_by_head x xs :
  (forall y, In y xs -> key x <= key y) ->
  exists tail, sort_by key (x :: xs) = x :: tail.
Proof.
  unfold sort_by. simpl.
  assert (H : forall ys acc, (forall y, In y ys -> key x <= key y) ->
                exists tail,
                  fold_left (fun acc x => insert_by key x acc) ys (x :: acc)
                  = x :: tail).
  { induction ys as [|y ys IH]; intros acc Hys; simpl.
    - now exists acc.
    - destruct (ltb_spec (key y) (key x)) as [Hlt|Hge].
      + specialize (Hys y (or_introl eq_refl)). lra.
      + apply IH. intros z Hz. apply Hys. now right. }
  intros Hxs. apply (H xs []). exact Hxs.
Qed.

End Sorting.

End SortFacts.

Module LoopFacts.

Lemma for_up_fuel_enough fuel extra start limit step :
  0 < step -> limit < start + inject_Z (Z.of_nat fuel) * step ->
  for_up_fuel (fuel + extra) start limit step
  = for_up_fuel fuel start limit step.
Proof.
  intros Hstep. revert start.
  induction fuel as [|fuel IH]; intros start Hlimit.
  - change (inject_Z (Z.of_nat 0)) with 0 in Hlimit.
    destruct extra as [|extra]; [reflexivity|]. simpl.
    js_case; [lra|reflexivity].
  - simpl. js_case; [|reflexivity]. f_equal. apply IH.
    rewrite Nat2Z.inj_succ in Hlimit. unfold Z.succ in Hlimit.
    rewrite inject_Z_plus in Hlimit. change (inject_Z 1) with 1 in Hlimit.
    lra.
Qed.

(** The fuel of [for_up] is enough: the loop stops because the next value
    exceeds the limit, and more fuel lists no more values. *)
Lemma for_up_last start limit step extra :
  0 < step ->
  for_up_fuel (Z.to_nat (Qfloor ((limit - start) / step) + 1) + extra)
              start limit step
  = for_up start limit step.
Proof.
  intros Hstep. unfold for_up.
  assert (E : (0 <? step) = true) by now apply ltb_true_iff.
  rewrite E. apply for_up_fuel_enough; [exact Hstep|].
  set (q := (limit - start) / step).
  assert (Hq : q * step == limit - start) by (unfold q; field; lra).
  pose proof (Qlt_floor q) as Hf.
  rewrite inject_Z_plus in Hf. change (inject_Z 1) with 1 in Hf.
  destruct (Z_le_gt_dec 0 (Qfloor q + 1)) as [Hpos|Hneg].
  - rewrite Z2Nat.id by exact Hpos. rewrite inject_Z_plus.
    change (inject_Z 1) with 1. nra.
  - assert (Z.to_nat (Qfloor q + 1) = O) by lia.
    rewrite H. change (inject_Z (Z.of_nat 0)) with 0.
    assert (inject_Z (Qfloor q) + 1 < 0).
    { change 1 with (inject_Z 1). rewrite <- inject_Z_plus.
      change 0 with (inject_Z 0). rewrite <- Zlt_Qlt. lia. }
    nra.
Qed.

End LoopFacts.

Module RangeListFacts.

Lemma includes_In xs x : includes xs x = true -> exists y, In y xs /\ y == x.
Proof.
  unfold includes. intros H. apply existsb_exists in H as (y & Hy & E).
  exists y. split; [exact Hy|]. destruct (eqb_spec y x); [assumption|discriminate].
Qed.

Lemma distance_nonneg (center a : Q) : 0 <= Math_abs (a - center).
Proof. apply MixFacts.Math_abs_nonneg. Qed.

Lemma distance_self (center a : Q) : a == center -> Math_abs (a - center) == 0.
Proof. intros E. unfold Math_abs. js_case; lra. Qed.

(** A list that starts with the centre still does after the sort. *)
Lemma sort_by_distance_head (center x : Q) xs :
  x == center ->
  exists tail, sort_by (fun a => Math_abs (a - center)) (x :: xs) = x :: tail.
Proof.
  intros E. apply SortFacts.sort_by_head. intros y _.
  pose proof (distance_self center x E). pose proof (distance_nonneg center y).
  lra.
Qed.

Lemma dedupe_head x xs :
  exists rest, dedupe (x :: xs) = x :: rest.
Proof. unfold dedupe. simpl. eexists. reflexivity. Qed.

End RangeListFacts.

(** For a positive step (with another the loop does not end) and a centre
    between the two bounds, [generateSearchRange] of accessibility.js
    returns a list that starts with the centre, contains both bounds, holds
    only values between the bounds, and is ordered by distance from the
    centre. *)
Theorem generateSearchRange_contents (center min max step : Q) :
  0 < step -> min <= center -> center <= max ->
  let range := Accessibility.generateSearchRange center min max step in
  (exists tail, range = center :: tail) /\
  (exists x, In x range /\ x == min) /\
  (exists x, In x range /\ x == max) /\
  Forall (fun y => min <= y /\ y <= max) range /\
  Sorted (byKey (fun a => Math_abs (a - center))) range.
Proof.
  intros _ Hmin Hmax. cbv zeta.
  split; [|split; [|split; [|split]]].
  - unfold Accessibility.generateSearchRange. cbv zeta.
    set (r1 := center :: flat_map _ _).
    assert (H2 : exists t, (if includes r1 min then r1 else r1 ++ [min])
                           = center :: t).
    { destruct (includes r1 min); eexists; reflexivity. }
    destruct H2 as (t2 & ->).
    assert (H3 : exists t, (if includes (center :: t2) max then center :: t2
                            else (center :: t2) ++ [max]) = center :: t).
    { destruct (includes (center :: t2) max); eexists; reflexivity. }
    destruct H3 as (t3 & ->).
    apply RangeListFacts.sort_by_distance_head. reflexivity.
  - unfold Accessibility.generateSearchRange. cbv zeta.
    set (r1 := center :: flat_map _ _).
    assert (H2 : exists x, In x (if includes r1 min then r1 else r1 ++ [min])
                           /\ x == min).
    { destruct (includes r1 min) eqn:E.
      - now apply RangeListFacts.includes_In.
      - exists min. split; [apply in_or_app; right; now left|reflexivity]. }
    destruct H2 as (x & Hx & E). exists x. split; [|exact E].
    apply ListFacts.sort_by_In.
    destruct (includes _ max); [exact Hx|apply in_or_app; now left].
  - unfold Accessibility.generateSearchRange. cbv zeta.
    set (r2 := if includes _ min then _ else _).
    assert (H3 : exists x, In x (if includes r2 max then r2 else r2 ++ [max])
                           /\ x == max).
    { destruct (includes r2 max) eqn:E.
      - now apply RangeListFacts.includes_In.
      - exists max. split; [apply in_or_app; right; now left|reflexivity]. }
    destruct H3 as (x & Hx & E). exists x. split; [|exact E].
    now apply ListFacts.sort_by_In.
  - now apply StagedSearchFacts.generateSearchRange_ok.
  - apply SortFacts.sort_by_Sorted.
Qed.

Lemma generateSearchRange_contents_witness :
  let range := Accessibility.generateSearchRange 57 0 100 15 in
  (exists tail, range = 57 :: tail) /\
  (exists x, In x range /\ x == 0) /\
  (exists x, In x range /\ x == 100) /\
  Forall (fun y => 0 <= y /\ y <= 100) range /\
  Sorted (byKey (fun a => Math_abs (a - 57))) range.
Proof. apply (generateSearchRange_contents 57 0 100 15); lra. Defined.

(** The [generateSearchRange] helper of ui-controller.js, which is also the
    one of dark-mode-generator.js: for a positive step (with another the
    loop does not end) and a centre between the two bounds it returns a list
    that starts with the centre, holds only values between the bounds, and
    is ordered by distance from the centre. *)
Theorem generateSearchRange_bounded (center min max step : Q) :
  0 < step -> min <= center -> center <= max ->
  DarkModeSearch.generateSearchRange center min max step
    = UIController.generateSearchRange center min max step /\
  let range := UIController.generateSearchRange center min max step in
  (exists first tail, range = first :: tail /\ first == center) /\
  Forall (fun y => min <= y /\ y <= max) range /\
  Sorted (byKey (fun a => Math_abs (a - center))) range.
Proof.
  intros _ Hmin Hmax. split; [reflexivity|]. cbv zeta.
  unfold UIController.generateSearchRange. cbv zeta.
  assert (E : Math_max min (Math_min max center) == center)
    by (unfold Math_max, Math_min; repeat js_case; lra).
  split; [|split].
  - destruct (RangeListFacts.sort_by_distance_head center _
                (flat_map
                   (fun i =>
                      (if min <=? center - i then [center - i] else []) ++
                      (if center + i <=? max then [center + i] else []))
                   (for_up step (Math_max (center - min) (max - center)) step)) E)
      as (tail & ->).
    exists (Math_max min (Math_min max center)), tail. split; [reflexivity|exact E].
  - apply ListFacts.Forall_sort_by. constructor; [lra|].
    apply Forall_flat_map, Forall_forall.
    intros i Hi. apply ListFacts.for_up_bounds in Hi. forall_range; lra.
  - apply SortFacts.sort_by_Sorted.
Qed.

Lemma generateSearchRange_bounded_witness :
  DarkModeSearch.generateSearchRange 57 30 85 10
    = UIController.generateSearchRange 57 30 85 10 /\
  let range := UIController.generateSearchRange 57 30 85 10 in
  (exists first tail, range = first :: tail /\ first == 57) /\
  Forall (fun y => 30 <= y /\ y <= 85) range /\
  Sorted (byKey (fun a => Math_abs (a - 57))) range.
Proof. apply (generateSearchRange_bounded 57 30 85 10); lra. Defined.

(** The candidate lists of the first stage of [findAccessibleColor]: for an
    original saturation and lightness in [0, 100], the saturation list and
    the lightness list start with the original value, hold only values in
    [0, 100] and are ordered by distance from the original value; for a
    centre hue in [0, 360] and a tolerance of at most 360, the hue list
    starts with the centre and holds only hues in [0, 360]. *)
Theorem stage_candidates (originalS originalL targetRatio centerHue tolerance : Q) :
  pct originalS -> pct originalL -> hue_ok centerHue -> tolerance <= 360 ->
  let ss := Accessibility.generateSmartSaturationRange originalS originalL in
  let ls := Accessibility.generateSmartLightnessRange originalL targetRatio in
  let hs := Accessibility.generateHueRange centerHue tolerance in
  ((exists tail, ss = originalS :: tail) /\ Forall pct ss /\
   Sorted (byKey (fun a => Math_abs (a - originalS))) ss) /\
  ((exists tail, ls = originalL :: tail) /\ Forall pct ls /\
   Sorted (byKey (fun a => Math_abs (a - originalL))) ls) /\
  ((exists tail, hs = centerHue :: tail) /\ Forall hue_ok hs).
Proof.
  intros HS HL HH HT. cbv zeta. split; [|split].
  - split; [|split].
    + unfold Accessibility.generateSmartSaturationRange. cbv zeta.
      match goal with
      | |- context [dedupe ?r] =>
          assert (Hr : exists t, r = originalS :: t)
            by (repeat match goal with
                       | |- context [if ?c then _ else _] => destruct c
                       end; eexists; reflexivity)
      end.
      destruct Hr as (t & ->).
      destruct (RangeListFacts.dedupe_head originalS t) as (rest & ->).
      apply RangeListFacts.sort_by_distance_head. reflexivity.
    + now apply StagedSearchFacts.generateSmartSaturationRange_ok.
    + apply SortFacts.sort_by_Sorted.
  - split; [|split].
    + unfold Accessibility.generateSmartLightnessRange. cbv zeta.
      match goal with
      | |- context [dedupe ?r] =>
          assert (Hr : exists t, r = originalL :: t)
            by (destruct (50 <? originalL); eexists; reflexivity)
      end.
      destruct Hr as (t & ->).
      destruct (RangeListFacts.dedupe_head originalL t) as (rest & ->).
      apply RangeListFacts.sort_by_distance_head. reflexivity.
    + now apply StagedSearchFacts.generateSmartLightnessRange_ok.
    + apply SortFacts.sort_by_Sorted.
  - split.
    + unfold Accessibility.generateHueRange.
      destruct (tolerance =? 0); eexists; reflexivity.
    + now apply StagedSearchFacts.generateHueRange_Forall.
Qed.

Lemma stage_candidates_witness :
  let ss := Accessibility.generateSmartSaturationRange 57 50 in
  let ls := Accessibility.generateSmartLightnessRange 50 4.5 in
  let hs := Accessibility.generateHueRange 202 30 in
  ((exists tail, ss = 57 :: tail) /\ Forall pct ss /\
   Sorted (byKey (fun a => Math_abs (a - 57))) ss) /\
  ((exists tail, ls = 50 :: tail) /\ Forall pct ls /\
   Sorted (byKey (fun a => Math_abs (a - 50))) ls) /\
  ((exists tail, hs = 202 :: tail) /\ Forall hue_ok hs).
Proof.
  apply (stage_candidates 57 50 4.5 202 30); unfold pct, hue_ok; lra.
Defined.

(* ================================================================== *)
(** * Lightness along a scale *)
(* ================================================================== *)

Module LightnessFacts.

(** The interpolation factors grow with the distance from level 400. *)
Lemma light_factor (a b : Z) :
  (a <= b)%Z -> (b <= 400)%Z ->
  0 <= inject_Z (400 - b) / 350 /\
  inject_Z (400 - b) / 350 <= inject_Z (400 - a) / 350.
Proof.
  intros Hab Hb.
  assert (E : forall x, x / 350 == x * (1 # 350)) by (intros; field).
  rewrite !E.
  assert (0 <= inject_Z (400 - b))
    by (change 0 with (inject_Z 0); rewrite <- Zle_Qle; lia).
  assert (inject_Z (400 - b) <= inject_Z (400 - a))
    by (rewrite <- Zle_Qle; lia).
  lra.
Qed.

Lemma dark_factor (a b : Z) :
  (400 <= a)%Z -> (a <= b)%Z ->
  0 <= inject_Z (a - 400) / 400 /\
  inject_Z (a - 400) / 400 <= inject_Z (b - 400) / 400.
Proof.
  intros Ha Hab.
  assert (E : forall x, x / 400 == x * (1 # 400)) by (intros; field).
  rewrite !E.
  assert (0 <= inject_Z (a - 400))
    by (change 0 with (inject_Z 0); rewrite <- Zle_Qle; lia).
  assert (inject_Z (a - 400) <= inject_Z (b - 400))
    by (rewrite <- Zle_Qle; lia).
  lra.
Qed.

(** The lightness adjustments of the registered levels never grow with the
    level; they are not negative below 400 and not positive above. *)
Lemma adjustments_order (a b : Z) :
  In a [50; 100; 200; 300; 400; 500; 600; 700; 800]%Z ->
  In b [50; 100; 200; 300; 400; 500; 600; 700; 800]%Z ->
  (a <= b)%Z ->
  lightnessAdjustment (getLevelAdjustments b)
    <= lightnessAdjustment (getLevelAdjustments a) /\
  ((a < 400)%Z -> 0 <= lightnessAdjustment (getLevelAdjustments a)) /\
  ((400 < b)%Z -> lightnessAdjustment (getLevelAdjustments b) <= 0).
Proof.
  simpl. intros Ha Hb Hab.
  repeat (destruct Ha as [<-|Ha]; [|]);
    try (destruct Ha);
    repeat (destruct Hb as [<-|Hb]; [|]);
    try (destruct Hb); try lia;
    (split; [vm_compute; discriminate|split; intros Hc]);
    try (exfalso; lia); vm_compute; discriminate.
Qed.

(** Moving further from the base in the direction of the bound, with a
    larger adjustment, moves the clamped value in that direction. *)
Lemma clamp_blend_le (lo hi L D f1 f2 a1 a2 : Q) :
  0 <= D -> f2 <= f1 -> a2 <= a1 ->
  Math_max lo (Math_min hi (L + D * f2 + a2))
    <= Math_max lo (Math_min hi (L + D * f1 + a1)).
Proof.
  intros HD Hf Ha.
  assert (D * f2 <= D * f1) by nra.
  unfold Math_max, Math_min. repeat js_case; lra.
Qed.

Lemma clamp_blend_ge (lo hi L D f1 f2 a1 a2 : Q) :
  D <= 0 -> f1 <= f2 -> a2 <= a1 ->
  Math_max lo (Math_min hi (L + D * f2 + a2))
    <= Math_max lo (Math_min hi (L + D * f1 + a1)).
Proof.
  intros HD Hf Ha.
  assert (D * f2 <= D * f1) by nra.
  unfold Math_max, Math_min. repeat js_case; lra.
Qed.

(** The bounds [calculateDynamicBoundaries] sets for the lightness lie on
    either side of a base lightness between 15 and 96. *)
Lemma boundaries_sides (H0 S0 L0 : Q) :
  15 <= L0 -> L0 <= 96 ->
  let b := calculateDynamicBoundaries (H0, S0, L0) in
  L0 <= lightestL b /\ darkestL b <= L0.
Proof.
  intros HL0 HL1. cbv zeta. unfold calculateDynamicBoundaries.
  repeat js_case; cbn [lightestL darkestL]; unfold Math_max, Math_min;
    repeat js_case; lra.
Qed.

(** The lightness of a swatch of the two branches. *)
Lemma nonNeutral_lightness (H0 S0 L0 : Q) (k : Z) :
  snd (calculateNonNeutralHSL (H0, S0, L0) k) =
    let b := calculateDynamicBoundaries (H0, S0, L0) in
    let adj := lightnessAdjustment (getLevelAdjustments k) in
    if (k <? 400)%Z
    then Math_max 0 (Math_min 100
           (L0 + (lightestL b - L0) * (inject_Z (400 - k) / 350) + adj))
    else Math_max 0 (Math_min 100
           (L0 + (darkestL b - L0) * (inject_Z (k - 400) / 400) + adj)).
Proof.
  unfold calculateNonNeutralHSL. cbv zeta.
  destruct (k <? 400)%Z; reflexivity.
Qed.

Lemma neutral_lightness (H0 S0 L0 : Q) (k : Z) :
  snd (calculateNeutralHSL (H0, S0, L0) k) =
    inject_Z (Math_round
      (Math_max 28 (Math_min 95
         (if (k <? 400)%Z
          then L0 + (95 - L0) * (inject_Z (400 - k) / 350)
          else L0 - (L0 - 28) * (inject_Z (k - 400) / 400))))).
Proof. reflexivity. Qed.

Lemma Math_round_mono (x y : Q) :
  x <= y -> inject_Z (Math_round x) <= inject_Z (Math_round y).
Proof.
  intros H. unfold Math_round. rewrite <- Zle_Qle. apply Qfloor_resp_le. lra.
Qed.

Lemma Math_round_upper (hi : Z) (x : Q) :
  x <= inject_Z hi -> inject_Z (Math_round x) <= inject_Z hi.
Proof.
  intros H. pose proof (Math_round_mono x (inject_Z hi) H) as M.
  now rewrite MixFacts.Math_round_integer in M.
Qed.

Section Scale.
Variables H0 S0 L0 : Q.
Variable l : Z.
Hypothesis HL : L0 == inject_Z l.
Hypothesis Hl : (28 <= l <= 95)%Z.

Lemma base_bounds : 28 <= L0 /\ L0 <= 95.
Proof.
  rewrite HL. change 28 with (inject_Z 28). change 95 with (inject_Z 95).
  rewrite <- !Zle_Qle. exact Hl.
Qed.

Lemma lightnessAt_400 : lightnessAt (H0, S0, L0) 400 = L0.
Proof. reflexivity. Qed.

Lemma lightnessAt_other k :
  k <> 400%Z ->
  lightnessAt (H0, S0, L0) k = if isNeutralColor (H0, S0, L0)
        then snd (calculateNeutralHSL (H0, S0, L0) k)
        else snd (calculateNonNeutralHSL (H0, S0, L0) k).
Proof.
  intros Hk. unfold lightnessAt.
  change (hsl (colorObjectFor (H0, S0, L0) (Some 400%Z) k))
    with (if (k =? 400)%Z then (H0, S0, L0) else calculateHSL (H0, S0, L0) k).
  apply Z.eqb_neq in Hk. rewrite Hk. unfold calculateHSL. rewrite Hk.
  now destruct (isNeutralColor (H0, S0, L0)).
Qed.

Lemma lightnessAt_light (a b : Z) :
  In a [50; 100; 200; 300; 400; 500; 600; 700; 800]%Z ->
  In b [50; 100; 200; 300; 400; 500; 600; 700; 800]%Z ->
  (a <= b)%Z -> (b < 400)%Z -> lightnessAt (H0, S0, L0) b <= lightnessAt (H0, S0, L0) a /\ L0 <= lightnessAt (H0, S0, L0) b.
Proof.
  intros Ha Hb Hab Hb4. destruct base_bounds as [B0 B1].
  destruct (adjustments_order a b Ha Hb Hab) as (Hadj & _ & _).
  destruct (adjustments_order b b Hb Hb (Z.le_refl b)) as (_ & Hpos & _).
  specialize (Hpos Hb4).
  destruct (light_factor a b Hab ltac:(lia)) as [F0 F1].
  rewrite !lightnessAt_other by lia.
  destruct (boundaries_sides H0 S0 L0 ltac:(lra) ltac:(lra)) as [HD _].
  cbv zeta in HD.
  assert (Ea : (a <? 400)%Z = true) by (apply Z.ltb_lt; lia).
  assert (Eb : (b <? 400)%Z = true) by (apply Z.ltb_lt; lia).
  destruct (isNeutralColor (H0, S0, L0)).
  - rewrite !neutral_lightness, Ea, Eb.
    assert (0 <= (95 - L0) * (inject_Z (400 - b) / 350)) by nra.
    assert ((95 - L0) * (inject_Z (400 - b) / 350)
            <= (95 - L0) * (inject_Z (400 - a) / 350)) by nra.
    split.
    + apply Math_round_mono. unfold Math_max, Math_min. repeat js_case; lra.
    + match goal with
      | |- _ <= inject_Z (Math_round ?x) =>
          pose proof (ReadabilityFacts.Math_round_lower l x) as M;
          assert (Hx : inject_Z l <= x)
            by (unfold Math_max, Math_min; repeat js_case; lra)
      end.
      specialize (M Hx). lra.
  - rewrite !nonNeutral_lightness. cbv zeta. rewrite Ea, Eb. split.
    + apply clamp_blend_le; lra.
    + set (D := lightestL _ - L0) in *.
      assert (0 <= D * (inject_Z (400 - b) / 350)) by (unfold D; nra).
      unfold Math_max, Math_min. repeat js_case; lra.
Qed.

Lemma lightnessAt_dark (a b : Z) :
  In a [50; 100; 200; 300; 400; 500; 600; 700; 800]%Z ->
  In b [50; 100; 200; 300; 400; 500; 600; 700; 800]%Z ->
  (a <= b)%Z -> (400 < a)%Z -> lightnessAt (H0, S0, L0) b <= lightnessAt (H0, S0, L0) a /\ lightnessAt (H0, S0, L0) a <= L0.
Proof.
  intros Ha Hb Hab Ha4. destruct base_bounds as [B0 B1].
  destruct (adjustments_order a b Ha Hb Hab) as (Hadj & _ & _).
  destruct (adjustments_order a a Ha Ha (Z.le_refl a)) as (_ & _ & Hneg).
  specialize (Hneg Ha4).
  destruct (dark_factor a b ltac:(lia) Hab) as [F0 F1].
  rewrite !lightnessAt_other by lia.
  destruct (boundaries_sides H0 S0 L0 ltac:(lra) ltac:(lra)) as [_ HD].
  cbv zeta in HD.
  assert (Ea : (a <? 400)%Z = false) by (apply Z.ltb_ge; lia).
  assert (Eb : (b <? 400)%Z = false) by (apply Z.ltb_ge; lia).
  destruct (isNeutralColor (H0, S0, L0)).
  - rewrite !neutral_lightness, Ea, Eb.
    assert (0 <= (L0 - 28) * (inject_Z (a - 400) / 400)) by nra.
    assert ((L0 - 28) * (inject_Z (a - 400) / 400)
            <= (L0 - 28) * (inject_Z (b - 400) / 400)) by nra.
    split.
    + apply Math_round_mono. unfold Math_max, Math_min. repeat js_case; lra.
    + match goal with
      | |- inject_Z (Math_round ?x) <= _ =>
          pose proof (Math_round_upper l x) as M;
          assert (Hx : x <= inject_Z l)
            by (unfold Math_max, Math_min; repeat js_case; lra)
      end.
      specialize (M Hx). lra.
  - rewrite !nonNeutral_lightness. cbv zeta. rewrite Ea, Eb. split.
    + apply clamp_blend_ge; lra.
    + set (D := darkestL _ - L0) in *.
      assert (D * (inject_Z (a - 400) / 400) <= 0) by (unfold D; nra).
      unfold Math_max, Math_min. repeat js_case; lra.
Qed.

Lemma lightnessAt_order (a b : Z) :
  In a [50; 100; 200; 300; 400; 500; 600; 700; 800]%Z ->
  In b [50; 100; 200; 300; 400; 500; 600; 700; 800]%Z ->
  (a <= b)%Z ->
  snd (hsl (colorObjectFor (H0, S0, L0) (Some 400%Z) b))
    <= snd (hsl (colorObjectFor (H0, S0, L0) (Some 400%Z) a)).
Proof.
  intros Ha Hb Hab. fold (lightnessAt (H0, S0, L0) a). fold (lightnessAt (H0, S0, L0) b).
  assert (H400 : In 400%Z [50; 100; 200; 300; 400; 500; 600; 700; 800]%Z)
    by (simpl; tauto).
  destruct (Z.lt_trichotomy b 400) as [Hb4|[->|Hb4]].
  - now apply lightnessAt_light.
  - destruct (Z.eq_dec a 400) as [->|Hne]; [apply Qle_refl|].
    rewrite lightnessAt_400.
    destruct (lightnessAt_light a a Ha Ha (Z.le_refl a) ltac:(lia)) as [_ H]. exact H.
  - destruct (Z.lt_trichotomy a 400) as [Ha4|[->|Ha4]].
    + destruct (lightnessAt_light a a Ha Ha (Z.le_refl a) Ha4) as [_ H1].
      destruct (lightnessAt_dark b b Hb Hb (Z.le_refl b) Hb4) as [_ H2]. lra.
    + rewrite lightnessAt_400.
      destruct (lightnessAt_dark b b Hb Hb (Z.le_refl b) Hb4) as [_ H2]. exact H2.
    + now apply lightnessAt_dark.
Qed.

End Scale.

Lemma registered_levels config k :
  In config (map snd SCALE_CONFIGURATIONS) -> In k (levels config) ->
  In k [50; 100; 200; 300; 400; 500; 600; 700; 800]%Z.
Proof.
  simpl. intros [<-|[<-|[<-|[<-|[]]]]]; simpl; tauto.
Qed.

End LightnessFacts.

(** For a base colour with integer components, in range and with a
    lightness between 28 and 95, the scale [createColorScale] returns gets
    no lighter as the level goes up: of two swatches, the one with the
    higher level has a lightness that is lower or equal. *)
Theorem createColorScale_lightness_order
        (h s l : Z) (configuration : string) (scale : list ColorObject) :
  hsl_in_range (inject_Z h, inject_Z s, inject_Z l) ->
  (28 <= l <= 95)%Z ->
  createColorScale (inject_Z h, inject_Z s, inject_Z l) configuration = Ok scale ->
  forall c1 c2, In c1 scale -> In c2 scale ->
    (level c1 <= level c2)%Z -> snd (hsl c2) <= snd (hsl c1).
Proof.
  intros (_ & _ & HLr) Hl H c1 c2 H1 H2 Hlevels.
  unfold createColorScale in H.
  destruct (lookup_configuration SCALE_CONFIGURATIONS configuration)
    as [config|] eqn:Hlookup; [|discriminate].
  injection H as <-.
  apply ScaleFacts.lookup_configuration_In in Hlookup.
  destruct (ScaleFacts.registered_configurations config Hlookup)
    as (_ & _ & Hb). rewrite Hb in H1, H2.
  apply in_map_iff in H1 as (k1 & <- & Hk1).
  apply in_map_iff in H2 as (k2 & <- & Hk2).
  cbn [level colorObjectFor] in Hlevels.
  unfold clampHSL.
  apply (LightnessFacts.lightnessAt_order _ _ _ l).
  - now apply RangeFacts.clamp_pct.
  - exact Hl.
  - now apply (LightnessFacts.registered_levels config).
  - now apply (LightnessFacts.registered_levels config).
  - exact Hlevels.
Qed.

Lemma createColorScale_lightness_order_witness :
  Forall (fun c1 =>
            Forall (fun c2 =>
                      (level c1 <= level c2)%Z -> snd (hsl c2) <= snd (hsl c1))
                   scenarioA_lightScale)
         scenarioA_lightScale.
Proof.
  apply Forall_forall. intros c1 H1. apply Forall_forall. intros c2 H2.
  apply (createColorScale_lightness_order 202 57 50 "diatonic"
           scenarioA_lightScale);
    [unfold hsl_in_range; vm_compute; intuition discriminate
    |lia|reflexivity|exact H1|exact H2].
Defined.

(* ================================================================== *)
(** * The text colour chosen from a HEX code *)
(* ================================================================== *)

Module TextColorFacts.

(** The colour a successful [hexToRgb] returns has channels in [0, 255]. *)
Lemma hexToRgb_in_range (hex : string) (rgb : RGB) :
  Hex.hexToRgb hex = Some rgb -> rgb_in_range rgb.
Proof.
  intros H.
  destruct (HexFacts.hexToRgb_digits hex rgb H)
    as (c1 & c2 & c3 & c4 & c5 & c6 & _ & H1 & H2 & H3 & H4 & H5 & H6 & ->).
  destruct (HexFacts.upper_hex_char _ H1) as (V1 & _).
  destruct (HexFacts.upper_hex_char _ H2) as (V2 & _).
  destruct (HexFacts.upper_hex_char _ H3) as (V3 & _).
  destruct (HexFacts.upper_hex_char _ H4) as (V4 & _).
  destruct (HexFacts.upper_hex_char _ H5) as (V5 & _).
  destruct (HexFacts.upper_hex_char _ H6) as (V6 & _).
  unfold rgb_in_range. repeat split; apply HexFacts.parseHexPair_range; lia.
Qed.

(** A ratio of at least [q] before rounding is at least [k / 100] after
    it, when [q * 100] rounds to [k] or more. *)
Lemma rounded_ratio_at_least (k : Z) (q lighter darker : Q) :
  0 < darker + 0.05 ->
  q * (darker + 0.05) <= lighter + 0.05 ->
  inject_Z k - (1 # 2) <= q * 100 ->
  inject_Z k * (1 # 100)
    <= inject_Z (Math_round ((lighter + 0.05) / (darker + 0.05) * 100)) / 100.
Proof.
  intros Hd H Hk.
  assert (Hq : q <= (lighter + 0.05) / (darker + 0.05))
    by (apply Qle_shift_div_l; assumption).
  set (x := (lighter + 0.05) / (darker + 0.05) * 100) in *.
  assert (Hr : inject_Z k <= inject_Z (Math_round x)).
  { unfold Math_round. rewrite <- Zle_Qle. rewrite <- (Qfloor_Z k).
    apply Qfloor_resp_le. unfold x. lra. }
  set (n := inject_Z (Math_round x)) in *.
  assert (E : n / 100 == n * (1 # 100)) by field.
  rewrite E. lra.
Qed.

End TextColorFacts.

(** [getContrastingTextColor] answers "#000000" for a text that [hexToRgb]
    rejects.  For a colour that is read, it answers "#000000" only when the
    luminance exceeds 0.5, and black text then has a ratio of at least 11;
    otherwise it answers "#ffffff", and a ratio of 1.91 is all that white
    text is sure to have. *)
Theorem getContrastingTextColor_choice (hex : string) :
  (Hex.hexToRgb hex = None ->
   Hex.getContrastingTextColor hex = "#000000"%string) /\
  (forall rgb : RGB, Hex.hexToRgb hex = Some rgb ->
     (Hex.getContrastingTextColor hex = "#000000"%string /\
      0.5 < calculateLuminance rgb /\ 11 <= getContrastRatio rgb blackRgb) \/
     (Hex.getContrastingTextColor hex = "#ffffff"%string /\
      calculateLuminance rgb <= 0.5 /\ 1.91 <= getContrastRatio rgb whiteRgb)).
Proof.
  split.
  - intros H. unfold Hex.getContrastingTextColor. now rewrite H.
  - intros rgb H. unfold Hex.getContrastingTextColor. rewrite H. cbv zeta.
    pose proof (TextColorFacts.hexToRgb_in_range hex rgb H) as Hrgb.
    pose proof (ContrastFacts.calculateLuminance_range rgb Hrgb) as [L0 L1].
    unfold getContrastRatio.
    pose proof ReadabilityFacts.luminance_black as Eb.
    pose proof ReadabilityFacts.luminance_white as Ew.
    set (L := calculateLuminance rgb) in *.
    set (B := calculateLuminance blackRgb) in *.
    set (W := calculateLuminance whiteRgb) in *.
    destruct (ltb_spec 0.5 L) as [HL|HL].
    + left. split; [reflexivity|split; [exact HL|]].
      assert (E : inject_Z 1100 * (1 # 100) == 11) by reflexivity.
      rewrite <- E.
      apply (TextColorFacts.rounded_ratio_at_least 1100 11);
        [| |vm_compute; discriminate];
        unfold Math_max, Math_min; repeat js_case; lra.
    + right. split; [reflexivity|split; [exact HL|]].
      assert (E : inject_Z 191 * (1 # 100) == 1.91) by reflexivity.
      rewrite <- E.
      apply (TextColorFacts.rounded_ratio_at_least 191 1.905);
        [| |vm_compute; discriminate];
        unfold Math_max, Math_min; repeat js_case; lra.
Qed.

(** On the blue of scenario A the two choices of a text colour differ:
    [getContrastingTextColor] answers white, with which the colour fails the
    normal-text check, while [getContrastInfo] prefers black. *)
Lemma getContrastingTextColor_choice_witness :
  ((Hex.getContrastingTextColor "#3791c6" = "#000000"%string /\
    0.5 < calculateLuminance (55, 145, 198)%Z /\
    11 <= getContrastRatio (55, 145, 198)%Z blackRgb) \/
   (Hex.getContrastingTextColor "#3791c6" = "#ffffff"%string /\
    calculateLuminance (55, 145, 198)%Z <= 0.5 /\
    1.91 <= getContrastRatio (55, 145, 198)%Z whiteRgb)) /\
  Hex.getContrastingTextColor "#3791c6" = "#ffffff"%string /\
  passesNormal (white (getContrastInfo (55, 145, 198)%Z)) = false /\
  preferredText (getContrastInfo (55, 145, 198)%Z) = "#000000"%string.
Proof.
  split.
  - apply (proj2 (getContrastingTextColor_choice "#3791c6") (55, 145, 198)%Z).
    vm_compute. reflexivity.
  - vm_compute. repeat split; reflexivity.
Defined.
